(** * threatstack-rule-manager: the state engine of [tsctl/state.py]

    A shallow embedding of the [State] class: the state-file primitives
    ([_state_add_rule] and friends), the filesystem mirror, the two
    reconcilers [push] and [refresh], the [lazy] decorator and the
    engine operations it wraps, followed by the properties of the
    specification that concern them.

    Conventions.
    - A Python [dict] is an insertion-ordered association list ([Dict]).
    - The state directory is a tree of named nodes; a path is the list of
      its components below the state directory, so
      [organization_dir = [org_id]] and a rule's directory is
      [[org_id; ruleset_id; rule_id]].
    - The state file is a document of its own, beside the tree.
    - The remote platform is an oracle: its answer to a call is a
      function of everything that happened before.  Every call and
      every [logging] record is appended to the trace of the world.
    - Python exceptions are results: a computation yields [Ok a w] or
      [Exc e w]. *)

From Stdlib Require Import String List Bool Arith Lia.
Import ListNotations.
Local Open Scope string_scope.
Local Open Scope list_scope.

(** ** Insertion-ordered dictionaries *)

Module Dict.

Definition t (V : Type) : Type := list (string * V).

Section Ops.
Context {V : Type}.

    (** [d.get(k)]: the value bound to [k], if any. *)
Fixpoint get (k : string) (d : t V) : option V :=
      match d with
      | [] => None
      | (k', v) :: d' => if String.eqb k k' then Some v else get k d'
      end.

    (** [k in d]. *)
Definition mem (k : string) (d : t V) : bool :=
      match get k d with Some _ => true | None => false end.

    (** [d[k] = v]: an existing key keeps its position, a new key goes
        to the end. *)
Fixpoint set (k : string) (v : V) (d : t V) : t V :=
      match d with
      | [] => [(k, v)]
      | (k', v') :: d' =>
          if String.eqb k k' then (k, v) :: d' else (k', v') :: set k v d'
      end.

    (** [d.pop(k)] on a dictionary: the binding of [k] goes away. *)
Fixpoint pop (k : string) (d : t V) : t V :=
      match d with
      | [] => []
      | (k', v') :: d' =>
          if String.eqb k k' then pop k d' else (k', v') :: pop k d'
      end.

    (** [list(d)]. *)
Definition keys (d : t V) : list string := map fst d.

Definition is_empty (d : t V) : bool :=
      match d with [] => true | _ => false end.

End Ops.

End Dict.

(** ** Statuses, the state file and the JSON documents of the mirror *)

(** [RuleStatus = Literal['rule', 'tags', 'both', 'del']] *)
Inductive RuleStatus : Type := st_rule | st_tags | st_both | st_del.

(** [RulesetStatus = Literal['true', 'false', 'del']] *)
Inductive RulesetStatus : Type := rs_true | rs_false | rs_del.

Definition RuleStatus_eqb (a b : RuleStatus) : bool :=
  match a, b with
  | st_rule, st_rule | st_tags, st_tags | st_both, st_both | st_del, st_del => true
  | _, _ => false
  end.

Definition RulesetStatus_eqb (a b : RulesetStatus) : bool :=
  match a, b with
  | rs_true, rs_true | rs_false, rs_false | rs_del, rs_del => true
  | _, _ => false
  end.

(** One ruleset of the state file:
    [{'modified': ..., 'ruleIds': {rule_id: status}}]. *)
Record ruleset_entry : Type := mk_entry {
  modified : RulesetStatus;
  ruleIds : Dict.t RuleStatus
}.

(** The state file: [{'workspace': ..., 'organizations': {org: {ruleset: entry}}}]. *)
Record state_doc : Type := mk_state {
  workspace : string;
  organizations : Dict.t (Dict.t ruleset_entry)
}.

(** [ruleset.json]: the POSTable fields of a ruleset. *)
Record ruleset_data : Type := mk_ruleset {
  rs_name : string;
  rs_description : string;
  rs_ruleIds : list string
}.

(** [rule.json]: the name, the ['id'] field when the document came from
    the platform, and the remaining fields, which the engine never
    inspects. *)
Record rule_data : Type := mk_rule {
  r_name : string;
  rule_id_field : option string;
  rule_body : string
}.

(** [tags.json] is never inspected: it holds a dictionary, whose text is
    kept as it is, or a JSON value of another kind. *)
Inductive tags_data : Type :=
| tags_dict (body : string)
| tags_str (s : string)
| tags_null.

Inductive content : Type :=
| JRuleset (d : ruleset_data)
| JRule (d : rule_data)
| JTags (d : tags_data).

(** ** The state directory *)

#[warnings="-register-all"]
Inductive node : Type :=
| File (c : content)
| Dir (kids : list (string * node)).

(** A path below the state directory, by its components.  The source
    builds its paths by concatenation, [dir + id + '/'], which names the
    entry [id] of [dir] when [id] is a name an entry can bear: not
    empty, not [.] or [..], and without a slash ([plain] below).  The
    definitions use an identifier as one component; the properties of
    identifiers that the caller, the state file or the platform hand in
    say where they need them to be such names. *)
Definition path : Type := list string.

(** ** Exceptions, remote calls and the trace *)

Inductive exn : Type :=
| URLError
| KeyboardInterrupt
| ValueError
| KeyError
| TypeError
| AttributeError
| AssertionError
| RecursionError
| FileNotFoundError
| FileExistsError
| NotADirectoryError
| IsADirectoryError
| OSError
| ShutilError.

Definition exn_eqb (a b : exn) : bool :=
  match a, b with
  | URLError, URLError | KeyboardInterrupt, KeyboardInterrupt
  | ValueError, ValueError | KeyError, KeyError | TypeError, TypeError
  | AttributeError, AttributeError | AssertionError, AssertionError
  | RecursionError, RecursionError
  | FileNotFoundError, FileNotFoundError | FileExistsError, FileExistsError
  | NotADirectoryError, NotADirectoryError
  | IsADirectoryError, IsADirectoryError
  | OSError, OSError | ShutilError, ShutilError => true
  | _, _ => false
  end.

(** A ruleset as [get_rulesets] lists it. *)
Record remote_ruleset : Type := mk_remote_ruleset {
  rr_id : string;
  rr_createdAt : string;
  rr_updatedAt : string;
  rr_data : ruleset_data
}.

(** The methods of the client [API] that the engine calls. *)
Inductive call : Type :=
| get_rulesets
| get_ruleset_rules (ruleset_id : string)
| get_rule_tags (rule_id : string)
| post_ruleset (data : ruleset_data)
| put_ruleset (ruleset_id : string) (data : ruleset_data)
| delete_ruleset (ruleset_id : string)
| post_rule (ruleset_id : string) (data : rule_data)
| put_rule (ruleset_id rule_id : string) (data : rule_data)
| delete_rule (ruleset_id rule_id : string)
| post_tags (rule_id : string) (data : tags_data).

(** What a call gives back: it raises, or it returns a document.  The
    documents are told apart by the keys the engine looks at. *)
Inductive response : Type :=
| Raises (e : exn)                        (* the call raises [e] *)
| Falsy                                   (* [None] *)
| Errors                                  (* a document with an ['errors'] key *)
| WithId (id : string)                    (* a document with an ['id'] key *)
| Rulesets (l : list remote_ruleset)      (* [{'rulesets': [...]}] *)
| Rules (l : list rule_data)              (* [{'ruleIds': [...]}] of full rule objects *)
| Tags (d : tags_data)                    (* [{'inclusion': ..., 'exclusion': ...}] *)
| NoContent.                              (* a document with none of these keys *)

(** The [logging] records of [push] and [refresh], one constructor per
    format string, with the identifier it interpolates. *)
Inductive message : Type :=
| Deleting_ruleset (id : string)
| Failed_to_delete_ruleset (id : string)
| Creating_ruleset (id : string)
| New_ruleset_ID (id : string)
| Failed_to_create_ruleset (id : string)
| Creating_rule (id : string)
| Failed_to_create_rule (id : string)
| Creating_tags (id : string)
| Failed_to_update_tags (id : string)
| Updating_ruleset
| Failed_to_update_ruleset (id : string)
| Failed_to_update_rule (id : string)
| Updating_tags (id : string)
| Updating_rule (id : string)
| Failed_to_update_rule_JSON (id : string)
| Deleting_rule (id : string)
| Failed_on_deletion_of_rule (id : string)
| Could_not_retrieve_rulesets
| Could_not_retrieve_organization
| Refreshing_ruleset (id : string)
| Pulling_rule (id : string)
| Could_not_refresh (org : string)
| Not_found (id : string)
| Pushing_changes.

Inductive event : Type :=
| Log (m : message)
| Api (c : call) (r : response).

(** ** Worlds and computations *)

Record world : Type := mk_world {
  disk : node;                      (* the state directory *)
  statefile : option state_doc;     (* the state file, when it exists *)
  uuids : list string;              (* what the coming [uuid4()] calls return *)
  trace : list event                (* oldest first *)
}.

Inductive result (A : Type) : Type :=
| Ok (a : A) (w : world)
| Exc (e : exn) (w : world).
Arguments Ok {A} a w.
Arguments Exc {A} e w.

Definition M (A : Type) : Type := world -> result A.

Definition ret {A} (a : A) : M A := fun w => Ok a w.

Definition raise {A} (e : exn) : M A := fun w => Exc e w.

Definition bind {A B} (m : M A) (f : A -> M B) : M B :=
  fun w => match m w with
           | Ok a w' => f a w'
           | Exc e w' => Exc e w'
           end.

(** [try: m  except (e1, e2, ...): handler]; [catches] tells the
    exceptions of the [except] clause. *)
Definition try_except {A} (m : M A) (catches : exn -> bool) (handler : M A) : M A :=
  fun w => match m w with
           | Ok a w' => Ok a w'
           | Exc e w' => if catches e then handler w' else Exc e w'
           end.

Declare Scope py_scope.
Delimit Scope py_scope with py.
Notation "x <- m ;; k" := (bind m (fun x => k))
  (at level 61, m at next level, right associativity) : py_scope.
Notation "m ;;; k" := (bind m (fun _ => k))
  (at level 61, right associativity) : py_scope.
Local Open Scope py_scope.

Definition final_world {A} (r : result A) : world :=
  match r with Ok _ w => w | Exc _ w => w end.

Definition emit (ev : event) : M unit :=
  fun w => Ok tt (mk_world (disk w) (statefile w) (uuids w) (trace w ++ [ev])).

Definition logging (m : message) : M unit := emit (Log m).

(** Pure computations that may raise. *)
Inductive outcome (A : Type) : Type :=
| Done (a : A)
| Raise (e : exn).
Arguments Done {A} a.
Arguments Raise {A} e.

Definition lift {A} (o : outcome A) : M A :=
  match o with Done a => ret a | Raise e => raise e end.

(** ** The engine instance and the state file *)

(** The fields of [self] that the methods read.  [organization_dir] is
    [state_dir + org_id + '/']. *)
Record State : Type := mk_State {
  org_id : string;
  _postfix : string
}.

Definition organization_dir (self : State) : path := [org_id self].

(** [s.endswith(suffix)]. *)
Definition endswith (s suffix : string) : bool :=
  let n := String.length s in
  let m := String.length suffix in
  (m <=? n)%nat && String.eqb (substring (n - m)%nat m s) suffix.

(** Modelled from the spec: [utils.read_json] and [utils.write_json] are
    not part of the sources at hand; reads of a missing file fail
    explicitly.  Here on the state file. *)
Definition read_state : M state_doc :=
  fun w => match statefile w with
           | Some st => Ok st w
           | None => Exc FileNotFoundError w
           end.

Definition write_state (st : state_doc) : M unit :=
  fun w => Ok tt (mk_world (disk w) (Some st) (uuids w) (trace w)).

(** The frame shared by the six primitives:
    [write_state = not state], read the file when nothing was passed,
    run the body, then either commit and return [None] or hand the
    updated document back. *)
Definition with_state (state : option state_doc)
    (body : state_doc -> outcome state_doc) : M (option state_doc) :=
  match state with
  | None =>
      st <- read_state ;;
      st' <- lift (body st) ;;
      write_state st' ;;;
      ret None
  | Some st =>
      st' <- lift (body st) ;;
      ret (Some st')
  end.

(** [state['organizations'][org] = m]. *)
Definition set_org (org : string) (m : Dict.t ruleset_entry) (state : state_doc) : state_doc :=
  mk_state (workspace state) (Dict.set org m (organizations state)).

(** [state['organizations'].pop(org)]. *)
Definition pop_org (org : string) (state : state_doc) : state_doc :=
  mk_state (workspace state) (Dict.pop org (organizations state)).

Section Primitives.
Variable self : State.

Definition state_add_organization_body (state : state_doc) : outcome state_doc :=
    if negb (Dict.mem (org_id self) (organizations state))
    then Done (set_org (org_id self) [] state)
    else Done state.

Definition _state_add_organization (state : option state_doc) : M (option state_doc) :=
    with_state state state_add_organization_body.

Definition state_delete_organization_body (org : option string) (state : state_doc) : outcome state_doc :=
    match org with
    | Some o =>
        if negb (String.eqb o "") then
          if Dict.mem o (organizations state) then Done (pop_org o state) else Done state
        else
          if Dict.mem (org_id self) (organizations state)
          then Done (pop_org (org_id self) state) else Done state
    | None =>
        if Dict.mem (org_id self) (organizations state)
        then Done (pop_org (org_id self) state) else Done state
    end.

Definition _state_delete_organization (org : option string) (state : option state_doc)
    : M (option state_doc) :=
    with_state state (state_delete_organization_body org).

Definition state_add_ruleset_body (ruleset_id : string) (action : RulesetStatus)
      (state : state_doc) : outcome state_doc :=
    match Dict.get (org_id self) (organizations state) with
    | Some m =>
        match Dict.get ruleset_id m with
        | Some e =>
            if RulesetStatus_eqb action rs_true && RulesetStatus_eqb (modified e) rs_false then
              Done (set_org (org_id self)
                      (Dict.set ruleset_id (mk_entry rs_true (ruleIds e)) m) state)
            else if negb (RulesetStatus_eqb action rs_del)
                    && RulesetStatus_eqb (modified e) rs_del then
              Raise ValueError
            else if RulesetStatus_eqb action rs_false
                    && RulesetStatus_eqb (modified e) rs_true then
              Raise ValueError
            else Done state
        | None =>
            Done (set_org (org_id self) (Dict.set ruleset_id (mk_entry action []) m) state)
        end
    | None =>
        match state_add_organization_body state with
        | Done state' =>
            match Dict.get (org_id self) (organizations state') with
            | Some m =>
                Done (set_org (org_id self)
                        (Dict.set ruleset_id (mk_entry action []) m) state')
            | None => Raise KeyError
            end
        | Raise e => Raise e
        end
    end.

Definition _state_add_ruleset (ruleset_id : string) (action : RulesetStatus)
      (state : option state_doc) : M (option state_doc) :=
    with_state state (state_add_ruleset_body ruleset_id action).

Definition state_delete_ruleset_body (ruleset_id : string) (state : state_doc) : outcome state_doc :=
    match Dict.get (org_id self) (organizations state) with
    | Some m =>
        match Dict.get ruleset_id m with
        | Some e =>
            if endswith ruleset_id (_postfix self) then
              let m' := Dict.pop ruleset_id m in
              if Dict.is_empty m'
              then Done (pop_org (org_id self) state)
              else Done (set_org (org_id self) m' state)
            else
              if negb (RulesetStatus_eqb (modified e) rs_del) then
                Done (set_org (org_id self)
                        (Dict.set ruleset_id (mk_entry rs_del []) m) state)
              else
                if Dict.is_empty (ruleIds e) then Done state else Raise AssertionError
        | None =>
            Done (set_org (org_id self) (Dict.set ruleset_id (mk_entry rs_del []) m) state)
        end
    | None =>
        Done (set_org (org_id self) [(ruleset_id, mk_entry rs_del [])] state)
    end.

Definition _state_delete_ruleset (ruleset_id : string) (state : option state_doc)
    : M (option state_doc) :=
    with_state state (state_delete_ruleset_body ruleset_id).

  (** The [if]/[elif] chain of [_state_add_rule] on a rule that is
      already tracked with status [s]; [None] is the [raise]. *)
Definition add_rule_status (endpoint s : RuleStatus) : option RuleStatus :=
    if negb (RuleStatus_eqb endpoint st_del) && RuleStatus_eqb s st_del then None
    else if RuleStatus_eqb endpoint st_tags && RuleStatus_eqb s st_both then Some s
    else if RuleStatus_eqb endpoint st_rule && RuleStatus_eqb s st_both then Some s
    else if RuleStatus_eqb endpoint st_both && negb (RuleStatus_eqb s st_both) then Some st_both
    else if RuleStatus_eqb endpoint st_tags && RuleStatus_eqb s st_rule then Some st_both
    else if RuleStatus_eqb endpoint st_rule && RuleStatus_eqb s st_tags then Some st_both
    else Some s.

  (** [_state_add_rule] calls itself after it has added the missing
      organization or ruleset; [depth] bounds the nesting of calls. *)
Fixpoint state_add_rule_body (depth : nat) (ruleset_id rule_id : string) (endpoint : RuleStatus)
      (state : state_doc) : outcome state_doc :=
    match depth with
    | O => Raise RecursionError
    | S depth' =>
        match Dict.get (org_id self) (organizations state) with
        | Some m =>
            match Dict.get ruleset_id m with
            | Some e =>
                match Dict.get rule_id (ruleIds e) with
                | Some s =>
                    match add_rule_status endpoint s with
                    | None => Raise ValueError
                    | Some s' =>
                        Done (set_org (org_id self)
                                (Dict.set ruleset_id
                                   (mk_entry (modified e) (Dict.set rule_id s' (ruleIds e))) m)
                                state)
                    end
                | None =>
                    Done (set_org (org_id self)
                            (Dict.set ruleset_id
                               (mk_entry (modified e) (Dict.set rule_id endpoint (ruleIds e))) m)
                            state)
                end
            | None =>
                match state_add_ruleset_body ruleset_id rs_false state with
                | Done state' => state_add_rule_body depth' ruleset_id rule_id endpoint state'
                | Raise e => Raise e
                end
            end
        | None =>
            match state_add_organization_body state with
            | Done state1 =>
                match state_add_ruleset_body ruleset_id rs_false state1 with
                | Done state2 => state_add_rule_body depth' ruleset_id rule_id endpoint state2
                | Raise e => Raise e
                end
            | Raise e => Raise e
            end
        end
    end.

  (** Python's default recursion limit. *)
Definition recursion_limit : nat := 1000.

Definition _state_add_rule (ruleset_id rule_id : string) (endpoint : RuleStatus)
      (state : option state_doc) : M (option state_doc) :=
    with_state state (state_add_rule_body recursion_limit ruleset_id rule_id endpoint).

Definition state_delete_rule_body (ruleset_id rule_id : string) (state : state_doc)
    : outcome state_doc :=
    match Dict.get (org_id self) (organizations state) with
    | Some m =>
        match Dict.get ruleset_id m with
        | Some e =>
            match Dict.get rule_id (ruleIds e) with
            | Some s =>
                if endswith rule_id (_postfix self) then
                  Done (set_org (org_id self)
                          (Dict.set ruleset_id
                             (mk_entry (modified e) (Dict.pop rule_id (ruleIds e))) m) state)
                else if negb (RuleStatus_eqb s st_del) then
                  Done (set_org (org_id self)
                          (Dict.set ruleset_id
                             (mk_entry (modified e) (Dict.set rule_id st_del (ruleIds e))) m) state)
                else Done state
            | None =>
                Done (set_org (org_id self)
                        (Dict.set ruleset_id
                           (mk_entry (modified e) (Dict.set rule_id st_del (ruleIds e))) m) state)
            end
        | None =>
            Done (set_org (org_id self)
                    (Dict.set ruleset_id (mk_entry rs_false [(rule_id, st_del)]) m) state)
        end
    | None =>
        Done (set_org (org_id self)
                [(ruleset_id, mk_entry rs_false [(rule_id, st_del)])] state)
    end.

Definition _state_delete_rule (ruleset_id rule_id : string) (state : option state_doc)
    : M (option state_doc) :=
    with_state state (state_delete_rule_body ruleset_id rule_id).

End Primitives.

(** ** The filesystem calls *)

Module Fs.

  (** The node at [p] below [n]. *)
Fixpoint lookup (p : path) (n : node) : option node :=
    match p with
    | [] => Some n
    | x :: p' =>
        match n with
        | Dir kids =>
            match Dict.get x kids with
            | Some c => lookup p' c
            | None => None
            end
        | File _ => None
        end
    end.

  (** Rewrite the entries of the directory at [p]. *)
Fixpoint modify (p : path) (f : list (string * node) -> list (string * node))
      (n : node) : option node :=
    match n with
    | File _ => None
    | Dir kids =>
        match p with
        | [] => Some (Dir (f kids))
        | x :: p' =>
            match Dict.get x kids with
            | Some c =>
                match modify p' f c with
                | Some c' => Some (Dir (Dict.set x c' kids))
                | None => None
                end
            | None => None
            end
        end
    end.

Definition is_dir (o : option node) : bool :=
    match o with Some (Dir _) => true | _ => false end.

Definition exists_ (o : option node) : bool :=
    match o with Some _ => true | None => false end.

End Fs.

Definition set_disk (d : node) : M unit :=
  fun w => Ok tt (mk_world d (statefile w) (uuids w) (trace w)).

Definition get_disk : M node := fun w => Ok (disk w) w.

(** [os.path.isdir(p)]. *)
Definition os_path_isdir (p : path) : M bool :=
  d <- get_disk ;; ret (Fs.is_dir (Fs.lookup p d)).

(** [os.listdir(p)]. *)
Definition os_listdir (p : path) : M (list string) :=
  d <- get_disk ;;
  match Fs.lookup p d with
  | Some (Dir kids) => ret (Dict.keys kids)
  | Some (File _) => raise NotADirectoryError
  | None => raise FileNotFoundError
  end.

(** Apply [f] to the entries of directory [dir], which exists. *)
Definition modify_dir (dir : path) (f : list (string * node) -> list (string * node)) : M unit :=
  d <- get_disk ;;
  match Fs.modify dir f d with
  | Some d' => set_disk d'
  | None => raise FileNotFoundError
  end.

(** [os.mkdir(dir + name)]. *)
Definition os_mkdir (dir : path) (name : string) : M unit :=
  d <- get_disk ;;
  match Fs.lookup dir d with
  | Some (Dir kids) =>
      if Dict.mem name kids then raise FileExistsError
      else modify_dir dir (Dict.set name (Dir []))
  | Some (File _) => raise NotADirectoryError
  | None => raise FileNotFoundError
  end.

(** [os.rmdir(dir + name)]: the directory must be empty. *)
Definition os_rmdir (dir : path) (name : string) : M unit :=
  d <- get_disk ;;
  match Fs.lookup (dir ++ [name]) d with
  | Some (Dir []) => modify_dir dir (Dict.pop name)
  | Some (Dir (_ :: _)) => raise OSError
  | Some (File _) => raise NotADirectoryError
  | None => raise FileNotFoundError
  end.

(** [shutil.rmtree(dir + name)]. *)
Definition shutil_rmtree (dir : path) (name : string) : M unit :=
  d <- get_disk ;;
  match Fs.lookup (dir ++ [name]) d with
  | Some (Dir _) => modify_dir dir (Dict.pop name)
  | Some (File _) => raise NotADirectoryError
  | None => raise FileNotFoundError
  end.

(** [os.rename(dir + name, into + as_)] once [shutil.move] has settled
    the real destination, which does not exist or is a file.  The copying
    fallback that [shutil.move] takes when [os.rename] fails is left out:
    the engine only moves to a directory that exists. *)
Definition rename (dir : path) (name : string) (into : path) (as_ : string) : M unit :=
  d <- get_disk ;;
  match Fs.lookup (dir ++ [name]) d with
  | None => raise FileNotFoundError
  | Some src =>
      match src, Fs.lookup (into ++ [as_]) d with
      | Dir _, Some (File _) => raise FileExistsError
      | _, _ =>
          modify_dir dir (Dict.pop name) ;;;
          d' <- get_disk ;;
          match Fs.modify into (Dict.set as_ src) d' with
          | Some d'' => set_disk d''
          | None => raise OSError
          end
      end
  end.

(** [shutil.move(dir + name, dst_dir + dst_name)]: a destination that is
    an existing directory receives the source under its own name, unless
    that name is taken there. *)
Definition shutil_move (dir : path) (name : string) (dst_dir : path) (dst_name : string)
  : M unit :=
  d <- get_disk ;;
  match Fs.lookup (dst_dir ++ [dst_name]) d with
  | Some (Dir kids) =>
      if list_eq_dec string_dec (dir ++ [name]) (dst_dir ++ [dst_name]) then
        match Fs.lookup (dir ++ [name]) d with
        | Some _ => ret tt
        | None => raise FileNotFoundError
        end
      else if Dict.mem name kids then raise ShutilError
      else rename dir name (dst_dir ++ [dst_name]) name
  | _ => rename dir name dst_dir dst_name
  end.

(** Modelled from the spec: [utils.read_json], which is not part of the
    sources at hand; reads of a missing file fail explicitly. *)
Definition read_json (dir : path) (name : string) : M content :=
  d <- get_disk ;;
  match Fs.lookup (dir ++ [name]) d with
  | Some (File c) => ret c
  | Some (Dir _) => raise IsADirectoryError
  | None => raise FileNotFoundError
  end.

(** Modelled from the spec: [utils.write_json], which is not part of the
    sources at hand; the directory of the file is the caller's to create. *)
Definition write_json (dir : path) (name : string) (c : content) : M unit :=
  d <- get_disk ;;
  match Fs.lookup dir d with
  | Some (Dir kids) =>
      match Dict.get name kids with
      | Some (Dir _) => raise IsADirectoryError
      | _ => modify_dir dir (Dict.set name (File c))
      end
  | Some (File _) => raise NotADirectoryError
  | None => raise FileNotFoundError
  end.

(** The three kinds of document, read where the engine expects them. *)
Definition read_ruleset_json (dir : path) : M ruleset_data :=
  c <- read_json dir "ruleset.json" ;;
  match c with JRuleset d => ret d | _ => raise KeyError end.

Definition read_rule_json (dir : path) : M rule_data :=
  c <- read_json dir "rule.json" ;;
  match c with JRule d => ret d | _ => raise KeyError end.

Definition read_tags_json (dir : path) : M tags_data :=
  c <- read_json dir "tags.json" ;;
  match c with JTags d => ret d | _ => raise KeyError end.

(** [for x in l: body(x)]. *)
Fixpoint for_each {A} (l : list A) (body : A -> M unit) : M unit :=
  match l with
  | [] => ret tt
  | x :: l' => body x ;;; for_each l' body
  end.

(** [for x in l: acc = body(x, acc)]: a loop that updates local variables. *)
Fixpoint for_fold {A S} (l : list A) (body : A -> S -> M S) (acc : S) : M S :=
  match l with
  | [] => ret acc
  | x :: l' => acc' <- body x acc ;; for_fold l' body acc'
  end.

(** ** The reconcilers *)

Definition is_URLError (e : exn) : bool := exn_eqb e URLError.

Definition is_URLError_or_KeyboardInterrupt (e : exn) : bool :=
  exn_eqb e URLError || exn_eqb e KeyboardInterrupt.

(** [response['id']]. *)
Definition id_of (r : response) : M string :=
  match r with
  | WithId i => ret i
  | Falsy => raise TypeError
  | _ => raise KeyError
  end.

(** The document that [write_json] stores for what [get_rule_tags]
    returned. *)
Definition tags_of_response (r : response) : tags_data :=
  match r with
  | Tags d => d
  | Falsy => tags_null
  | Errors => tags_dict "errors"
  | WithId i => tags_dict "id"
  | Rulesets _ => tags_dict "rulesets"
  | Rules _ => tags_dict "ruleIds"
  | NoContent => tags_dict ""
  | Raises _ => tags_null
  end.

(** [state[...][ruleset_id]] and the updates of one rule's status in the
    dictionary [m = state['organizations'][self.org_id]]. *)
Definition entry_of (ruleset_id : string) (m : Dict.t ruleset_entry) : M ruleset_entry :=
  match Dict.get ruleset_id m with
  | Some e => ret e
  | None => raise KeyError
  end.

Definition status_of (ruleset_id rule_id : string) (m : Dict.t ruleset_entry) : M RuleStatus :=
  e <- entry_of ruleset_id m ;;
  match Dict.get rule_id (ruleIds e) with
  | Some s => ret s
  | None => raise KeyError
  end.

Definition set_status (ruleset_id rule_id : string) (s : RuleStatus) (m : Dict.t ruleset_entry)
  : M (Dict.t ruleset_entry) :=
  e <- entry_of ruleset_id m ;;
  ret (Dict.set ruleset_id (mk_entry (modified e) (Dict.set rule_id s (ruleIds e))) m).

Definition pop_status (ruleset_id rule_id : string) (m : Dict.t ruleset_entry)
  : M (Dict.t ruleset_entry) :=
  e <- entry_of ruleset_id m ;;
  match Dict.get rule_id (ruleIds e) with
  | Some _ =>
      ret (Dict.set ruleset_id (mk_entry (modified e) (Dict.pop rule_id (ruleIds e))) m)
  | None => raise KeyError
  end.

Definition set_modified (ruleset_id : string) (a : RulesetStatus) (m : Dict.t ruleset_entry)
  : M (Dict.t ruleset_entry) :=
  e <- entry_of ruleset_id m ;;
  ret (Dict.set ruleset_id (mk_entry a (ruleIds e)) m).

Section Reconcilers.

  (** The client [API]: what a call returns, given all that happened. *)
Variable api : list event -> call -> response.

Definition request (c : call) : M response :=
    fun w =>
      let r := api (trace w) c in
      let w' := mk_world (disk w) (statefile w) (uuids w) (trace w ++ [Api c r]) in
      match r with
      | Raises e => Exc e w'
      | _ => Ok r w'
      end.

Variable self : State.

Let org : path := organization_dir self.

  (** *** [refresh] *)

  (** One turn of [for ruleset in rulesets['rulesets']].  The identifiers
      of the platform are used as the names of the entries they get
      under [.remote/], which is where the concatenation of the source
      puts them when they are names of entries ([plain]). *)
Definition refresh_ruleset (ruleset : remote_ruleset) : M unit :=
    let remote_dir := org ++ [".remote"] in
    let ruleset_id := rr_id ruleset in
    logging (Refreshing_ruleset ruleset_id) ;;;
    ruleset_rules <- request (get_ruleset_rules ruleset_id) ;;
    let ruleset_dir := remote_dir ++ [ruleset_id] in
    os_mkdir remote_dir ruleset_id ;;;
    write_json ruleset_dir "ruleset.json" (JRuleset (rr_data ruleset)) ;;;
    rules <- match ruleset_rules with
             | Rules l => ret l
             | Falsy => raise TypeError
             | _ => raise KeyError
             end ;;
    for_each rules (fun rule =>
      rule_id <- match rule_id_field rule with
                 | Some i => ret i
                 | None => raise KeyError
                 end ;;
      logging (Pulling_rule rule_id) ;;;
      rule_tags <- request (get_rule_tags rule_id) ;;
      let rule_dir := ruleset_dir ++ [rule_id] in
      os_mkdir ruleset_dir rule_id ;;;
      write_json rule_dir "rule.json" (JRule rule) ;;;
      write_json rule_dir "tags.json" (JTags (tags_of_response rule_tags))).

  (** The body of the [try]: [false] when it leaves through [return],
      [true] when it runs to its end. *)
Definition refresh_fetch : M bool :=
    rulesets <- request get_rulesets ;;
    match rulesets with
    | Falsy => logging Could_not_retrieve_rulesets ;;; ret false
    | Errors => logging Could_not_retrieve_organization ;;; ret false
    | Rulesets l => for_each l refresh_ruleset ;;; ret true
    | _ => raise KeyError
    end.

  (** The statements before the [try]: recover from a former run, create
      the two staging directories, move the mirror into [.backup/]. *)
Definition refresh_stage : M unit :=
    let remote_dir := org ++ [".remote"] in
    let backup_dir := org ++ [".backup"] in
    b <- os_path_isdir remote_dir ;;
    (if b then shutil_rmtree org ".remote" else ret tt) ;;;
    b <- os_path_isdir backup_dir ;;
    (if b then
       names <- os_listdir backup_dir ;;
       for_each names (fun ruleset => shutil_move backup_dir ruleset [] (org_id self)) ;;;
       os_rmdir org ".backup"
     else ret tt) ;;;
    os_mkdir org ".backup" ;;;
    os_mkdir org ".remote" ;;;
    names <- os_listdir org ;;
    for_each names (fun ruleset =>
      if negb (String.eqb ruleset ".backup") && negb (String.eqb ruleset ".remote")
      then shutil_move org ruleset backup_dir ruleset
      else ret tt).

  (** The [except (URLError, KeyboardInterrupt)] clause. *)
Definition refresh_restore : M unit :=
    let backup_dir := org ++ [".backup"] in
    logging (Could_not_refresh (org_id self)) ;;;
    shutil_rmtree org ".remote" ;;;
    names <- os_listdir backup_dir ;;
    for_each names (fun ruleset => shutil_move backup_dir ruleset org ruleset) ;;;
    os_rmdir org ".backup".

  (** The [else] clause of the [try]. *)
Definition refresh_commit : M unit :=
    let remote_dir := org ++ [".remote"] in
    names <- os_listdir remote_dir ;;
    for_each names (fun ruleset => shutil_move remote_dir ruleset org ruleset) ;;;
    shutil_rmtree org ".backup" ;;;
    shutil_rmtree org ".remote" ;;;
    _ <- _state_delete_organization self (Some (org_id self)) None ;;
    ret tt.

Definition refresh : M unit :=
    refresh_stage ;;;
    r <- try_except (b <- refresh_fetch ;; ret (Some b))
           is_URLError_or_KeyboardInterrupt
           (refresh_restore ;;; ret None) ;;
    match r with
    | Some true => refresh_commit
    | Some false => ret tt
    | None => ret tt
    end.

  (** *** [push] *)

  (** One turn of the loop over [localonly_rules], which [push] has
      twice: under a ruleset that was just created ([post_to] is its new
      ID, lines 146-173) and under a ruleset that exists ([post_to] is
      [ruleset_id], lines 205-233).  The two differ in their log records
      only.  The local variables are [m] and [ruleset_data['ruleIds']].
      The identifier listed in [ruleset.json] and the one the platform
      assigns are used as names of entries of the ruleset's directory
      ([plain]). *)
Definition push_localonly_rule (ruleset_id post_to : string)
      (failed tagging : string -> message) (rule_id : string)
      (vars : Dict.t ruleset_entry * list string)
    : M (Dict.t ruleset_entry * list string) :=
    let '(m, ids) := vars in
    let ruleset_dir := org ++ [ruleset_id] in
    let rule_dir := ruleset_dir ++ [rule_id] in
    rule_data <- read_rule_json rule_dir ;;
    tags_data <- read_tags_json rule_dir ;;
    created <- try_except
      (logging (Creating_rule rule_id) ;;;
       rule_response <- request (post_rule post_to rule_data) ;;
       (match rule_response with
        | Errors => raise URLError
        | Falsy => raise TypeError
        | _ => ret tt
        end) ;;;
       m1 <- set_status ruleset_id rule_id st_tags m ;;
       new_rule_id <- id_of rule_response ;;
       shutil_move ruleset_dir rule_id ruleset_dir new_rule_id ;;;
       ret (Some (m1, ids ++ [new_rule_id], new_rule_id)))
      is_URLError
      (logging (failed rule_id) ;;; ret None) ;;
    match created with
    | None => ret (m, ids)
    | Some (m1, ids1, new_rule_id) =>
        try_except
          (logging (tagging rule_id) ;;;
           _ <- request (post_tags new_rule_id tags_data) ;;
           s <- status_of ruleset_id rule_id m1 ;;
           if RuleStatus_eqb s st_tags then
             m2 <- pop_status ruleset_id rule_id m1 ;; ret (m2, ids1)
           else
             m2 <- set_status ruleset_id rule_id st_rule m1 ;; ret (m2, ids1))
          is_URLError
          (logging (Failed_to_update_tags rule_id) ;;; ret (m1, ids1))
    end.

  (** The branch [if ruleset_id.endswith(self._postfix)], lines 129-187.
      The identifier the platform assigns is used as the name of an
      entry of the organization's directory ([plain]). *)
Definition push_localonly_ruleset (ruleset_id : string) (ruleset_data : ruleset_data)
      (m : Dict.t ruleset_entry) : M (Dict.t ruleset_entry) :=
    let ruleset_dir := org ++ [ruleset_id] in
    let localonly_rules := rs_ruleIds ruleset_data in
    let ruleset_data := mk_ruleset (rs_name ruleset_data) (rs_description ruleset_data) [] in
    posted <- try_except
      (logging (Creating_ruleset ruleset_id) ;;;
       ruleset_response <- request (post_ruleset ruleset_data) ;;
       new_ruleset_id <- id_of ruleset_response ;;
       logging (New_ruleset_ID new_ruleset_id) ;;;
       ret (Some new_ruleset_id))
      is_URLError
      (logging (Failed_to_create_ruleset ruleset_id) ;;; ret None) ;;
    match posted with
    | None => ret m
    | Some new_ruleset_id =>
        vars <- for_fold localonly_rules
                  (push_localonly_rule ruleset_id new_ruleset_id
                     Failed_to_create_rule Creating_tags)
                  (m, rs_ruleIds ruleset_data) ;;
        let '(m1, ids) := vars in
        let new_ruleset_dir := org ++ [new_ruleset_id] in
        shutil_move org ruleset_id org new_ruleset_id ;;;
        write_json new_ruleset_dir "ruleset.json"
          (JRuleset (mk_ruleset (rs_name ruleset_data) (rs_description ruleset_data) ids)) ;;;
        e <- entry_of ruleset_id m1 ;;
        if Dict.is_empty (ruleIds e) then ret (Dict.pop ruleset_id m1)
        else ret (Dict.pop ruleset_id (Dict.set new_ruleset_id e m1))
    end.

  (** One turn of the loop over the rules that the state file tracks
      under an existing ruleset, lines 239-290. *)
Definition push_tracked_rule (ruleset_id rule_id : string) (m : Dict.t ruleset_entry)
    : M (Dict.t ruleset_entry) :=
    let rule_dir := org ++ [ruleset_id; rule_id] in
    s <- status_of ruleset_id rule_id m ;;
    match s with
    | st_rule =>
        rule_data <- read_rule_json rule_dir ;;
        try_except
          (logging (Updating_rule rule_id) ;;;
           _ <- request (put_rule ruleset_id rule_id rule_data) ;;
           pop_status ruleset_id rule_id m)
          is_URLError
          (logging (Failed_to_update_rule_JSON rule_id) ;;; ret m)
    | st_tags =>
        tags_data <- read_tags_json rule_dir ;;
        try_except
          (logging (Updating_tags rule_id) ;;;
           _ <- request (post_tags rule_id tags_data) ;;
           pop_status ruleset_id rule_id m)
          is_URLError
          (logging (Failed_to_update_tags rule_id) ;;; ret m)
    | st_both =>
        rule_data <- read_rule_json rule_dir ;;
        put <- try_except
          (logging (Updating_rule rule_id) ;;;
           _ <- request (put_rule ruleset_id rule_id rule_data) ;;
           m1 <- set_status ruleset_id rule_id st_tags m ;;
           ret (Some m1))
          is_URLError
          (logging (Failed_to_update_rule rule_id) ;;; ret None) ;;
        match put with
        | None => ret m
        | Some m1 =>
            tags_data <- read_tags_json rule_dir ;;
            try_except
              (logging (Updating_tags rule_id) ;;;
               _ <- request (post_tags rule_id tags_data) ;;
               pop_status ruleset_id rule_id m1)
              is_URLError
              (logging (Failed_to_update_tags rule_id) ;;; ret m1)
        end
    | st_del =>
        try_except
          (logging (Deleting_rule rule_id) ;;;
           _ <- request (delete_rule ruleset_id rule_id) ;;
           pop_status ruleset_id rule_id m)
          is_URLError
          (logging (Failed_on_deletion_of_rule rule_id) ;;; ret m)
    end.

  (** The [else] branch, lines 189-294: a ruleset that exists remotely. *)
Definition push_existing_ruleset (ruleset_id : string) (ruleset_data : ruleset_data)
      (m : Dict.t ruleset_entry) : M (Dict.t ruleset_entry) :=
    let ruleset_dir := org ++ [ruleset_id] in
    let localonly_rules :=
      filter (fun rule_id => endswith rule_id (_postfix self)) (rs_ruleIds ruleset_data) in
    let ruleset_data :=
      mk_ruleset (rs_name ruleset_data) (rs_description ruleset_data)
        (filter (fun rule_id => negb (endswith rule_id (_postfix self)))
           (rs_ruleIds ruleset_data)) in
    e <- entry_of ruleset_id m ;;
    m1 <- (if RulesetStatus_eqb (modified e) rs_true then
             try_except
               (logging Updating_ruleset ;;;
                _ <- request (put_ruleset ruleset_id ruleset_data) ;;
                set_modified ruleset_id rs_false m)
               is_URLError
               (logging (Failed_to_update_ruleset ruleset_id) ;;; ret m)
           else ret m) ;;
    vars <- for_fold localonly_rules
              (push_localonly_rule ruleset_id ruleset_id Failed_to_update_rule Updating_tags)
              (m1, rs_ruleIds ruleset_data) ;;
    let '(m2, ids) := vars in
    write_json ruleset_dir "ruleset.json"
      (JRuleset (mk_ruleset (rs_name ruleset_data) (rs_description ruleset_data) ids)) ;;;
    e2 <- entry_of ruleset_id m2 ;;
    m3 <- for_fold (Dict.keys (ruleIds e2)) (push_tracked_rule ruleset_id) m2 ;;
    e3 <- entry_of ruleset_id m3 ;;
    if RulesetStatus_eqb (modified e3) rs_false && Dict.is_empty (ruleIds e3)
    then ret (Dict.pop ruleset_id m3)
    else ret m3.

  (** One turn of [for ruleset_id in list(state['organizations'][self.org_id])].
      The identifiers of the state file are used as names of entries of
      the organization's directory ([plain]). *)
Definition push_ruleset (ruleset_id : string) (m : Dict.t ruleset_entry)
    : M (Dict.t ruleset_entry) :=
    e <- entry_of ruleset_id m ;;
    if RulesetStatus_eqb (modified e) rs_del then
      try_except
        (logging (Deleting_ruleset ruleset_id) ;;;
         _ <- request (delete_ruleset ruleset_id) ;;
         ret (Dict.pop ruleset_id m))
        is_URLError
        (logging (Failed_to_delete_ruleset ruleset_id) ;;; ret m)
    else
      ruleset_data <- read_ruleset_json (org ++ [ruleset_id]) ;;
      if endswith ruleset_id (_postfix self)
      then push_localonly_ruleset ruleset_id ruleset_data m
      else push_existing_ruleset ruleset_id ruleset_data m.

Definition push : M unit :=
    state <- read_state ;;
    match Dict.get (org_id self) (organizations state) with
    | Some m =>
        m' <- for_fold (Dict.keys m) push_ruleset m ;;
        let state' := if Dict.is_empty m'
                      then pop_org (org_id self) state
                      else set_org (org_id self) m' state in
        write_state state'
    | None => ret tt
    end.

End Reconcilers.

(** ** The engine operations and the [lazy] decorator *)

(** An argument of type [Union[str, Dict]] or [Optional[Union[str, Dict]]]:
    a string, a dictionary, [None], or the type object [str] itself. *)
Inductive pyobj (D : Type) : Type :=
| PyStr (s : string)
| PyDict (d : D)
| PyNone
| PyType_str.
Arguments PyStr {D} s.
Arguments PyDict {D} d.
Arguments PyNone {D}.
Arguments PyType_str {D}.

(** [x is str]: the identity of [x] and the type object. *)
Definition is_str {D} (x : pyobj D) : bool :=
  match x with
  | PyType_str => true
  | _ => false
  end.

(** What a wrapped method returns: [None], a string or a [State]. *)
Inductive retval : Type :=
| RetNone
| RetStr (s : string)
| RetState (s : State).

(** [sub in s] on strings. *)
Fixpoint contains (sub s : string) : bool :=
  String.prefix sub s ||
  match s with
  | EmptyString => false
  | String _ s' => contains sub s'
  end.

Definition in_list (x : string) (l : list string) : bool :=
  existsb (String.eqb x) l.

(** [l.remove(x)]: the first occurrence goes; [None] is the [ValueError]. *)
Fixpoint list_remove (x : string) (l : list string) : option (list string) :=
  match l with
  | [] => None
  | y :: l' =>
      if String.eqb x y then Some l'
      else match list_remove x l' with
           | Some r => Some (y :: r)
           | None => None
           end
  end.

(** [while True: id = str(uuid4()) + postfix; if id not in taken: break]. *)
Fixpoint generate (postfix : string) (taken : list string) (us : list string)
  : option (string * list string) :=
  match us with
  | [] => None
  | u :: us' =>
      let id := String.append u postfix in
      if in_list id taken then generate postfix taken us' else Some (id, us')
  end.

Definition generate_id (postfix : string) (taken : list string) : M string :=
  fun w =>
    match generate postfix taken (uuids w) with
    | Some (id, us) => Ok id (mk_world (disk w) (statefile w) us (trace w))
    | None => Exc OSError (mk_world (disk w) (statefile w) [] (trace w))
    end.

(** [for x in l: if test(x): return True] then [return False]. *)
Fixpoint any_of (l : list string) (test : string -> M bool) : M bool :=
  match l with
  | [] => ret false
  | x :: l' => b <- test x ;; if b then ret true else any_of l' test
  end.

(** [while occurs(name): name += postfix]; a name that [postfix]
    lengthens meets each of the [bound] names on disk at most once. *)
Fixpoint uniquify (bound : nat) (occurs : string -> M bool) (postfix : string) (name : string)
  : M string :=
  b <- occurs name ;;
  if b then
    match bound with
    | O => raise RecursionError
    | S bound' => uniquify bound' occurs postfix (String.append name postfix)
    end
  else ret name.

(** [name_postfix if name_postfix else ' - COPY']. *)
Definition postfix_or_copy (name_postfix : option string) : string :=
  match name_postfix with
  | Some p => if String.eqb p "" then " - COPY" else p
  | None => " - COPY"
  end.

Section Engine.

Variable api : list event -> call -> response.

  (** The flag [lazy_eval] of the package, which [tsctl/__init__.py]
      defines. *)
Variable lazy_eval : bool.

  (** The JSON files outside the state directory, by name. *)
Variable files : string -> option content.

  (** [read_json(x)] on an argument of a wrapped method. *)
Definition read_json_arg {D} (as_dict : content -> option D) (x : pyobj D) : M (pyobj D) :=
    match x with
    | PyStr s =>
        match files s with
        | Some c =>
            match as_dict c with
            | Some d => ret (PyDict d)
            | None => ret PyNone
            end
        | None => raise FileNotFoundError
        end
    | _ => raise TypeError
    end.

Definition as_ruleset (c : content) : option ruleset_data :=
    match c with JRuleset d => Some d | _ => None end.

Definition as_rule (c : content) : option rule_data :=
    match c with JRule d => Some d | _ => None end.

Definition as_tags (c : content) : option string :=
    match c with JTags (tags_dict b) => Some b | _ => None end.

  (** [data = read_json(x) if x is str else x]. *)
Definition data_of {D} (as_dict : content -> option D) (x : pyobj D) : M (pyobj D) :=
    if is_str x then read_json_arg as_dict x else ret x.

  (** [data[...]] on what should be a dictionary. *)
Definition subscript {D} (data : pyobj D) : M D :=
    match data with
    | PyDict d => ret d
    | _ => raise TypeError
    end.

  (** The decorator: in lazy mode the method alone; otherwise the method,
      then [res.push()] on a result that is not [None]. *)
Definition lazy (f : State -> M retval) (self : State) : M retval :=
    if lazy_eval then f self
    else
      logging Pushing_changes ;;;
      res <- f self ;;
      match res with
      | RetNone => ret res
      | RetState s => push api s ;;; ret res
      | RetStr _ => raise AttributeError
      end.

Definition second_to_last (p : path) : string :=
    match rev p with
    | _ :: x :: _ => x
    | _ => ""
    end.

Section Methods.
Variable self : State.

Let org : path := organization_dir self.

Definition _locate_rule (rule_id : string) : M (option path) :=
      names <- os_listdir org ;;
      (fix loop (l : list string) : M (option path) :=
         match l with
         | [] => ret None
         | ruleset :: l' =>
             rules <- os_listdir (org ++ [ruleset]) ;;
             if in_list rule_id rules then ret (Some (org ++ [ruleset; rule_id]))
             else loop l'
         end) names.

Definition _locate_ruleset (ruleset_id : string) : M (option path) :=
      names <- os_listdir org ;;
      if in_list ruleset_id names then ret (Some (org ++ [ruleset_id])) else ret None.

Definition rule_name_occurs (rule_name : string) : M bool :=
      names <- os_listdir org ;;
      any_of names (fun ruleset =>
        let ruleset_dir := org ++ [ruleset] in
        rules <- os_listdir ruleset_dir ;;
        any_of rules (fun rule =>
          if contains "ruleset.json" rule then ret false
          else
            rule_data <- read_rule_json (ruleset_dir ++ [rule]) ;;
            ret (String.eqb rule_name (r_name rule_data)))).

Definition ruleset_name_occurs (ruleset_name : string) : M bool :=
      names <- os_listdir org ;;
      any_of names (fun ruleset =>
        ruleset_data <- read_ruleset_json (org ++ [ruleset]) ;;
        ret (String.eqb ruleset_name (rs_name ruleset_data))).

Definition _create_ruleset (ruleset_data : ruleset_data) : M string :=
      names <- os_listdir org ;;
      ruleset_id_gen <- generate_id (_postfix self) names ;;
      os_mkdir org ruleset_id_gen ;;;
      write_json (org ++ [ruleset_id_gen]) "ruleset.json" (JRuleset ruleset_data) ;;;
      _ <- _state_add_ruleset self ruleset_id_gen rs_true None ;;
      ret ruleset_id_gen.

    (** [ruleset_id] as the name of an entry of the organization's
        directory ([plain]). *)
Definition _delete_ruleset (ruleset_id : string) : M unit :=
      b <- os_path_isdir (org ++ [ruleset_id]) ;;
      if negb b then logging (Not_found ruleset_id)
      else
        shutil_rmtree org ruleset_id ;;;
        _ <- _state_delete_ruleset self ruleset_id None ;;
        ret tt.

    (** [ruleset_id] as the name of an entry of the organization's
        directory ([plain]). *)
Definition _create_rule (ruleset_id : string) (rule_data : rule_data) (tags_data : tags_data)
      : M (option string) :=
      let ruleset_dir := org ++ [ruleset_id] in
      b <- os_path_isdir ruleset_dir ;;
      if negb b then logging (Not_found ruleset_id) ;;; ret None
      else
        names <- os_listdir ruleset_dir ;;
        rule_id_gen <- generate_id (_postfix self) names ;;
        let rule_dir := ruleset_dir ++ [rule_id_gen] in
        os_mkdir ruleset_dir rule_id_gen ;;;
        write_json rule_dir "rule.json" (JRule rule_data) ;;;
        write_json rule_dir "tags.json" (JTags tags_data) ;;;
        ruleset_data <- read_ruleset_json ruleset_dir ;;
        write_json ruleset_dir "ruleset.json"
          (JRuleset (mk_ruleset (rs_name ruleset_data) (rs_description ruleset_data)
                       (rs_ruleIds ruleset_data ++ [rule_id_gen]))) ;;;
        _ <- _state_add_rule self ruleset_id rule_id_gen st_both None ;;
        ret (Some rule_id_gen).

Definition _delete_rule (rule_id : string) : M bool :=
      located <- _locate_rule rule_id ;;
      match located with
      | None => logging (Not_found rule_id) ;;; ret false
      | Some rule_dir =>
          let ruleset_id := second_to_last rule_dir in
          let ruleset_dir := org ++ [ruleset_id] in
          shutil_rmtree ruleset_dir rule_id ;;;
          _ <- _state_delete_rule self ruleset_id rule_id None ;;
          ruleset_data <- read_ruleset_json ruleset_dir ;;
          match list_remove rule_id (rs_ruleIds ruleset_data) with
          | None => raise ValueError
          | Some ids =>
              write_json ruleset_dir "ruleset.json"
                (JRuleset (mk_ruleset (rs_name ruleset_data)
                             (rs_description ruleset_data) ids)) ;;;
              ret true
          end
      end.

    (** The bodies of the wrapped methods. *)

Definition create_ruleset_body (ruleset_data : pyobj ruleset_data)
        (name_postfix : option string) : M retval :=
      data <- data_of as_ruleset ruleset_data ;;
      d <- subscript data ;;
      names <- os_listdir org ;;
      name <- uniquify (length names) ruleset_name_occurs
                (postfix_or_copy name_postfix) (rs_name d) ;;
      id <- _create_ruleset (mk_ruleset name (rs_description d) (rs_ruleIds d)) ;;
      ret (RetStr id).

Definition tags_payload (tags : pyobj string) : M tags_data :=
      match tags with
      | PyDict body => ret (tags_dict body)
      | PyStr s => ret (tags_str s)
      | PyNone => ret tags_null
      | PyType_str => raise TypeError
      end.

    (** The number of rule directories that [rule_name_occurs] visits. *)
Definition count_rules : M nat :=
      d <- get_disk ;;
      match Fs.lookup org d with
      | Some (Dir kids) =>
          ret (fold_right
                 (fun kv n => match snd kv with
                              | Dir rules => (length rules + n)%nat
                              | File _ => n
                              end) O kids)
      | _ => ret O
      end.

Definition create_rule_body (ruleset_id : string) (rule_data : pyobj rule_data)
        (tags_data : pyobj string) (name_postfix : option string) : M retval :=
      data <- data_of as_rule rule_data ;;
      tags <- match tags_data with
              | PyNone => ret (PyDict "")
              | _ => data_of as_tags tags_data
              end ;;
      d <- subscript data ;;
      bound <- count_rules ;;
      name <- uniquify bound rule_name_occurs
                (postfix_or_copy name_postfix) (r_name d) ;;
      t <- tags_payload tags ;;
      created <- _create_rule ruleset_id (mk_rule name (rule_id_field d) (rule_body d)) t ;;
      match created with
      | Some id => ret (RetStr id)
      | None => ret RetNone
      end.

Definition create_tags_body (rule_id : string) (tags_data : tags_data) : M retval :=
      located <- _locate_rule rule_id ;;
      match located with
      | None => logging (Not_found rule_id) ;;; ret (RetState self)
      | Some rule_dir =>
          write_json rule_dir "tags.json" (JTags tags_data) ;;;
          _ <- _state_add_rule self (second_to_last rule_dir) rule_id st_tags None ;;
          ret (RetState self)
      end.

Definition copy_rule_body (rule_id ruleset_id : string) (postfix : option string)
      : M retval :=
      located <- _locate_rule rule_id ;;
      match located with
      | None => logging (Not_found rule_id) ;;; ret RetNone
      | Some rule_dir =>
          names <- os_listdir org ;;
          if negb (in_list ruleset_id names) then logging (Not_found ruleset_id) ;;; ret RetNone
          else
            rule_data <- read_rule_json rule_dir ;;
            tags_data <- read_tags_json rule_dir ;;
            bound <- count_rules ;;
            name <- uniquify bound rule_name_occurs (postfix_or_copy postfix)
                      (r_name rule_data) ;;
            _ <- _create_rule ruleset_id
                   (mk_rule name (rule_id_field rule_data) (rule_body rule_data)) tags_data ;;
            ret (RetState self)
      end.

Definition update_rule_body (rule_id : string) (rule_data : rule_data) : M retval :=
      located <- _locate_rule rule_id ;;
      match located with
      | None => logging (Not_found rule_id) ;;; ret RetNone
      | Some rule_dir =>
          write_json rule_dir "rule.json" (JRule rule_data) ;;;
          _ <- _state_add_rule self (second_to_last rule_dir) rule_id st_rule None ;;
          ret (RetState self)
      end.

Definition update_ruleset_body (ruleset_id : string) (ruleset_data : ruleset_data)
      : M retval :=
      located <- _locate_ruleset ruleset_id ;;
      match located with
      | None => logging (Not_found ruleset_id) ;;; ret RetNone
      | Some ruleset_dir =>
          write_json ruleset_dir "ruleset.json" (JRuleset ruleset_data) ;;;
          _ <- _state_add_ruleset self ruleset_id rs_true None ;;
          ret (RetState self)
      end.

Definition delete_rule_body (rule_id : string) : M retval :=
      _ <- _delete_rule rule_id ;;
      ret (RetState self).

Definition delete_ruleset_body (ruleset_id : string) : M retval :=
      _delete_ruleset ruleset_id ;;;
      ret (RetState self).

End Methods.

  (** The wrapped methods, as the rest of the program calls them. *)

Definition create_ruleset (self : State) (ruleset_data : pyobj ruleset_data)
      (name_postfix : option string) : M retval :=
    lazy (fun self => create_ruleset_body self ruleset_data name_postfix) self.

Definition create_rule (self : State) (ruleset_id : string) (rule_data : pyobj rule_data)
      (tags_data : pyobj string) (name_postfix : option string) : M retval :=
    lazy (fun self => create_rule_body self ruleset_id rule_data tags_data name_postfix) self.

Definition create_tags (self : State) (rule_id : string) (tags_data : tags_data) : M retval :=
    lazy (fun self => create_tags_body self rule_id tags_data) self.

Definition copy_rule (self : State) (rule_id ruleset_id : string) (postfix : option string)
    : M retval :=
    lazy (fun self => copy_rule_body self rule_id ruleset_id postfix) self.

Definition update_rule (self : State) (rule_id : string) (rule_data : rule_data) : M retval :=
    lazy (fun self => update_rule_body self rule_id rule_data) self.

Definition update_ruleset (self : State) (ruleset_id : string) (ruleset_data : ruleset_data)
    : M retval :=
    lazy (fun self => update_ruleset_body self ruleset_id ruleset_data) self.

Definition delete_rule_op (self : State) (rule_id : string) : M retval :=
    lazy (fun self => delete_rule_body self rule_id) self.

Definition delete_ruleset_op (self : State) (ruleset_id : string) : M retval :=
    lazy (fun self => delete_ruleset_body self ruleset_id) self.

  (** [State(state_dir, state_file, user_id, api_key, org_id=org_id)]:
      the setter of [org_id] creates the organization's directory and
      refreshes it when it is not there. *)
Definition new_State (org_id : string) : M State :=
    let s := mk_State org_id "-localonly" in
    b <- os_path_isdir [org_id] ;;
    (if negb b then os_mkdir [] org_id ;;; refresh api s else ret tt) ;;;
    ret s.

  (** A string result of a wrapped method, where the caller goes on to use
      it as an identifier. *)
Definition as_id (r : retval) : M string :=
    match r with
    | RetStr s => ret s
    | _ => raise TypeError
    end.

  (** The loop of [copy_ruleset] and [copy_ruleset_out] over the rules of
      the source ruleset, into ruleset [new_ruleset_id] of [dst]. *)
Definition copy_rules (dst : State) (ruleset_dir : path) (new_ruleset_id : string)
    : M (list string) :=
    names <- os_listdir ruleset_dir ;;
    for_fold names (fun rule_id new_rule_ids =>
      if String.eqb rule_id "ruleset.json" then ret new_rule_ids
      else
        let rule_dir := ruleset_dir ++ [rule_id] in
        rule_data <- read_rule_json rule_dir ;;
        tags_data <- read_tags_json rule_dir ;;
        r <- create_rule dst new_ruleset_id (PyDict rule_data) PyNone None ;;
        new_rule_id <- as_id r ;;
        _ <- create_tags dst new_rule_id tags_data ;;
        ret (new_rule_ids ++ [new_rule_id])) [].

Definition copy_into (self dst : State) (ruleset_id : string) (postfix : option string)
      (ruleset_dir : path) : M retval :=
    ruleset_data <- read_ruleset_json ruleset_dir ;;
    names <- os_listdir (organization_dir dst) ;;
    name <- uniquify (length names) (ruleset_name_occurs dst)
              (postfix_or_copy postfix) (rs_name ruleset_data) ;;
    r <- create_ruleset dst
           (PyDict (mk_ruleset name (rs_description ruleset_data) (rs_ruleIds ruleset_data)))
           postfix ;;
    new_ruleset_id <- as_id r ;;
    let new_ruleset_dir := organization_dir dst ++ [new_ruleset_id] in
    new_rule_ids <- copy_rules dst ruleset_dir new_ruleset_id ;;
    (match new_rule_ids with
     | [] => ret tt
     | _ =>
         new_ruleset_data <- read_ruleset_json new_ruleset_dir ;;
         write_json new_ruleset_dir "ruleset.json"
           (JRuleset (mk_ruleset (rs_name new_ruleset_data)
                        (rs_description new_ruleset_data) new_rule_ids))
     end) ;;;
    ret (RetState self).

Definition copy_ruleset (self : State) (ruleset_id : string) (postfix : option string)
    : M retval :=
    lazy (fun self =>
      located <- _locate_ruleset self ruleset_id ;;
      match located with
      | None => logging (Not_found ruleset_id) ;;; ret RetNone
      | Some ruleset_dir => copy_into self self ruleset_id postfix ruleset_dir
      end) self.

Definition copy_ruleset_out (self : State) (ruleset_id org_id : string)
      (postfix : option string) : M retval :=
    lazy (fun self =>
      located <- _locate_ruleset self ruleset_id ;;
      match located with
      | None => logging (Not_found ruleset_id) ;;; ret RetNone
      | Some ruleset_dir =>
          alt_org <- new_State org_id ;;
          copy_into self alt_org ruleset_id postfix ruleset_dir
      end) self.

Definition copy_rule_out (self : State) (rule_id ruleset_id org_id : string)
      (postfix : option string) : M retval :=
    lazy (fun self =>
      located <- _locate_rule self rule_id ;;
      match located with
      | None => logging (Not_found rule_id) ;;; ret (RetState self)
      | Some rule_dir =>
          alt_org <- new_State org_id ;;
          names <- os_listdir (organization_dir alt_org) ;;
          if negb (in_list ruleset_id names) then logging (Not_found ruleset_id) ;;; ret RetNone
          else
            rule_data <- read_rule_json rule_dir ;;
            tags_data <- read_tags_json rule_dir ;;
            bound <- count_rules alt_org ;;
            name <- uniquify bound (rule_name_occurs alt_org) (postfix_or_copy postfix)
                      (r_name rule_data) ;;
            tags <- match tags_data with
                    | tags_dict body => ret (PyDict body)
                    | tags_str s => ret (PyStr s)
                    | tags_null => ret (PyDict "")
                    end ;;
            _ <- create_rule alt_org ruleset_id
                   (PyDict (mk_rule name (rule_id_field rule_data) (rule_body rule_data)))
                   tags None ;;
            ret (RetState self)
      end) self.

End Engine.

(** ** Vocabulary of the properties *)

(** The join of the lattice of rule statuses as the specification words
    it: [both] is the join of [rule] and [tags], [del] absorbs. *)
Definition status_join (a b : RuleStatus) : RuleStatus :=
  match a, b with
  | st_del, _ | _, st_del => st_del
  | st_rule, st_rule => st_rule
  | st_tags, st_tags => st_tags
  | _, _ => st_both
  end.

Definition status_le (a b : RuleStatus) : Prop := status_join a b = b.

(** What the state file tracks for a ruleset and for a rule. *)
Definition tracked_ruleset (org ruleset_id : string) (st : state_doc) : option ruleset_entry :=
  match Dict.get org (organizations st) with
  | Some m => Dict.get ruleset_id m
  | None => None
  end.

Definition tracked_rule (org ruleset_id rule_id : string) (st : state_doc) : option RuleStatus :=
  match tracked_ruleset org ruleset_id st with
  | Some e => Dict.get rule_id (ruleIds e)
  | None => None
  end.

(** The world [w] with another state file. *)
Definition with_statefile (w : world) (st : state_doc) : world :=
  mk_world (disk w) (Some st) (uuids w) (trace w).

(** A ruleset entry with nothing left to do. *)
Definition idle (e : ruleset_entry) : bool :=
  Dict.is_empty (ruleIds e) && RulesetStatus_eqb (modified e) rs_false.

(** The pruning invariant of the state file: no organization without
    rulesets, no ruleset without work. *)
Definition pruned (st : state_doc) : bool :=
  forallb (fun o => negb (Dict.is_empty (snd o))
                    && forallb (fun r => negb (idle (snd r))) (snd o))
    (organizations st).

(** Every rule that the state file tracks for [self] with a status other
    than [del] has its directory on disk. *)
Definition entries_on_disk (self : State) (w : world) : bool :=
  match statefile w with
  | None => true
  | Some st =>
      match Dict.get (org_id self) (organizations st) with
      | None => true
      | Some m =>
          forallb (fun r =>
            forallb (fun s =>
              RuleStatus_eqb (snd s) st_del
              || Fs.is_dir (Fs.lookup (organization_dir self ++ [fst r; fst s]) (disk w)))
              (ruleIds (snd r))) m
      end
  end.

(** The calls that change the platform. *)
Definition is_write (ev : event) : bool :=
  match ev with
  | Api (post_ruleset _) _ | Api (put_ruleset _ _) _ | Api (delete_ruleset _) _
  | Api (post_rule _ _) _ | Api (put_rule _ _ _) _ | Api (delete_rule _ _) _
  | Api (post_tags _ _) _ => true
  | _ => false
  end.

(** A call that came back without raising and without an ['errors'] key. *)
Definition succeeded (ev : event) : bool :=
  match ev with
  | Api _ (Raises _) | Api _ Errors => false
  | _ => true
  end.

(** What happened between [w] and a later world [w']. *)
Definition events_since (w w' : world) : list event :=
  skipn (length (trace w)) (trace w').

(** ** Sample worlds *)

Definition sample_self : State := mk_State "org" "-localonly".

Definition sample_rule : rule_data := mk_rule "a" None "Host".

(** A rule directory with both documents. *)
Definition sample_rule_dir : node :=
  Dir [("rule.json", File (JRule sample_rule)); ("tags.json", File (JTags (tags_dict "")))].

(** The state file after [create_rule] under the remote ruleset [rs1]. *)
Definition sample_state : state_doc :=
  mk_state "org" [("org", [("rs1", mk_entry rs_false [("u-localonly", st_both)])])].

Definition sample_disk : node :=
  Dir [("org",
        Dir [("rs1",
              Dir [("ruleset.json", File (JRuleset (mk_ruleset "first" "" ["u-localonly"])));
                   ("u-localonly", sample_rule_dir)])])].

Definition sample_world : world := mk_world sample_disk (Some sample_state) [] [].

(** A state file that tracks nothing. *)
Definition blank_state : state_doc := mk_state "org" [].

(** A ruleset created locally, with one rule created under it. *)
Definition local_state : state_doc :=
  mk_state "org" [("org", [("x-localonly", mk_entry rs_true [("u-localonly", st_both)])])].

Definition local_disk : node :=
  Dir [("org",
        Dir [("x-localonly",
              Dir [("ruleset.json", File (JRuleset (mk_ruleset "mine" "" ["u-localonly"])));
                   ("u-localonly", sample_rule_dir)])])].

Definition local_world : world := mk_world local_disk (Some local_state) [] [].

(** A platform that accepts everything and names what it creates. *)
Definition api_accepts (history : list event) (c : call) : response :=
  match c with
  | post_ruleset _ => WithId "RS9"
  | post_rule _ _ => WithId "R1"
  | _ => NoContent
  end.

(** The same platform, except that posting tags fails. *)
Definition api_rejects_tags (history : list event) (c : call) : response :=
  match c with
  | post_tags _ _ => Raises URLError
  | _ => api_accepts history c
  end.

(** A platform whose list of rulesets is a document of errors. *)
Definition api_errors (history : list event) (c : call) : response :=
  match c with
  | get_rulesets => Errors
  | _ => NoContent
  end.

(** A platform with one ruleset and one rule, where fetching the tags of
    the rule fails. *)
Definition api_breaks (history : list event) (c : call) : response :=
  match c with
  | get_rulesets => Rulesets [mk_remote_ruleset "A" "then" "now" (mk_ruleset "A" "" ["a1"])]
  | get_ruleset_rules _ => Rules [mk_rule "ra" (Some "a1") ""]
  | get_rule_tags _ => Raises URLError
  | _ => NoContent
  end.

(** The same platform when it answers in full. *)
Definition api_serves (history : list event) (c : call) : response :=
  match c with
  | get_rule_tags _ => Tags (tags_dict "any")
  | _ => api_breaks history c
  end.

(** No JSON file outside the state directory. *)
Definition no_files (name : string) : option content := None.

(** An organization without rulesets, a state file that tracks nothing,
    and one identifier to come from [uuid4]. *)
Definition empty_world : world :=
  mk_world (Dir [("org", Dir [])]) (Some blank_state) ["u1"] [].

Definition has_call (ev : event) : bool :=
  match ev with
  | Api _ _ => true
  | Log _ => false
  end.

(** The world [w] with another disk. *)
Definition with_disk (w : world) (d : node) : world :=
  mk_world d (statefile w) (uuids w) (trace w).

(** The names of the two staging directories of [refresh]. *)
Definition staging (name : string) : bool :=
  String.eqb name ".backup" || String.eqb name ".remote".

(** A relation between the world before and the world after holds for
    every run of a computation, however it ends. *)
Definition keeps (R : world -> world -> Prop) {A} (m : M A) : Prop :=
  forall w, R w (final_world (m w)).

(** The relation [R] allows every rewriting of the directory [dir]. *)
Definition allows (R : world -> world -> Prop) (dir : path) : Prop :=
  forall f w d', Fs.modify dir f (disk w) = Some d' -> R w (with_disk w d').

(** The state file is the same. *)
Definition same_statefile (w w' : world) : Prop := statefile w' = statefile w.

(** What the fetching of [refresh] may change in the directory [o] of an
    organization: the inside of [.remote/], where no name comes twice. *)
Definition under_remote (o : string) (w w' : world) : Prop :=
  statefile w' = statefile w /\
  forall kids r,
    Fs.lookup [o] (disk w) = Some (Dir kids) ->
    Dict.get ".remote" kids = Some (Dir r) ->
    NoDup (Dict.keys r) ->
    exists kids' r',
      Fs.lookup [o] (disk w') = Some (Dir kids') /\
      Dict.get ".remote" kids' = Some (Dir r') /\
      NoDup (Dict.keys r') /\
      forall k, k <> ".remote" -> Dict.get k kids' = Dict.get k kids.

(** A primitive of the state file turns the document [st] into [st']:
    handed [st], it hands [st'] back and writes nothing; with the state
    file holding [st], it commits [st'] and touches nothing else. *)
Definition commits (f : option state_doc -> M (option state_doc)) (st st' : state_doc) : Prop :=
  (forall w, f (Some st) w = Ok (Some st') w) /\
  (forall w, statefile w = Some st -> f None w = Ok None (with_statefile w st')).

(** A primitive of the state file raises [e] on the document [st], in
    both modes, and leaves the world as it was. *)
Definition rejects (f : option state_doc -> M (option state_doc)) (st : state_doc) (e : exn)
  : Prop :=
  (forall w, f (Some st) w = Exc e w) /\
  (forall w, statefile w = Some st -> f None w = Exc e w).

(** The directories of the other organizations are as they were, as long
    as the directory of organization [o] is there. *)
Definition beside_org (o : string) (w w' : world) : Prop :=
  Fs.is_dir (Fs.lookup [o] (disk w)) = true ->
  Fs.is_dir (Fs.lookup [o] (disk w')) = true /\
  forall o' q, o' <> o -> Fs.lookup (o' :: q) (disk w') = Fs.lookup (o' :: q) (disk w).

(** The trace grew by events that all satisfy [P]. *)
Definition appended (P : event -> Prop) (w w' : world) : Prop :=
  exists evs, trace w' = trace w ++ evs /\ Forall P evs.

(** An event that is no call, or a call that only reads the platform. *)
Definition reads_only (ev : event) : Prop :=
  match ev with
  | Log _ => True
  | Api get_rulesets _ | Api (get_ruleset_rules _) _ | Api (get_rule_tags _) _ => True
  | Api _ _ => False
  end.

(** An event that is no call, or a call that changes the platform. *)
Definition writes_only (ev : event) : Prop :=
  match ev with
  | Log _ => True
  | Api _ _ => is_write ev = true
  end.

(** The directories of the organizations other than [o] are as they were. *)
Definition other_orgs (o : string) (w w' : world) : Prop :=
  forall o' q, o' <> o -> Fs.lookup (o' :: q) (disk w') = Fs.lookup (o' :: q) (disk w).



Definition broken_world : world :=
  Eval vm_compute in
    final_world ((refresh_stage sample_self ;;; refresh_fetch api_breaks sample_self)%py
                   sample_world).

(** An event that is no call of the platform. *)
Definition offline (ev : event) : Prop := has_call ev = false.

(** Every result of the computation satisfies [Q]. *)
Definition returns {A} (Q : A -> Prop) (m : M A) : Prop :=
  forall w a w', m w = Ok a w' -> Q a.

(** A result on which the decorator pushes nothing but [self]. *)
Definition ret_self (self : State) (r : retval) : Prop :=
  match r with
  | RetState s => s = self
  | _ => True
  end.

(** What [_locate_rule] hands back: nothing, or the directory of the rule
    under a ruleset of the organization. *)
Definition rule_path (self : State) (rule_id : string) (located : option path) : Prop :=
  match located with
  | Some p => exists ruleset, p = [org_id self; ruleset; rule_id]
  | None => True
  end.

(** The name after [k] rounds of [name += postfix]. *)
Fixpoint lengthen (k : nat) (postfix name : string) : string :=
  match k with
  | O => name
  | S k' => lengthen k' postfix (String.append name postfix)
  end.

(** The names that the rulesets among the entries [kids] of an
    organization's directory bear, one for each entry at most. *)
Definition ruleset_names (kids : list (string * node)) : list string :=
  flat_map (fun ruleset =>
    match Dict.get ruleset kids with
    | Some (Dir entries) =>
        match Dict.get "ruleset.json" entries with
        | Some (File (JRuleset d)) => [rs_name d]
        | _ => []
        end
    | _ => []
    end) (Dict.keys kids).

(** The world is as it was, however the computation ended. *)
Definition unchanged (w w' : world) : Prop := w' = w.

(** The number of rounds that [create_rule] allows itself on the entries
    [kids] of an organization's directory: the entries of its rulesets. *)
Definition rule_count (kids : list (string * node)) : nat :=
  fold_right (fun kv n => match snd kv with
                          | Dir rules => (length rules + n)%nat
                          | File _ => n
                          end) O kids.

(** The names that the rules under the entries [kids] bear. *)
Definition rule_names (kids : list (string * node)) : list string :=
  flat_map (fun ruleset =>
    match Dict.get ruleset kids with
    | Some (Dir rules) =>
        flat_map (fun rule =>
          if contains "ruleset.json" rule then []
          else match Dict.get rule rules with
               | Some (Dir entries) =>
                   match Dict.get "rule.json" entries with
                   | Some (File (JRule d)) => [r_name d]
                   | _ => []
                   end
               | _ => []
               end) (Dict.keys rules)
    | _ => []
    end) (Dict.keys kids).

(** The world [w] after one more record of the log. *)
Definition logged (w : world) (m : message) : world :=
  mk_world (disk w) (statefile w) (uuids w) (trace w ++ [Log m]).

(** ** The listings of the API and the commands of [tsctl] *)

Section Listing.
Variable self : State.

Let org : path := organization_dir self.


(** [get_tags]. *)
Definition get_tags (rule_id : string) : M (option tags_data) :=
  located <- _locate_rule self rule_id ;;
  match located with
  | None => logging (Not_found rule_id) ;;; ret None
  | Some rule_dir =>
      tags_data <- read_tags_json rule_dir ;;
      ret (Some tags_data)
  end.

End Listing.

Section Commands.
Variable api : list event -> call -> response.

(** [tsctl.workspace]: the state file gets the new workspace, then the
    [State] of the organization is made. *)
Definition tsctl_workspace (org_id : string) : M State :=
  state <- read_state ;;
  write_state (mk_state org_id (organizations state)) ;;;
  new_State api org_id.

(** [tsctl.plan] with [show=False]. *)
Definition tsctl_plan : M state_doc := read_state.

End Commands.

(** The entries of the sample organization's directory. *)
Definition sample_kids : list (string * node) :=
  Eval vm_compute in
    match Fs.lookup ["org"] sample_disk with
    | Some (Dir kids) => kids
    | _ => []
    end.

(** ** Identifiers as names of entries *)

(** A name that one entry of a directory can bear. *)
Definition plain (s : string) : bool :=
  negb (String.eqb s "") && negb (String.eqb s ".") && negb (String.eqb s "..")
  && negb (contains "/" s).

(** The identifiers in an answer of the platform are such names. *)
Definition plain_response (r : response) : Prop :=
  match r with
  | WithId id => plain id = true
  | Rulesets l => Forall (fun ruleset => plain (rr_id ruleset) = true) l
  | Rules l =>
      Forall (fun rule => match rule_id_field rule with
                          | Some id => plain id = true
                          | None => True
                          end) l
  | _ => True
  end.

Definition plain_api (api : list event -> call -> response) : Prop :=
  forall history c, plain_response (api history c).



(** The identifiers that [uuid4] has in store, with the postfix. *)
Definition plain_supply (postfix : string) (w : world) : Prop :=
  Forall (fun u => plain (String.append u postfix) = true) (uuids w).

(** What [create_rule] hands to [_create_rule] as tags, for an argument
    other than the type object. *)
Definition tags_argument (tags : pyobj string) : tags_data :=
  match tags with
  | PyDict body => tags_dict body
  | PyStr s => tags_str s
  | _ => tags_dict ""
  end.

(** A file system in which every name is a JSON file of tags. *)
Definition tags_files (name : string) : option content :=
  Some (JTags (tags_dict "from the file")).

(** * Properties *)

(** ** The state-file primitives *)

Lemma RuleStatus_eqb_eq (a b : RuleStatus) : RuleStatus_eqb a b = true <-> a = b.
Proof. destruct a, b; simpl; split; congruence. Qed.

Lemma RulesetStatus_eqb_eq (a b : RulesetStatus) : RulesetStatus_eqb a b = true <-> a = b.
Proof. destruct a, b; simpl; split; congruence. Qed.

Lemma add_rule_status_join (endpoint s : RuleStatus) :
  endpoint <> st_del -> s <> st_del ->
  add_rule_status endpoint s = Some (status_join s endpoint).
Proof. destruct endpoint, s; intros; try congruence; reflexivity. Qed.

Lemma add_rule_status_del (endpoint : RuleStatus) :
  endpoint <> st_del -> add_rule_status endpoint st_del = None.
Proof. destruct endpoint; intros; try congruence; reflexivity. Qed.

Lemma status_join_upper (a b : RuleStatus) :
  status_le a (status_join a b) /\ status_le b (status_join a b).
Proof. destruct a, b; split; reflexivity. Qed.

Module DictFacts.

Section Facts.
Context {V : Type}.
Implicit Types (d : Dict.t V) (k : string) (v : V).

Lemma get_set_same k v d : Dict.get k (Dict.set k v d) = Some v.
Proof.
      induction d as [|[k' v'] d IH]; simpl.
      - now rewrite String.eqb_refl.
      - destruct (String.eqb k k') eqn:E; simpl.
        + now rewrite String.eqb_refl.
        + now rewrite E.
Qed.

Lemma get_set_other k k' v d : k' <> k -> Dict.get k' (Dict.set k v d) = Dict.get k' d.
Proof.
      intros N. induction d as [|[k0 v0] d IH]; simpl.
      - destruct (String.eqb k' k) eqn:E; [apply String.eqb_eq in E; congruence | reflexivity].
      - destruct (String.eqb k k0) eqn:E; simpl.
        + apply String.eqb_eq in E. subst k0.
          destruct (String.eqb k' k) eqn:E'; [apply String.eqb_eq in E'; congruence | reflexivity].
        + destruct (String.eqb k' k0); [reflexivity | exact IH].
Qed.

Lemma get_pop_same k d : Dict.get k (Dict.pop k d) = None.
Proof.
      induction d as [|[k' v'] d IH]; simpl; [reflexivity|].
      destruct (String.eqb k k') eqn:E; simpl; [exact IH | now rewrite E].
Qed.

Lemma get_pop_other k k' d : k' <> k -> Dict.get k' (Dict.pop k d) = Dict.get k' d.
Proof.
      intros N. induction d as [|[k0 v0] d IH]; simpl; [reflexivity|].
      destruct (String.eqb k k0) eqn:E; simpl.
      - apply String.eqb_eq in E. subst k0.
        destruct (String.eqb k' k) eqn:E'; [apply String.eqb_eq in E'; congruence | exact IH].
      - destruct (String.eqb k' k0); [reflexivity | exact IH].
Qed.

Lemma get_in_keys k d : Dict.get k d <> None <-> In k (Dict.keys d).
Proof.
      induction d as [|[k' v'] d IH]; simpl.
      - split; [congruence | tauto].
      - destruct (String.eqb k k') eqn:E.
        + apply String.eqb_eq in E. subst. split; [auto | congruence].
        + apply String.eqb_neq in E. rewrite IH. split; [auto | intros [H|H]; [simpl in H; congruence | assumption]].
Qed.

Lemma all_none_empty d : (forall k, Dict.get k d = None) -> d = [].
Proof.
      destruct d as [|[k v] d]; [reflexivity|]. intros H.
      specialize (H k). simpl in H. rewrite String.eqb_refl in H. discriminate.
Qed.

Lemma mem_get k d : Dict.mem k d = true <-> Dict.get k d <> None.
Proof. unfold Dict.mem. destruct (Dict.get k d); split; congruence. Qed.


End Facts.

End DictFacts.
Import DictFacts.

Section PrimitiveFacts.
Variable self : State.

  (** The nesting of calls in [_state_add_rule] never reaches the limit. *)
Lemma state_add_rule_body_tracked depth rs r endpoint st m e :
    Dict.get (org_id self) (organizations st) = Some m ->
    Dict.get rs m = Some e ->
    state_add_rule_body self (S depth) rs r endpoint st =
    match Dict.get r (ruleIds e) with
    | Some s =>
        match add_rule_status endpoint s with
        | None => Raise ValueError
        | Some s' =>
            Done (set_org (org_id self)
                    (Dict.set rs (mk_entry (modified e) (Dict.set r s' (ruleIds e))) m) st)
        end
    | None =>
        Done (set_org (org_id self)
                (Dict.set rs (mk_entry (modified e) (Dict.set r endpoint (ruleIds e))) m) st)
    end.
Proof. intros Hm He. simpl. now rewrite Hm, He. Qed.

Lemma tracked_set_org rs m e st :
    Dict.get rs m = Some e ->
    tracked_ruleset (org_id self) rs (set_org (org_id self) m st) = Some e.
Proof.
    intros H. unfold tracked_ruleset, set_org. simpl. now rewrite get_set_same.
Qed.

  (** On a ruleset that is not tracked, two nested calls do. *)
Lemma state_add_rule_body_untracked depth rs r endpoint st :
    tracked_ruleset (org_id self) rs st = None ->
    exists st',
      state_add_rule_body self (S (S depth)) rs r endpoint st = Done st' /\
      tracked_ruleset (org_id self) rs st' = Some (mk_entry rs_false [(r, endpoint)]).
Proof.
    intros Hnone. unfold tracked_ruleset in Hnone.
    destruct (Dict.get (org_id self) (organizations st)) as [m|] eqn:Hm.
    - eexists. split.
      + cbn [state_add_rule_body]. rewrite Hm, Hnone.
        unfold state_add_ruleset_body. rewrite Hm, Hnone.
        unfold set_org at 1 2 3. cbn [organizations].
        rewrite !get_set_same. cbn [ruleIds Dict.get modified]. reflexivity.
      + erewrite tracked_set_org; [reflexivity|]. apply get_set_same.
    - eexists. split.
      + cbn [state_add_rule_body]. rewrite Hm.
        unfold state_add_organization_body, Dict.mem. rewrite Hm. cbn [negb].
        unfold state_add_ruleset_body, set_org. cbn [organizations].
        rewrite !get_set_same. cbn [Dict.get Dict.set organizations ruleIds modified].
        rewrite !get_set_same. cbn [Dict.get ruleIds modified].
        rewrite !String.eqb_refl. cbn [Dict.get ruleIds modified]. reflexivity.
      + cbn [workspace]. unfold tracked_ruleset. cbn [organizations].
        rewrite get_set_same. cbn [Dict.set]. rewrite String.eqb_refl.
        cbn [Dict.get]. rewrite String.eqb_refl. reflexivity.
Qed.

End PrimitiveFacts.

Section PrimitiveClaims.
Variable self : State.

Lemma tracked_rule_set_org rs r m e st :
    Dict.get rs m = Some e ->
    tracked_rule (org_id self) rs r (set_org (org_id self) m st) = Dict.get r (ruleIds e).
Proof.
    intros H. unfold tracked_rule. now rewrite (tracked_set_org self rs m e st H).
Qed.

Lemma with_state_commit body st st' w :
    statefile w = Some st ->
    body st = Done st' ->
    with_state None body w = Ok None (with_statefile w st').
Proof.
    intros Hw Hb. unfold with_state, bind, read_state, lift, write_state, ret, with_statefile.
    rewrite Hw, Hb. reflexivity.
Qed.

Lemma with_state_raise body st e w :
    statefile w = Some st ->
    body st = Raise e ->
    with_state None body w = Exc e w.
Proof.
    intros Hw Hb. unfold with_state, bind, read_state, lift, raise.
    rewrite Hw, Hb. reflexivity.
Qed.

  (** C5: [_state_add_rule] with an endpoint among [rule], [tags] and
      [both] replaces the status of a tracked rule that is not [del] by
      the join of that status and the endpoint, which is above both, and
      leaves the other rules of the ruleset alone; on a rule whose status
      is [del] it raises [ValueError] and writes nothing; and when the
      ruleset is not tracked yet, the entry it creates has
      [modified = false] and the rule alone, with the endpoint. *)
Theorem state_add_rule_joins (w : world) (st : state_doc) (rs r : string)
      (endpoint : RuleStatus) :
    statefile w = Some st ->
    endpoint <> st_del ->
    (forall s, tracked_rule (org_id self) rs r st = Some s -> s <> st_del ->
       exists st',
         _state_add_rule self rs r endpoint None w = Ok None (with_statefile w st') /\
         tracked_rule (org_id self) rs r st' = Some (status_join s endpoint) /\
         status_le s (status_join s endpoint) /\
         status_le endpoint (status_join s endpoint) /\
         (forall r', r' <> r ->
            tracked_rule (org_id self) rs r' st' = tracked_rule (org_id self) rs r' st)) /\
    (tracked_rule (org_id self) rs r st = Some st_del ->
       _state_add_rule self rs r endpoint None w = Exc ValueError w) /\
    (tracked_ruleset (org_id self) rs st = None ->
       exists st',
         _state_add_rule self rs r endpoint None w = Ok None (with_statefile w st') /\
         tracked_ruleset (org_id self) rs st' = Some (mk_entry rs_false [(r, endpoint)])).
Proof.
    intros Hw Hend. unfold _state_add_rule, recursion_limit.
    change 1000 with (S (S 998)).
    repeat split.
    - intros s Hs Hnd. unfold tracked_rule, tracked_ruleset in Hs.
      destruct (Dict.get (org_id self) (organizations st)) as [m|] eqn:Hm; [|discriminate].
      destruct (Dict.get rs m) as [e|] eqn:He; [|discriminate].
      eexists. split; [|split; [|split; [|split]]].
      + eapply with_state_commit; [exact Hw|].
        rewrite (state_add_rule_body_tracked self _ rs r endpoint st m e Hm He), Hs.
        rewrite (add_rule_status_join endpoint s Hend Hnd). reflexivity.
      + rewrite (tracked_rule_set_org rs r _ _ st (get_set_same rs _ m)). simpl.
        apply get_set_same.
      + apply status_join_upper.
      + apply status_join_upper.
      + intros r' Hr'.
        rewrite (tracked_rule_set_org rs r' _ _ st (get_set_same rs _ m)). simpl.
        unfold tracked_rule, tracked_ruleset. rewrite Hm, He.
        now apply get_set_other.
    - intros Hs. unfold tracked_rule, tracked_ruleset in Hs.
      destruct (Dict.get (org_id self) (organizations st)) as [m|] eqn:Hm; [|discriminate].
      destruct (Dict.get rs m) as [e|] eqn:He; [|discriminate].
      eapply with_state_raise; [exact Hw|].
      rewrite (state_add_rule_body_tracked self _ rs r endpoint st m e Hm He), Hs.
      now rewrite (add_rule_status_del endpoint Hend).
    - intros Hnone.
      destruct (state_add_rule_body_untracked self 998 rs r endpoint st Hnone) as [st' [Hb Ht]].
      exists st'. split; [|exact Ht].
      eapply with_state_commit; [exact Hw | exact Hb].
Qed.

  (** C6: [_state_add_ruleset] with an action other than [del] on a
      ruleset that the state file tracks with [modified = del] raises
      [ValueError], whether it was to commit or to hand the document back,
      and the state file is as it was. *)
Theorem state_add_ruleset_rejects_deleted (w : world) (st : state_doc) (rs : string)
      (e : ruleset_entry) (action : RulesetStatus) :
    statefile w = Some st ->
    tracked_ruleset (org_id self) rs st = Some e ->
    modified e = rs_del ->
    action <> rs_del ->
    _state_add_ruleset self rs action None w = Exc ValueError w /\
    _state_add_ruleset self rs action (Some st) w = Exc ValueError w /\
    statefile (final_world (_state_add_ruleset self rs action None w)) = Some st.
Proof.
    intros Hw He Hdel Hact. unfold tracked_ruleset in He.
    destruct (Dict.get (org_id self) (organizations st)) as [m|] eqn:Hm; [|discriminate].
    assert (Hbody : state_add_ruleset_body self rs action st = Raise ValueError).
    { unfold state_add_ruleset_body. rewrite Hm, He, Hdel.
      destruct action; try congruence; reflexivity. }
    assert (H1 : _state_add_ruleset self rs action None w = Exc ValueError w).
    { unfold _state_add_ruleset. eapply with_state_raise; eassumption. }
    split; [exact H1|]. split.
    - unfold _state_add_ruleset, with_state, bind, lift. rewrite Hbody. reflexivity.
    - rewrite H1. exact Hw.
Qed.

End PrimitiveClaims.

(** Witnesses of C5 and C6 on the sample state file. *)
Lemma state_add_rule_joins_witness :
  statefile sample_world = Some sample_state /\
  st_tags <> st_del /\
  (exists st',
     _state_add_rule sample_self "rs1" "u-localonly" st_tags None sample_world
       = Ok None (with_statefile sample_world st') /\
     tracked_rule "org" "rs1" "u-localonly" st' = Some st_both).
Proof.
  assert (H1 : statefile sample_world = Some sample_state) by reflexivity.
  assert (H2 : st_tags <> st_del) by discriminate.
  split; [exact H1|]. split; [exact H2|].
  destruct (state_add_rule_joins sample_self sample_world sample_state
              "rs1" "u-localonly" st_tags H1 H2) as [Hjoin _].
  destruct (Hjoin st_both eq_refl ltac:(discriminate)) as [st' [Hrun [Hst _]]].
  exists st'. split; [exact Hrun | exact Hst].
Defined.

Lemma state_add_ruleset_rejects_deleted_witness :
  let st := mk_state "org" [("org", [("rs1", mk_entry rs_del [])])] in
  let w := mk_world (Dir []) (Some st) [] [] in
  _state_add_ruleset sample_self "rs1" rs_true None w = Exc ValueError w.
Proof.
  intros st w.
  apply (state_add_ruleset_rejects_deleted sample_self w st "rs1" (mk_entry rs_del []) rs_true).
  - reflexivity.
  - reflexivity.
  - reflexivity.
  - discriminate.
Defined.

(** C7: the state file is not pruned on every write.  [_state_delete_rule]
    on the only pending rule of a ruleset, a local-only one, commits a
    document in which the ruleset stays with no rule and
    [modified = false]; [_state_add_organization] on a state file that
    tracks nothing commits an organization without rulesets.  The
    documents before were pruned. *)
Theorem state_delete_rule_keeps_idle_ruleset :
  pruned sample_state = true /\
  (exists st',
     _state_delete_rule sample_self "rs1" "u-localonly" None sample_world
       = Ok None (with_statefile sample_world st') /\
     tracked_ruleset "org" "rs1" st' = Some (mk_entry rs_false []) /\
     pruned st' = false) /\
  pruned blank_state = true /\
  (exists st',
     _state_add_organization sample_self None (mk_world (Dir []) (Some blank_state) [] [])
       = Ok None (mk_world (Dir []) (Some st') [] []) /\
     Dict.get "org" (organizations st') = Some [] /\
     pruned st' = false).
Proof.
  split; [reflexivity|]. split; [|split; [reflexivity|]].
  - eexists. split; [reflexivity|]. split; reflexivity.
  - eexists. split; [reflexivity|]. split; reflexivity.
Qed.

(** ** The decorator and the arguments of the wrapped methods *)

Section DecoratorFacts.
Variable api : list event -> call -> response.

  (** In lazy mode the decorator is the method itself. *)
Lemma lazy_when_lazy (f : State -> M retval) (self : State) :
    lazy api true f self = f self.
Proof. reflexivity. Qed.

  (** In eager mode a method that returns a [State] is followed by the
      [push] of that instance, and a method that returns [None] is not. *)
Lemma lazy_when_eager (f : State -> M retval) (self : State) (w : world) :
    lazy api false f self w =
    match f self (final_world (logging Pushing_changes w)) with
    | Ok RetNone w1 => Ok RetNone w1
    | Ok (RetState s) w1 =>
        match push api s w1 with
        | Ok _ w2 => Ok (RetState s) w2
        | Exc e w2 => Exc e w2
        end
    | Ok (RetStr _) w1 => Exc AttributeError w1
    | Exc e w1 => Exc e w1
    end.
Proof.
    unfold lazy, bind, logging, emit. simpl.
    destruct (f self _) as [[| |s] w1|e w1]; try reflexivity.
Qed.

End DecoratorFacts.

(** C9: in eager mode [create_ruleset] does not push.  The method returns
    the new identifier, a string, and the decorator calls [push] on what
    the method returned: the ruleset is created on disk and tracked in the
    state file, no call reaches the platform, and [AttributeError] is
    raised.  A method that returns its instance is followed by the
    [push] ([lazy_when_eager]); in lazy mode the same call returns the
    identifier and pushes nothing. *)
Theorem eager_create_ruleset_raises :
  let d := mk_ruleset "mine" "" [] in
  (exists w',
     create_ruleset api_accepts false no_files sample_self (PyDict d) None empty_world
       = Exc AttributeError w' /\
     Fs.lookup ["org"; "u1-localonly"; "ruleset.json"] (disk w') = Some (File (JRuleset d)) /\
     option_map (tracked_ruleset "org" "u1-localonly") (statefile w')
       = Some (Some (mk_entry rs_true [])) /\
     existsb has_call (trace w') = false) /\
  (exists w',
     create_ruleset api_accepts true no_files sample_self (PyDict d) None empty_world
       = Ok (RetStr "u1-localonly") w' /\
     existsb has_call (trace w') = false).
Proof.
  split; eexists; (split; [vm_compute; reflexivity|]); repeat split; reflexivity.
Qed.


(** ** Evaluations of the reconcilers *)

(** C8: after a [push] in which the POST of a new rule succeeded and the
    POST of its tags failed, the state file tracks the rule under its
    local-only identifier with status [tags], while its directory now
    bears the identifier that the platform assigned.  Under a ruleset
    created in the same [push] the entry is written to the state file;
    under a ruleset that exists remotely the same [push] goes on to read
    the directory that is gone and raises [FileNotFoundError].  Before
    the [push] every tracked rule had its directory. *)
Theorem push_tracks_renamed_rule :
  entries_on_disk sample_self local_world = true /\
  (exists w',
     push api_rejects_tags sample_self local_world = Ok tt w' /\
     option_map (tracked_rule "org" "RS9" "u-localonly") (statefile w')
       = Some (Some st_tags) /\
     Fs.lookup ["org"; "RS9"; "u-localonly"] (disk w') = None /\
     Fs.is_dir (Fs.lookup ["org"; "RS9"; "R1"] (disk w')) = true /\
     entries_on_disk sample_self w' = false) /\
  entries_on_disk sample_self sample_world = true /\
  (exists w',
     push api_rejects_tags sample_self sample_world = Exc FileNotFoundError w' /\
     statefile w' = Some sample_state /\
     Fs.lookup ["org"; "rs1"; "u-localonly"] (disk w') = None /\
     Fs.is_dir (Fs.lookup ["org"; "rs1"; "R1"] (disk w')) = true /\
     entries_on_disk sample_self w' = false).
Proof.
  split; [reflexivity|]. split; [|split; [reflexivity|]].
  - eexists. split; [vm_compute; reflexivity|]. repeat split; reflexivity.
  - eexists. split; [vm_compute; reflexivity|]. repeat split; reflexivity.
Qed.

(** C2: [refresh] does not restore the mirror when the list of rulesets
    comes back as a document of errors: the [try] is left through
    [return], so the organization's directory keeps [.backup/], with the
    mirror in it, and [.remote/], and nothing else.  When the fetch raises
    [URLError], on the same world, the [except] clause restores the
    mirror and removes both staging directories.  The state file is the
    same in both runs. *)
Theorem refresh_returns_without_restoring :
  (exists w',
     refresh api_errors sample_self sample_world = Ok tt w' /\
     Fs.is_dir (Fs.lookup ["org"; ".backup"] (disk w')) = true /\
     Fs.is_dir (Fs.lookup ["org"; ".remote"] (disk w')) = true /\
     Fs.lookup ["org"; "rs1"] (disk w') = None /\
     Fs.lookup ["org"; ".backup"; "rs1"] (disk w') = Fs.lookup ["org"; "rs1"] sample_disk /\
     statefile w' = Some sample_state) /\
  (exists w',
     refresh api_breaks sample_self sample_world = Ok tt w' /\
     disk w' = sample_disk /\
     statefile w' = Some sample_state).
Proof.
  split.
  - eexists. split; [vm_compute; reflexivity|]. repeat split; reflexivity.
  - eexists. split; [vm_compute; reflexivity|]. repeat split; reflexivity.
Qed.

(** ** The tree of the state directory *)

Module FsFacts.

Lemma lookup_app (p q : path) : forall n,
    Fs.lookup (p ++ q) n =
    match Fs.lookup p n with
    | Some c => Fs.lookup q c
    | None => None
    end.
Proof.
    induction p as [|x p IH]; intros n; simpl; [reflexivity|].
    destruct n as [c|kids]; [reflexivity|].
    destruct (Dict.get x kids); [apply IH | reflexivity].
Qed.

  (** A successful [modify] rewrote the entries of a directory. *)
Lemma modify_here (p : path) f : forall n n',
    Fs.modify p f n = Some n' ->
    exists kids, Fs.lookup p n = Some (Dir kids) /\ Fs.lookup p n' = Some (Dir (f kids)).
Proof.
    induction p as [|x p IH]; intros n n' H; destruct n as [c|kids]; simpl in H; try discriminate.
    - injection H as <-. exists kids. split; reflexivity.
    - destruct (Dict.get x kids) as [c|] eqn:Hx; [|discriminate].
      destruct (Fs.modify p f c) as [c'|] eqn:Hc; [|discriminate].
      injection H as <-. destruct (IH _ _ Hc) as [ks [H1 H2]].
      exists ks. simpl. rewrite Hx, get_set_same. split; assumption.
Qed.

  (** Below the directory that was rewritten. *)
Lemma modify_below (p : path) f n n' kids (q : path) :
    Fs.modify p f n = Some n' ->
    Fs.lookup p n = Some (Dir kids) ->
    Fs.lookup (p ++ q) n' = Fs.lookup q (Dir (f kids)).
Proof.
    intros H Hk. destruct (modify_here p f n n' H) as [ks [H1 H2]].
    rewrite lookup_app, H2. congruence.
Qed.

  (** Beside the path that was rewritten. *)
Lemma modify_beside (common : path) (x y : string) (p q : path) f : forall n n',
    x <> y ->
    Fs.modify (common ++ x :: p) f n = Some n' ->
    Fs.lookup (common ++ y :: q) n' = Fs.lookup (common ++ y :: q) n.
Proof.
    induction common as [|z common IH]; intros n n' N H;
      destruct n as [c|kids]; simpl in H; try discriminate.
    - destruct (Dict.get x kids) as [c|] eqn:Hx; [|discriminate].
      destruct (Fs.modify p f c) as [c'|]; [|discriminate].
      injection H as <-. simpl. rewrite get_set_other by congruence. reflexivity.
    - destruct (Dict.get z kids) as [c|] eqn:Hz; [|discriminate].
      destruct (Fs.modify (common ++ x :: p) f c) as [c'|] eqn:Hc; [|discriminate].
      injection H as <-. simpl. rewrite get_set_same, Hz. now apply IH.
Qed.

  (** Above the path that was rewritten: one entry of the directory was
      replaced. *)
Lemma modify_above (p : path) (x : string) (q : path) f : forall n n',
    Fs.modify (p ++ x :: q) f n = Some n' ->
    exists kids c c',
      Fs.lookup p n = Some (Dir kids) /\ Dict.get x kids = Some c /\
      Fs.modify q f c = Some c' /\
      Fs.lookup p n' = Some (Dir (Dict.set x c' kids)).
Proof.
    induction p as [|z p IH]; intros n n' H; destruct n as [c|kids]; simpl in H; try discriminate.
    - destruct (Dict.get x kids) as [c|] eqn:Hx; [|discriminate].
      destruct (Fs.modify q f c) as [c'|] eqn:Hc; [|discriminate].
      injection H as <-. exists kids, c, c'. repeat split; assumption.
    - destruct (Dict.get z kids) as [c|] eqn:Hz; [|discriminate].
      destruct (Fs.modify (p ++ x :: q) f c) as [c'|] eqn:Hc; [|discriminate].
      injection H as <-. destruct (IH _ _ Hc) as [ks [c0 [c1 [H1 [H2 [H3 H4]]]]]].
      exists ks, c0, c1. simpl. rewrite Hz, get_set_same. repeat split; assumption.
Qed.

  (** [modify] succeeds on a directory. *)
Lemma modify_total (p : path) f : forall n kids,
    Fs.lookup p n = Some (Dir kids) -> exists n', Fs.modify p f n = Some n'.
Proof.
    induction p as [|x p IH]; intros n kids H; simpl in H.
    - injection H as ->. eexists. reflexivity.
    - destruct n as [c|ks]; [discriminate|].
      destruct (Dict.get x ks) as [c|] eqn:Hx; [|discriminate].
      destruct (IH _ _ H) as [c' Hc]. simpl. rewrite Hx, Hc. eexists. reflexivity.
Qed.

End FsFacts.
Import FsFacts.

(** ** Runs of computations *)

Section Runs.
Context {A B : Type}.

Lemma bind_ok (m : M A) (f : A -> M B) w b w' :
    bind m f w = Ok b w' -> exists a w1, m w = Ok a w1 /\ f a w1 = Ok b w'.
Proof.
    unfold bind. destruct (m w) as [a w1|e w1]; [|discriminate].
    intros H. exists a, w1. split; [reflexivity | exact H].
Qed.

Lemma bind_run (m : M A) (f : A -> M B) w a w1 :
    m w = Ok a w1 -> bind m f w = f a w1.
Proof. unfold bind. now intros ->. Qed.

Lemma bind_exc (m : M A) (f : A -> M B) w e w1 :
    m w = Exc e w1 -> bind m f w = Exc e w1.
Proof. unfold bind. now intros ->. Qed.

End Runs.

Lemma try_except_ok {A} (m : M A) catches handler w a w' :
  try_except m catches handler w = Ok a w' ->
  m w = Ok a w' \/
  exists e w1, m w = Exc e w1 /\ catches e = true /\ handler w1 = Ok a w'.
Proof.
  unfold try_except. destruct (m w) as [a0 w0|e w0].
  - intros H. left. exact H.
  - destruct (catches e) eqn:E; [|discriminate]. intros H. right. exists e, w0. auto.
Qed.

(** *** Relations that every step keeps *)

Section Keeps.
Variable R : world -> world -> Prop.
Hypothesis R_refl : forall w, R w w.
Hypothesis R_trans : forall w1 w2 w3, R w1 w2 -> R w2 w3 -> R w1 w3.

Lemma keeps_ret {A} (a : A) : keeps R (ret a).
Proof. intros w. apply R_refl. Qed.

Lemma keeps_raise {A} (e : exn) : keeps R (@raise A e).
Proof. intros w. apply R_refl. Qed.

Lemma keeps_lift {A} (o : outcome A) : keeps R (lift o).
Proof. destruct o; [apply keeps_ret | apply keeps_raise]. Qed.

Lemma keeps_bind {A B} (m : M A) (f : A -> M B) :
    keeps R m -> (forall a, keeps R (f a)) -> keeps R (bind m f).
Proof.
    intros Hm Hf w. unfold bind. specialize (Hm w).
    destruct (m w) as [a w1|e w1]; simpl in *; [|exact Hm].
    eapply R_trans; [exact Hm | apply Hf].
Qed.

Lemma keeps_try {A} (m : M A) catches handler :
    keeps R m -> keeps R handler -> keeps R (try_except m catches handler).
Proof.
    intros Hm Hh w. unfold try_except. specialize (Hm w).
    destruct (m w) as [a w1|e w1]; simpl in *; [exact Hm|].
    destruct (catches e); [|exact Hm].
    eapply R_trans; [exact Hm | apply Hh].
Qed.

Lemma keeps_for_each {A} (l : list A) (body : A -> M unit) :
    (forall x, keeps R (body x)) -> keeps R (for_each l body).
Proof.
    intros Hb. induction l as [|x l IH]; simpl.
    - apply keeps_ret.
    - apply keeps_bind; [apply Hb | intros _; exact IH].
Qed.

Lemma keeps_for_fold {A S} (l : list A) (body : A -> S -> M S) :
    (forall x s, keeps R (body x s)) -> forall s, keeps R (for_fold l body s).
Proof.
    intros Hb. induction l as [|x l IH]; intros s; simpl.
    - apply keeps_ret.
    - apply keeps_bind; [apply Hb | intros s'; apply IH].
Qed.

Lemma keeps_any_of (l : list string) (test : string -> M bool) :
    (forall x, keeps R (test x)) -> keeps R (any_of l test).
Proof.
    intros Hb. induction l as [|x l IH]; simpl.
    - apply keeps_ret.
    - apply keeps_bind; [apply Hb | intros [|]; [apply keeps_ret | exact IH]].
Qed.

  (** Steps that leave the disk and the state file alone. *)
Hypothesis R_trace : forall w t, R w (mk_world (disk w) (statefile w) (uuids w) t).

Lemma keeps_emit ev : keeps R (emit ev).
Proof. intros w. apply R_trace. Qed.

Lemma keeps_logging m : keeps R (logging m).
Proof. apply keeps_emit. Qed.

Lemma keeps_request api c : keeps R (request api c).
Proof. intros w. unfold request. destruct (api (trace w) c); apply R_trace. Qed.

Lemma keeps_get_disk : keeps R get_disk.
Proof. intros w. apply R_refl. Qed.

Lemma keeps_read_json dir name : keeps R (read_json dir name).
Proof.
    intros w. unfold read_json, bind, get_disk.
    destruct (Fs.lookup _ _) as [[c|kids]|]; apply R_refl.
Qed.

Lemma keeps_os_listdir p : keeps R (os_listdir p).
Proof.
    intros w. unfold os_listdir, bind, get_disk.
    destruct (Fs.lookup _ _) as [[c|kids]|]; apply R_refl.
Qed.

Lemma keeps_os_path_isdir p : keeps R (os_path_isdir p).
Proof. intros w. apply R_refl. Qed.

Lemma keeps_entry_of rs m : keeps R (entry_of rs m).
Proof. unfold entry_of. destruct (Dict.get rs m); [apply keeps_ret | apply keeps_raise]. Qed.

End Keeps.

(** *** The filesystem calls *)

Lemma modify_dir_ok dir f w w' :
  modify_dir dir f w = Ok tt w' ->
  exists d', Fs.modify dir f (disk w) = Some d' /\ w' = with_disk w d'.
Proof.
  unfold modify_dir, bind, get_disk, set_disk, raise.
  destruct (Fs.modify dir f (disk w)) as [d'|]; [|discriminate].
  intros H. injection H as <-. exists d'. split; reflexivity.
Qed.

Lemma modify_dir_run dir f w d' :
  Fs.modify dir f (disk w) = Some d' -> modify_dir dir f w = Ok tt (with_disk w d').
Proof. unfold modify_dir, bind, get_disk, set_disk. now intros ->. Qed.

Lemma os_listdir_run p w kids :
  Fs.lookup p (disk w) = Some (Dir kids) -> os_listdir p w = Ok (Dict.keys kids) w.
Proof. unfold os_listdir, bind, get_disk. now intros ->. Qed.

Lemma os_listdir_ok p w l w' :
  os_listdir p w = Ok l w' ->
  exists kids, Fs.lookup p (disk w) = Some (Dir kids) /\ l = Dict.keys kids /\ w' = w.
Proof.
  unfold os_listdir, bind, get_disk, ret, raise.
  destruct (Fs.lookup p (disk w)) as [[c|kids]|]; try discriminate.
  intros H. injection H as <- <-. exists kids. auto.
Qed.

Lemma os_path_isdir_run p w : os_path_isdir p w = Ok (Fs.is_dir (Fs.lookup p (disk w))) w.
Proof. reflexivity. Qed.

Lemma os_mkdir_ok dir name w w' :
  os_mkdir dir name w = Ok tt w' ->
  exists kids d',
    Fs.lookup dir (disk w) = Some (Dir kids) /\ Dict.get name kids = None /\
    Fs.modify dir (Dict.set name (Dir [])) (disk w) = Some d' /\ w' = with_disk w d'.
Proof.
  unfold os_mkdir, bind, get_disk.
  destruct (Fs.lookup dir (disk w)) as [[c|kids]|] eqn:Hl; try discriminate.
  unfold Dict.mem. destruct (Dict.get name kids) eqn:Hg; [discriminate|].
  intros H. destruct (modify_dir_ok _ _ _ _ H) as [d' [H1 H2]].
  exists kids, d'. auto.
Qed.

Lemma shutil_rmtree_ok dir name w w' :
  shutil_rmtree dir name w = Ok tt w' ->
  exists d', Fs.modify dir (Dict.pop name) (disk w) = Some d' /\ w' = with_disk w d'.
Proof.
  unfold shutil_rmtree, bind, get_disk.
  destruct (Fs.lookup (dir ++ [name]) (disk w)) as [[c|kids]|]; try discriminate.
  apply modify_dir_ok.
Qed.

Lemma shutil_rmtree_run dir name w kids sub :
  Fs.lookup dir (disk w) = Some (Dir kids) ->
  Dict.get name kids = Some (Dir sub) ->
  exists d', Fs.modify dir (Dict.pop name) (disk w) = Some d' /\
             shutil_rmtree dir name w = Ok tt (with_disk w d').
Proof.
  intros Hd Hn. destruct (modify_total dir (Dict.pop name) _ _ Hd) as [d' Hm].
  exists d'. split; [exact Hm|].
  unfold shutil_rmtree, bind, get_disk. rewrite lookup_app, Hd. simpl. rewrite Hn.
  now apply modify_dir_run.
Qed.


Lemma rename_run dir name into as_ w src d1 d2 :
  Fs.lookup (dir ++ [name]) (disk w) = Some src ->
  Fs.lookup (into ++ [as_]) (disk w) = None ->
  Fs.modify dir (Dict.pop name) (disk w) = Some d1 ->
  Fs.modify into (Dict.set as_ src) d1 = Some d2 ->
  rename dir name into as_ w = Ok tt (with_disk w d2).
Proof.
  intros Hs Hn H1 H2. unfold rename, bind at 1, get_disk. rewrite Hs, Hn.
  assert (Hgo : (modify_dir dir (Dict.pop name) ;;;
                 d' <- get_disk ;;
                 match Fs.modify into (Dict.set as_ src) d' with
                 | Some d'' => set_disk d''
                 | None => raise OSError
                 end)%py w = Ok tt (with_disk w d2)).
  { rewrite (bind_run _ _ _ _ _ (modify_dir_run _ _ _ _ H1)).
    unfold bind, get_disk. simpl. rewrite H2. reflexivity. }
  destruct src; exact Hgo.
Qed.


Lemma shutil_move_run dir name dst_dir dst_name w src d1 d2 :
  Fs.lookup (dir ++ [name]) (disk w) = Some src ->
  Fs.lookup (dst_dir ++ [dst_name]) (disk w) = None ->
  Fs.modify dir (Dict.pop name) (disk w) = Some d1 ->
  Fs.modify dst_dir (Dict.set dst_name src) d1 = Some d2 ->
  shutil_move dir name dst_dir dst_name w = Ok tt (with_disk w d2).
Proof.
  intros Hs Hn H1 H2. unfold shutil_move, bind at 1, get_disk. rewrite Hn.
  now apply rename_run with (src := src) (d1 := d1).
Qed.

Lemma write_json_ok dir name c w w' :
  write_json dir name c w = Ok tt w' ->
  exists d', Fs.modify dir (Dict.set name (File c)) (disk w) = Some d' /\ w' = with_disk w d'.
Proof.
  unfold write_json, bind, get_disk.
  destruct (Fs.lookup dir (disk w)) as [[c0|kids]|]; try discriminate.
  destruct (Dict.get name kids) as [[c0|k]|]; try discriminate; apply modify_dir_ok.
Qed.

Lemma read_json_ok dir name w c w' :
  read_json dir name w = Ok c w' ->
  Fs.lookup (dir ++ [name]) (disk w) = Some (File c) /\ w' = w.
Proof.
  unfold read_json, bind, get_disk, ret, raise.
  destruct (Fs.lookup (dir ++ [name]) (disk w)) as [[c0|k]|]; try discriminate.
  intros H. injection H as <- <-. auto.
Qed.

(** Relations that allow the rewriting of the directories that a call
    touches are kept by the call. *)
Section KeepsDisk.
Variable R : world -> world -> Prop.
Hypothesis R_refl : forall w, R w w.
Hypothesis R_trans : forall w1 w2 w3, R w1 w2 -> R w2 w3 -> R w1 w3.

Lemma keeps_modify_dir dir f : allows R dir -> keeps R (modify_dir dir f).
Proof.
    intros Ha w. unfold modify_dir, bind, get_disk.
    destruct (Fs.modify dir f (disk w)) as [d'|] eqn:E; simpl; [|apply R_refl].
    apply (Ha f w d' E).
Qed.

Lemma keeps_os_mkdir dir name : allows R dir -> keeps R (os_mkdir dir name).
Proof.
    intros Ha w. unfold os_mkdir, bind, get_disk.
    destruct (Fs.lookup dir (disk w)) as [[c|kids]|]; try apply R_refl.
    destruct (Dict.mem name kids); [apply R_refl|].
    apply (keeps_modify_dir dir _ Ha w).
Qed.

Lemma keeps_os_rmdir dir name : allows R dir -> keeps R (os_rmdir dir name).
Proof.
    intros Ha w. unfold os_rmdir, bind, get_disk.
    destruct (Fs.lookup (dir ++ [name]) (disk w)) as [[c|[|k kids]]|]; try apply R_refl.
    apply (keeps_modify_dir dir _ Ha w).
Qed.

Lemma keeps_shutil_rmtree dir name : allows R dir -> keeps R (shutil_rmtree dir name).
Proof.
    intros Ha w. unfold shutil_rmtree, bind, get_disk.
    destruct (Fs.lookup (dir ++ [name]) (disk w)) as [[c|kids]|]; try apply R_refl.
    apply (keeps_modify_dir dir _ Ha w).
Qed.

Lemma keeps_write_json dir name c : allows R dir -> keeps R (write_json dir name c).
Proof.
    intros Ha w. unfold write_json, bind, get_disk.
    destruct (Fs.lookup dir (disk w)) as [[c0|kids]|]; try apply R_refl.
    destruct (Dict.get name kids) as [[c0|k]|]; try apply R_refl;
      apply (keeps_modify_dir dir _ Ha w).
Qed.

Lemma keeps_rename dir name into as_ :
    allows R dir -> allows R into -> keeps R (rename dir name into as_).
Proof.
    intros Ha Hb w. unfold rename. unfold bind at 1, get_disk.
    destruct (Fs.lookup (dir ++ [name]) (disk w)) as [src|]; [|apply R_refl].
    assert (Hgo : R w (final_world
              ((modify_dir dir (Dict.pop name) ;;;
                d' <- get_disk ;;
                match Fs.modify into (Dict.set as_ src) d' with
                | Some d'' => set_disk d''
                | None => raise OSError
                end)%py w))).
    { unfold bind at 1. pose proof (keeps_modify_dir dir (Dict.pop name) Ha w) as H1.
      destruct (modify_dir dir (Dict.pop name) w) as [[] w1|e w1]; simpl in *; [|exact H1].
      eapply R_trans; [exact H1|].
      unfold bind, get_disk.
      destruct (Fs.modify into (Dict.set as_ src) (disk w1)) as [d2|] eqn:E; simpl;
        [|apply R_refl].
      apply (Hb _ w1 d2 E). }
    destruct src as [c|k]; [exact Hgo|].
    destruct (Fs.lookup (into ++ [as_]) (disk w)) as [[c|k']|]; try exact Hgo.
    apply R_refl.
Qed.

Lemma keeps_shutil_move dir name dst_dir dst_name :
    allows R dir -> allows R dst_dir -> allows R (dst_dir ++ [dst_name]) ->
    keeps R (shutil_move dir name dst_dir dst_name).
Proof.
    intros Ha Hb Hc w. unfold shutil_move. unfold bind at 1, get_disk.
    destruct (Fs.lookup (dst_dir ++ [dst_name]) (disk w)) as [[c|kids]|];
      try apply (keeps_rename _ _ _ _ Ha Hb w).
    destruct (list_eq_dec string_dec (dir ++ [name]) (dst_dir ++ [dst_name])).
    - destruct (Fs.lookup (dir ++ [name]) (disk w)); apply R_refl.
    - destruct (Dict.mem name kids); [apply R_refl|].
      apply (keeps_rename _ _ _ _ Ha Hc w).
Qed.

End KeepsDisk.

(** ** [refresh] *)

Section DictKeys.
Context {V : Type}.
Implicit Types (d : Dict.t V) (k : string) (v : V).

Lemma keys_set_present k v d :
    Dict.get k d <> None -> Dict.keys (Dict.set k v d) = Dict.keys d.
Proof.
    induction d as [|[k' v'] d IH]; simpl; [congruence|].
    destruct (String.eqb k k') eqn:E; simpl.
    - apply String.eqb_eq in E. now subst.
    - intros H. now rewrite IH.
Qed.

Lemma keys_set_absent k v d :
    Dict.get k d = None -> Dict.keys (Dict.set k v d) = Dict.keys d ++ [k].
Proof.
    induction d as [|[k' v'] d IH]; simpl; [reflexivity|].
    destruct (String.eqb k k') eqn:E; simpl; [discriminate|].
    intros H. now rewrite IH.
Qed.


Lemma nodup_keys_set k v d :
    NoDup (Dict.keys d) -> NoDup (Dict.keys (Dict.set k v d)).
Proof.
    intros H. destruct (Dict.get k d) eqn:E.
    - rewrite keys_set_present by congruence. exact H.
    - rewrite keys_set_absent by assumption.
      apply NoDup_app; [exact H | constructor; [tauto | constructor] |].
      intros x Hx [<-|[]]. apply get_in_keys in Hx. contradiction.
Qed.

Lemma get_none_not_in k d : Dict.get k d = None <-> ~ In k (Dict.keys d).
Proof.
    rewrite <- get_in_keys. destruct (Dict.get k d); split; intros H.
    - discriminate.
    - exfalso. apply H. discriminate.
    - intros N. now apply N.
    - reflexivity.
Qed.

End DictKeys.

Lemma modify_gives_dir p f : forall n n', Fs.modify p f n = Some n' -> exists k, n' = Dir k.
Proof.
  intros n n' H. destruct n as [c|kids]; [destruct p; discriminate|].
  destruct p as [|x p]; simpl in H.
  - injection H as <-. eauto.
  - destruct (Dict.get x kids) as [c|]; [|discriminate].
    destruct (Fs.modify p f c); [|discriminate]. injection H as <-. eauto.
Qed.

Lemma same_statefile_refl w : same_statefile w w.
Proof. reflexivity. Qed.

Lemma same_statefile_trans w1 w2 w3 :
  same_statefile w1 w2 -> same_statefile w2 w3 -> same_statefile w1 w3.
Proof. unfold same_statefile. congruence. Qed.

Lemma same_statefile_allows dir : allows same_statefile dir.
Proof. intros f w d' _. reflexivity. Qed.

Lemma same_statefile_trace w t :
  same_statefile w (mk_world (disk w) (statefile w) (uuids w) t).
Proof. reflexivity. Qed.

Section UnderRemote.
Variable o : string.

Lemma under_remote_refl w : under_remote o w w.
Proof.
    split; [reflexivity|]. intros kids r H1 H2 H3. exists kids, r. auto.
Qed.

Lemma under_remote_trans w1 w2 w3 :
    under_remote o w1 w2 -> under_remote o w2 w3 -> under_remote o w1 w3.
Proof.
    intros [S1 H1] [S2 H2]. split; [congruence|].
    intros kids r Hk Hr Hn.
    destruct (H1 kids r Hk Hr Hn) as [kids' [r' [Hk' [Hr' [Hn' Hs']]]]].
    destruct (H2 kids' r' Hk' Hr' Hn') as [kids'' [r'' [Hk'' [Hr'' [Hn'' Hs'']]]]].
    exists kids'', r''. repeat split; try assumption.
    intros k Hk0. rewrite Hs'' by assumption. now apply Hs'.
Qed.

Lemma under_remote_trace w t :
    under_remote o w (mk_world (disk w) (statefile w) (uuids w) t).
Proof.
    split; [reflexivity|]. intros kids r H1 H2 H3. exists kids, r. auto.
Qed.

  (** Below an entry of [.remote/] anything may be rewritten. *)
Lemma under_remote_allows x q : allows (under_remote o) (o :: ".remote" :: x :: q).
Proof.
    intros f w d' H. split; [reflexivity|]. intros kids r Hk Hr Hn. simpl.
    destruct (modify_above [o; ".remote"] x q f _ _ H)
      as [r0 [c [c' [H1 [H2 [H3 H4]]]]]].
    destruct (modify_above [o] ".remote" (x :: q) f _ _ H)
      as [kids0 [c0 [c0' [G1 [G2 [G3 G4]]]]]].
    simpl app in *. rewrite Hk in G1. injection G1 as <-.
    rewrite Hr in G2. injection G2 as <-.
    destruct (modify_gives_dir _ _ _ _ G3) as [r' ->].
    exists (Dict.set ".remote" (Dir r') kids), r'. split; [|split; [|split]].
    - exact G4.
    - apply get_set_same.
    - change [o; ".remote"] with ([o] ++ [".remote"]) in H4.
      rewrite lookup_app, G4 in H4. simpl in H4. rewrite get_set_same in H4.
      injection H4 as ->.
      change [o; ".remote"] with ([o] ++ [".remote"]) in H1.
      rewrite lookup_app, Hk in H1. simpl in H1. rewrite Hr in H1. injection H1 as <-.
      rewrite keys_set_present by congruence. exact Hn.
    - intros k Hk0. now apply get_set_other.
Qed.

  (** A new entry of [.remote/] has a new name. *)
Lemma under_remote_mkdir name : keeps (under_remote o) (os_mkdir [o; ".remote"] name).
Proof.
    intros w. destruct (os_mkdir [o; ".remote"] name w) as [[] w'|e w'] eqn:E.
    - simpl. destruct (os_mkdir_ok _ _ _ _ E) as [r0 [d' [H1 [H2 [H3 ->]]]]].
      split; [reflexivity|]. intros kids r Hk Hr Hn. simpl.
      destruct (modify_above [o] ".remote" [] _ _ _ H3)
        as [kids0 [c0 [c0' [G1 [G2 [G3 G4]]]]]].
      rewrite Hk in G1. injection G1 as <-. rewrite Hr in G2. injection G2 as <-.
      simpl in G3. injection G3 as <-.
      exists (Dict.set ".remote" (Dir (Dict.set name (Dir []) r)) kids),
             (Dict.set name (Dir []) r).
      split; [|split; [|split]].
      + exact G4.
      + apply get_set_same.
      + now apply nodup_keys_set.
      + intros k Hk0. now apply get_set_other.
    - simpl.
      assert (Hw : w' = w).
      { unfold os_mkdir, bind, get_disk in E.
        destruct (Fs.lookup [o; ".remote"] (disk w)) as [[c|kids]|];
          try (injection E as _ <-; reflexivity).
        destruct (Dict.mem name kids); [injection E as _ <-; reflexivity|].
        unfold modify_dir, bind, get_disk in E.
        destruct (Fs.modify _ _ _); [discriminate | injection E as _ <-; reflexivity]. }
      rewrite Hw. apply under_remote_refl.
Qed.

End UnderRemote.

Ltac keeps_step refl trans tr :=
  lazymatch goal with
  | |- keeps _ (ret _) => apply keeps_ret; apply refl
  | |- keeps _ (raise _) => apply keeps_raise; apply refl
  | |- keeps _ (lift _) => apply keeps_lift; apply refl
  | |- keeps _ (logging _) => apply keeps_logging; apply tr
  | |- keeps _ (request _ _) => apply keeps_request; apply tr
  | |- keeps _ get_disk => apply keeps_get_disk; apply refl
  | |- keeps _ (read_json _ _) => apply keeps_read_json; apply refl
  | |- keeps _ (os_listdir _) => apply keeps_os_listdir; apply refl
  | |- keeps _ (os_path_isdir _) => apply keeps_os_path_isdir; apply refl
  | |- keeps _ (entry_of _ _) => apply keeps_entry_of; apply refl
  | |- keeps _ (bind _ _) => apply keeps_bind; [apply trans | | intros ?]
  | |- keeps _ (try_except _ _ _) => apply keeps_try; [apply trans | | ]
  | |- keeps _ (for_each _ _) => apply keeps_for_each; [apply refl | apply trans | intros ?]
  | |- keeps _ (for_fold _ _ _) => apply keeps_for_fold; [apply refl | apply trans | intros ? ?]
  | |- keeps _ (match ?x with _ => _ end) => destruct x
  end.

Ltac keeps_basic refl trans tr := repeat keeps_step refl trans tr.

Section RefreshFacts.
Variable api : list event -> call -> response.
Variable self : State.

Let o : string := org_id self.

Lemma refresh_fetch_keeps : keeps (under_remote o) (refresh_fetch api self).
Proof.
    unfold refresh_fetch, refresh_ruleset, organization_dir. simpl app. fold o.
    keeps_basic (under_remote_refl o) (under_remote_trans o) (under_remote_trace o).
    - apply under_remote_mkdir.
    - apply keeps_write_json; [apply under_remote_refl | apply under_remote_allows].
    - apply keeps_os_mkdir; [apply under_remote_refl | apply under_remote_allows].
    - apply keeps_write_json; [apply under_remote_refl | apply under_remote_allows].
    - apply keeps_write_json; [apply under_remote_refl | apply under_remote_allows].
Qed.

End RefreshFacts.

(** ** More on the state-file primitives *)

Lemma with_state_run body st w :
statefile w = Some st ->
with_state None body w =
match body st with
| Done st' => Ok None (with_statefile w st')
| Raise e => Exc e w
end.
Proof.
  intros Hw. destruct (body st) as [st'|e] eqn:E.
  - now apply with_state_commit with (st := st).
  - now apply with_state_raise with (st := st).
Qed.

Lemma with_state_batch body st w :
with_state (Some st) body w =
match body st with
| Done st' => Ok (Some st') w
| Raise e => Exc e w
end.
Proof. unfold with_state, bind, lift. destruct (body st); reflexivity. Qed.

Lemma tracked_ruleset_set_org_other o o' rs m st :
o' <> o -> tracked_ruleset o' rs (set_org o m st) = tracked_ruleset o' rs st.
Proof.
  intros N. unfold tracked_ruleset, set_org. simpl. now rewrite get_set_other.
Qed.

Lemma tracked_ruleset_pop_org_other o o' rs st :
o' <> o -> tracked_ruleset o' rs (pop_org o st) = tracked_ruleset o' rs st.
Proof.
  intros N. unfold tracked_ruleset, pop_org. simpl. now rewrite get_pop_other.
Qed.

Lemma commits_intro body st st' :
body st = Done st' -> commits (fun state => with_state state body) st st'.
Proof.
  intros H. split; intros w.
  - now rewrite with_state_batch, H.
  - intros Hw. now rewrite (with_state_run body st w Hw), H.
Qed.

Lemma rejects_intro body st e :
body st = Raise e -> rejects (fun state => with_state state body) st e.
Proof.
  intros H. split; intros w.
  - now rewrite with_state_batch, H.
  - intros Hw. now rewrite (with_state_run body st w Hw), H.
Qed.

Section MorePrimitives.
Variable self : State.

Let o : string := org_id self.

(** X1: [_state_add_organization] is idempotent and only ever adds: after
    it the organization is tracked, with the rulesets it had or with
    none, every other organization is as before, and a second call
    changes nothing.  Neither the disk nor the trace is touched. *)
Theorem state_add_organization_idempotent (st : state_doc) :
exists st',
  commits (_state_add_organization self) st st' /\
  Dict.get o (organizations st') =
    Some (match Dict.get o (organizations st) with Some m => m | None => [] end) /\
  (forall o', o' <> o -> Dict.get o' (organizations st') = Dict.get o' (organizations st)) /\
  workspace st' = workspace st /\
  commits (_state_add_organization self) st' st'.
Proof.
  assert (H : exists st',
    state_add_organization_body self st = Done st' /\
    Dict.get o (organizations st') =
      Some (match Dict.get o (organizations st) with Some m => m | None => [] end) /\
    (forall o', o' <> o -> Dict.get o' (organizations st') = Dict.get o' (organizations st)) /\
    workspace st' = workspace st /\
    state_add_organization_body self st' = Done st').
  { unfold state_add_organization_body, Dict.mem. fold o.
    destruct (Dict.get o (organizations st)) as [m|] eqn:Hm; simpl.
    - exists st. rewrite Hm. auto.
    - exists (set_org o [] st). unfold set_org. simpl. rewrite get_set_same.
      split; [reflexivity|]. split; [reflexivity|]. split.
      + intros o' N. now apply get_set_other.
      + split; reflexivity. }
  destruct H as [st' [H1 [H2 [H3 [H4 H5]]]]]. exists st'.
  split; [now apply commits_intro|]. split; [exact H2|]. split; [exact H3|].
  split; [exact H4 | now apply commits_intro].
Qed.

(** What [_state_delete_organization] commits. *)
Lemma state_delete_organization_commits (org : option string) (st : state_doc) :
let target := match org with
              | Some x => if String.eqb x "" then o else x
              | None => o
              end in
exists st',
  commits (_state_delete_organization self org) st st' /\
  Dict.get target (organizations st') = None /\
  (forall o', o' <> target ->
     Dict.get o' (organizations st') = Dict.get o' (organizations st)) /\
  workspace st' = workspace st.
Proof.
  assert (H : forall x,
    exists st',
      (if Dict.mem x (organizations st) then Done (pop_org x st) else Done st) = Done st' /\
      Dict.get x (organizations st') = None /\
      (forall o', o' <> x -> Dict.get o' (organizations st') = Dict.get o' (organizations st)) /\
      workspace st' = workspace st).
  { intros x. unfold Dict.mem. destruct (Dict.get x (organizations st)) eqn:Hx.
    - exists (pop_org x st). unfold pop_org. simpl. rewrite get_pop_same.
      split; [reflexivity|]. split; [reflexivity|]. split; [|reflexivity].
      intros o' N. now apply get_pop_other.
    - exists st. auto. }
  assert (G : forall x,
    state_delete_organization_body self org st =
      (if Dict.mem x (organizations st) then Done (pop_org x st) else Done st) ->
    exists st',
      commits (_state_delete_organization self org) st st' /\
      Dict.get x (organizations st') = None /\
      (forall o', o' <> x -> Dict.get o' (organizations st') = Dict.get o' (organizations st)) /\
      workspace st' = workspace st).
  { intros x Hx. destruct (H x) as [st' [H1 H2]]. exists st'. split; [|exact H2].
    apply commits_intro. now rewrite Hx. }
  destruct org as [x|]; simpl.
  - destruct (String.eqb x "") eqn:E; apply G; unfold state_delete_organization_body;
      rewrite E; reflexivity.
  - apply G. reflexivity.
Qed.

(** X2: [_state_delete_organization] removes the entry of the
    organization it is given, or of its own when it is given [None] or
    the empty string, and nothing else; it never raises. *)
Theorem state_delete_organization_removes (org : option string) (st : state_doc) :
let target := match org with
              | Some x => if String.eqb x "" then o else x
              | None => o
              end in
exists st',
  commits (_state_delete_organization self org) st st' /\
  Dict.get target (organizations st') = None /\
  (forall o', o' <> target ->
     Dict.get o' (organizations st') = Dict.get o' (organizations st)) /\
  workspace st' = workspace st.
Proof.
  exact (state_delete_organization_commits org st).
Qed.

End MorePrimitives.

Lemma set_twice {V} (k : string) (v v' : V) (d : Dict.t V) :
Dict.set k v (Dict.set k v' d) = Dict.set k v d.
Proof.
  induction d as [|[k0 v0] d IH]; simpl.
  - now rewrite String.eqb_refl.
  - destruct (String.eqb k k0) eqn:E; simpl.
    + now rewrite String.eqb_refl.
    + now rewrite E, IH.
Qed.

Lemma set_org_twice o m m' st : set_org o m (set_org o m' st) = set_org o m st.
Proof. unfold set_org. simpl. now rewrite set_twice. Qed.

Section TrackedFacts.
Variable o : string.

(** Writing one ruleset entry of organization [o], which had the
    rulesets [m], or none when it was not tracked. *)
Lemma tracked_ruleset_written rs e' m st :
Dict.get o (organizations st) = Some m \/ (Dict.get o (organizations st) = None /\ m = []) ->
tracked_ruleset o rs (set_org o (Dict.set rs e' m) st) = Some e' /\
(forall rs', rs' <> rs ->
   tracked_ruleset o rs' (set_org o (Dict.set rs e' m) st) = tracked_ruleset o rs' st) /\
(forall o' rs', o' <> o ->
   tracked_ruleset o' rs' (set_org o (Dict.set rs e' m) st) = tracked_ruleset o' rs' st).
Proof.
  intros Hm. split; [|split].
  - unfold tracked_ruleset, set_org. cbn [organizations]. rewrite get_set_same.
    apply get_set_same.
  - intros rs' N. unfold tracked_ruleset, set_org. cbn [organizations].
    rewrite get_set_same. rewrite get_set_other by assumption.
    destruct Hm as [-> | [-> ->]]; reflexivity.
  - intros o' rs' N. now apply tracked_ruleset_set_org_other.
Qed.

Lemma tracked_rule_of_ruleset rs r st :
tracked_rule o rs r st =
match tracked_ruleset o rs st with
| Some e => Dict.get r (ruleIds e)
| None => None
end.
Proof. reflexivity. Qed.

End TrackedFacts.

Section RulesetPrimitives.
Variable self : State.

Let o : string := org_id self.

(** X3: [_state_add_ruleset] on a tracked ruleset raises [ValueError]
    exactly when a deleted ruleset would come back or a modified one
    would become unmodified; otherwise it keeps the tracked rules, raises
    [modified] from [false] to [true] when the action is [true], changes
    [modified] in no other case (an action [del] marks nothing), and
    leaves every other ruleset alone. *)
Theorem state_add_ruleset_transitions (rs : string) (action : RulesetStatus)
  (st : state_doc) (e : ruleset_entry) :
tracked_ruleset o rs st = Some e ->
if (negb (RulesetStatus_eqb action rs_del) && RulesetStatus_eqb (modified e) rs_del)
   || (RulesetStatus_eqb action rs_false && RulesetStatus_eqb (modified e) rs_true)
then rejects (_state_add_ruleset self rs action) st ValueError
else exists st',
  commits (_state_add_ruleset self rs action) st st' /\
  tracked_ruleset o rs st' =
    Some (mk_entry (if RulesetStatus_eqb action rs_true && RulesetStatus_eqb (modified e) rs_false
                    then rs_true else modified e) (ruleIds e)) /\
  (forall rs', rs' <> rs -> tracked_ruleset o rs' st' = tracked_ruleset o rs' st) /\
  (forall o' rs', o' <> o -> tracked_ruleset o' rs' st' = tracked_ruleset o' rs' st).
Proof.
  intros He. unfold tracked_ruleset in He. fold o in He.
  destruct (Dict.get o (organizations st)) as [m|] eqn:Hm; [|discriminate].
  assert (Hb : state_add_ruleset_body self rs action st =
    if RulesetStatus_eqb action rs_true && RulesetStatus_eqb (modified e) rs_false then
      Done (set_org o (Dict.set rs (mk_entry rs_true (ruleIds e)) m) st)
    else if negb (RulesetStatus_eqb action rs_del) && RulesetStatus_eqb (modified e) rs_del then
      Raise ValueError
    else if RulesetStatus_eqb action rs_false && RulesetStatus_eqb (modified e) rs_true then
      Raise ValueError
    else Done st).
  { unfold state_add_ruleset_body. fold o. now rewrite Hm, He. }
  assert (Hsame : tracked_ruleset o rs st = Some (mk_entry (modified e) (ruleIds e))).
  { unfold tracked_ruleset. rewrite Hm, He. now destruct e. }
  destruct action, (modified e) eqn:Hmod; simpl in *;
    try (apply rejects_intro; exact Hb);
    try (exists st; split; [apply commits_intro; exact Hb|];
         split; [exact Hsame | split; reflexivity]).
  eexists. split; [apply commits_intro; exact Hb|].
  destruct (tracked_ruleset_written o rs (mk_entry rs_true (ruleIds e)) m st (or_introl Hm))
    as [H1 [H2 H3]].
  split; [exact H1 | split; assumption].
Qed.

(** What [_state_add_ruleset] commits for a ruleset that is not tracked. *)
Lemma state_add_ruleset_fresh (rs : string) (action : RulesetStatus) (st : state_doc) :
tracked_ruleset o rs st = None ->
exists st',
  commits (_state_add_ruleset self rs action) st st' /\
  tracked_ruleset o rs st' = Some (mk_entry action []) /\
  (forall rs', rs' <> rs -> tracked_ruleset o rs' st' = tracked_ruleset o rs' st) /\
  (forall o' rs', o' <> o -> tracked_ruleset o' rs' st' = tracked_ruleset o' rs' st).
Proof.
  intros Hn. unfold tracked_ruleset in Hn. fold o in Hn.
  destruct (Dict.get o (organizations st)) as [m|] eqn:Hm.
  - eexists. split.
    + apply commits_intro. unfold state_add_ruleset_body. fold o. rewrite Hm, Hn. reflexivity.
    + apply (tracked_ruleset_written o rs (mk_entry action []) m st (or_introl Hm)).
  - exists (set_org o (Dict.set rs (mk_entry action []) []) st). split.
    + apply commits_intro. unfold state_add_ruleset_body. fold o. rewrite Hm.
      unfold state_add_organization_body, Dict.mem. fold o. rewrite Hm.
      cbn [negb]. cbv iota.
      replace (Dict.get o (organizations (set_org o [] st))) with (Some (@nil (string * ruleset_entry)))
        by (unfold set_org; cbn [organizations]; now rewrite get_set_same).
      now rewrite set_org_twice.
    + apply (tracked_ruleset_written o rs (mk_entry action []) [] st).
      right. auto.
Qed.

(** X4: [_state_add_ruleset] on a ruleset that is not tracked creates
    the entry with the action as it is, [del] included, and no rule;
    every other ruleset is as before. *)
Theorem state_add_ruleset_creates (rs : string) (action : RulesetStatus) (st : state_doc) :
tracked_ruleset o rs st = None ->
exists st',
  commits (_state_add_ruleset self rs action) st st' /\
  tracked_ruleset o rs st' = Some (mk_entry action []) /\
  (forall rs', rs' <> rs -> tracked_ruleset o rs' st' = tracked_ruleset o rs' st) /\
  (forall o' rs', o' <> o -> tracked_ruleset o' rs' st' = tracked_ruleset o' rs' st).
Proof.
  exact (state_add_ruleset_fresh rs action st).
Qed.

End RulesetPrimitives.

Section RulePrimitives.
Variable self : State.

Let o : string := org_id self.

(** What [_state_delete_ruleset] commits. *)
Lemma state_delete_ruleset_commits (rs : string) (st : state_doc) :
let unchanged st' :=
  (forall rs', rs' <> rs -> tracked_ruleset o rs' st' = tracked_ruleset o rs' st) /\
  (forall o' rs', o' <> o -> tracked_ruleset o' rs' st' = tracked_ruleset o' rs' st) in
let deleted :=
  exists st', commits (_state_delete_ruleset self rs) st st' /\
              tracked_ruleset o rs st' = Some (mk_entry rs_del []) /\ unchanged st' in
match tracked_ruleset o rs st with
| Some e =>
    if endswith rs (_postfix self) then
      exists st', commits (_state_delete_ruleset self rs) st st' /\
                  tracked_ruleset o rs st' = None /\
                  Dict.get o (organizations st') <> Some [] /\ unchanged st'
    else if RulesetStatus_eqb (modified e) rs_del && negb (Dict.is_empty (ruleIds e)) then
      rejects (_state_delete_ruleset self rs) st AssertionError
    else deleted
| None => deleted
end.
Proof.
  intros unchanged deleted. unfold deleted, unchanged. clear deleted unchanged.
  unfold tracked_ruleset at 1. fold o.
  destruct (Dict.get o (organizations st)) as [m|] eqn:Hm.
  - destruct (Dict.get rs m) as [e|] eqn:He.
    + destruct (endswith rs (_postfix self)) eqn:Hend.
      * destruct (Dict.is_empty (Dict.pop rs m)) eqn:Hemp.
        -- exists (pop_org o st). split.
           { apply commits_intro. unfold state_delete_ruleset_body. fold o.
             now rewrite Hm, He, Hend, Hemp. }
           assert (Hall : forall rs', tracked_ruleset o rs' (pop_org o st) = None).
           { intros rs'. unfold tracked_ruleset, pop_org. cbn [organizations].
             now rewrite get_pop_same. }
           split; [apply Hall|]. split.
           { unfold pop_org. cbn [organizations]. rewrite get_pop_same. discriminate. }
           split.
           { intros rs' N. rewrite Hall. unfold tracked_ruleset. rewrite Hm.
             rewrite <- (get_pop_other rs rs' m N).
             destruct (Dict.pop rs m); [reflexivity | discriminate]. }
           { intros o' rs' N. now apply tracked_ruleset_pop_org_other. }
        -- exists (set_org o (Dict.pop rs m) st). split.
           { apply commits_intro. unfold state_delete_ruleset_body. fold o.
             now rewrite Hm, He, Hend, Hemp. }
           split.
           { unfold tracked_ruleset, set_org. cbn [organizations].
             rewrite get_set_same. apply get_pop_same. }
           split.
           { unfold set_org. cbn [organizations]. rewrite get_set_same.
             intros H. injection H as H. now rewrite H in Hemp. }
           split.
           { intros rs' N. unfold tracked_ruleset, set_org. cbn [organizations].
             rewrite get_set_same, Hm. now apply get_pop_other. }
           { intros o' rs' N. now apply tracked_ruleset_set_org_other. }
      * destruct (RulesetStatus_eqb (modified e) rs_del) eqn:Hdel; cbn [andb negb].
        -- destruct (Dict.is_empty (ruleIds e)) eqn:Hemp; cbn [negb].
           ++ exists st. split.
              { apply commits_intro. unfold state_delete_ruleset_body. fold o.
                now rewrite Hm, He, Hend, Hdel, Hemp. }
              split; [|split; reflexivity].
              unfold tracked_ruleset. rewrite Hm, He.
              apply RulesetStatus_eqb_eq in Hdel. destruct e as [md ids]. simpl in *.
              subst md. destruct ids; [reflexivity | discriminate].
           ++ apply rejects_intro. unfold state_delete_ruleset_body. fold o.
              now rewrite Hm, He, Hend, Hdel, Hemp.
        -- eexists. split.
           { apply commits_intro. unfold state_delete_ruleset_body. fold o.
             rewrite Hm, He, Hend, Hdel. reflexivity. }
           apply (tracked_ruleset_written o rs (mk_entry rs_del []) m st (or_introl Hm)).
    + eexists. split.
      { apply commits_intro. unfold state_delete_ruleset_body. fold o.
        rewrite Hm, He. reflexivity. }
      apply (tracked_ruleset_written o rs (mk_entry rs_del []) m st (or_introl Hm)).
  - exists (set_org o (Dict.set rs (mk_entry rs_del []) []) st). split.
    { apply commits_intro. unfold state_delete_ruleset_body. fold o. now rewrite Hm. }
    apply (tracked_ruleset_written o rs (mk_entry rs_del []) [] st). right. auto.
Qed.

(** X5: [_state_delete_ruleset].  A tracked ruleset with a local-only
    identifier is forgotten, and its organization with it when nothing
    else is tracked there; any other ruleset ends as [del] with no rule,
    unless it was [del] already with rules left, where the assertion
    fails.  Other rulesets are not touched. *)
Theorem state_delete_ruleset_marks (rs : string) (st : state_doc) :
let unchanged st' :=
  (forall rs', rs' <> rs -> tracked_ruleset o rs' st' = tracked_ruleset o rs' st) /\
  (forall o' rs', o' <> o -> tracked_ruleset o' rs' st' = tracked_ruleset o' rs' st) in
let deleted :=
  exists st', commits (_state_delete_ruleset self rs) st st' /\
              tracked_ruleset o rs st' = Some (mk_entry rs_del []) /\ unchanged st' in
match tracked_ruleset o rs st with
| Some e =>
    if endswith rs (_postfix self) then
      exists st', commits (_state_delete_ruleset self rs) st st' /\
                  tracked_ruleset o rs st' = None /\
                  Dict.get o (organizations st') <> Some [] /\ unchanged st'
    else if RulesetStatus_eqb (modified e) rs_del && negb (Dict.is_empty (ruleIds e)) then
      rejects (_state_delete_ruleset self rs) st AssertionError
    else deleted
| None => deleted
end.
Proof.
  exact (state_delete_ruleset_commits rs st).
Qed.

(** Where [_state_delete_rule] writes: one status of one ruleset. *)
Lemma tracked_rule_written rs r (md : RulesetStatus) (ids : Dict.t RuleStatus) m st :
Dict.get o (organizations st) = Some m \/ (Dict.get o (organizations st) = None /\ m = []) ->
let st' := set_org o (Dict.set rs (mk_entry md ids) m) st in
tracked_rule o rs r st' = Dict.get r ids /\
(forall rs', rs' <> rs -> tracked_ruleset o rs' st' = tracked_ruleset o rs' st) /\
(forall o' rs', o' <> o -> tracked_ruleset o' rs' st' = tracked_ruleset o' rs' st) /\
option_map modified (tracked_ruleset o rs st') = Some md.
Proof.
  intros Hm st'. destruct (tracked_ruleset_written o rs (mk_entry md ids) m st Hm)
    as [H1 [H2 H3]]. fold st' in H1, H2, H3.
  split; [|split; [exact H2 | split; [exact H3|]]].
  - rewrite tracked_rule_of_ruleset, H1. reflexivity.
  - now rewrite H1.
Qed.

(** What [_state_delete_rule] commits. *)
Lemma state_delete_rule_commits (rs r : string) (st : state_doc) :
exists st',
  commits (_state_delete_rule self rs r) st st' /\
  tracked_rule o rs r st' =
    match tracked_rule o rs r st with
    | Some _ => if endswith r (_postfix self) then None else Some st_del
    | None => Some st_del
    end /\
  (forall r', r' <> r -> tracked_rule o rs r' st' = tracked_rule o rs r' st) /\
  (forall rs', rs' <> rs -> tracked_ruleset o rs' st' = tracked_ruleset o rs' st) /\
  (forall o' rs', o' <> o -> tracked_ruleset o' rs' st' = tracked_ruleset o' rs' st) /\
  option_map modified (tracked_ruleset o rs st') =
    Some (match tracked_ruleset o rs st with Some e => modified e | None => rs_false end).
Proof.
  destruct (Dict.get o (organizations st)) as [m|] eqn:Hm.
  - assert (Htrs : forall rs', tracked_ruleset o rs' st = Dict.get rs' m).
    { intros rs'. unfold tracked_ruleset. now rewrite Hm. }
    destruct (Dict.get rs m) as [e|] eqn:He.
    + assert (Htr : forall r', tracked_rule o rs r' st = Dict.get r' (ruleIds e)).
      { intros r'. rewrite tracked_rule_of_ruleset, Htrs, He. reflexivity. }
      rewrite (Htrs rs), He, (Htr r).
      assert (Hgen : forall ids,
        state_delete_rule_body self rs r st
          = Done (set_org o (Dict.set rs (mk_entry (modified e) ids) m) st) ->
        (forall r', r' <> r -> Dict.get r' ids = Dict.get r' (ruleIds e)) ->
        forall v, Dict.get r ids = v ->
        exists st',
          commits (_state_delete_rule self rs r) st st' /\
          tracked_rule o rs r st' = v /\
          (forall r', r' <> r -> tracked_rule o rs r' st' = tracked_rule o rs r' st) /\
          (forall rs', rs' <> rs -> tracked_ruleset o rs' st' = tracked_ruleset o rs' st) /\
          (forall o' rs', o' <> o -> tracked_ruleset o' rs' st' = tracked_ruleset o' rs' st) /\
          option_map modified (tracked_ruleset o rs st') = Some (modified e)).
      { intros ids Hb Hother v Hv. eexists. split; [apply commits_intro; exact Hb|].
        destruct (tracked_rule_written rs r (modified e) ids m st (or_introl Hm))
          as [H1 [H2 [H3 H4]]].
        split; [now rewrite H1|]. split; [|split; [exact H2 | split; [exact H3 | exact H4]]].
        intros r' N.
        destruct (tracked_rule_written rs r' (modified e) ids m st (or_introl Hm))
          as [G1 _]. rewrite G1, Htr. now apply Hother. }
      destruct (Dict.get r (ruleIds e)) as [s|] eqn:Hr.
      * destruct (endswith r (_postfix self)) eqn:Hend.
        -- apply (Hgen (Dict.pop r (ruleIds e))).
           ++ unfold state_delete_rule_body. fold o. now rewrite Hm, He, Hr, Hend.
           ++ intros r' N. now apply get_pop_other.
           ++ apply get_pop_same.
        -- destruct (RuleStatus_eqb s st_del) eqn:Hs.
           ++ apply RuleStatus_eqb_eq in Hs. subst s. exists st. split.
              { apply commits_intro. unfold state_delete_rule_body. fold o.
                now rewrite Hm, He, Hr, Hend. }
              rewrite (Htr r), Hr, (Htrs rs), He. cbn [option_map].
              split; [reflexivity|]. split; [reflexivity|]. split; [reflexivity|].
              split; reflexivity.
           ++ apply (Hgen (Dict.set r st_del (ruleIds e))).
              ** unfold state_delete_rule_body. fold o. now rewrite Hm, He, Hr, Hend, Hs.
              ** intros r' N. now apply get_set_other.
              ** apply get_set_same.
      * apply (Hgen (Dict.set r st_del (ruleIds e))).
        -- unfold state_delete_rule_body. fold o. now rewrite Hm, He, Hr.
        -- intros r' N. now apply get_set_other.
        -- apply get_set_same.
    + assert (Htr : forall r', tracked_rule o rs r' st = None).
      { intros r'. rewrite tracked_rule_of_ruleset, Htrs, He. reflexivity. }
      rewrite (Htrs rs), He, (Htr r).
      eexists. split.
      { apply commits_intro. unfold state_delete_rule_body. fold o. rewrite Hm, He.
        reflexivity. }
      destruct (tracked_rule_written rs r rs_false [(r, st_del)] m st (or_introl Hm))
        as [H1 [H2 [H3 H4]]].
      split; [rewrite H1; simpl; now rewrite String.eqb_refl|].
      split; [|split; [exact H2 | split; [exact H3 | exact H4]]].
      intros r' N.
      destruct (tracked_rule_written rs r' rs_false [(r, st_del)] m st (or_introl Hm))
        as [G1 _]. rewrite G1, Htr. simpl.
      destruct (String.eqb r' r) eqn:E; [apply String.eqb_eq in E; contradiction | reflexivity].
  - assert (Htrs : forall rs', tracked_ruleset o rs' st = None).
    { intros rs'. unfold tracked_ruleset. now rewrite Hm. }
    assert (Htr : forall r', tracked_rule o rs r' st = None).
    { intros r'. rewrite tracked_rule_of_ruleset, Htrs. reflexivity. }
    rewrite (Htrs rs), (Htr r).
    exists (set_org o (Dict.set rs (mk_entry rs_false [(r, st_del)]) []) st). split.
    { apply commits_intro. unfold state_delete_rule_body. fold o. now rewrite Hm. }
    assert (Hor : Dict.get o (organizations st) = Some (@nil (string * ruleset_entry))
                  \/ (Dict.get o (organizations st) = None /\ @nil (string * ruleset_entry) = [])).
    { right. auto. }
    destruct (tracked_rule_written rs r rs_false [(r, st_del)] [] st Hor)
      as [H1 [H2 [H3 H4]]].
    split; [rewrite H1; simpl; now rewrite String.eqb_refl|].
    split; [|split; [exact H2 | split; [exact H3 | exact H4]]].
    intros r' N.
    destruct (tracked_rule_written rs r' rs_false [(r, st_del)] [] st Hor) as [G1 _].
    rewrite G1, Htr. simpl.
    destruct (String.eqb r' r) eqn:E; [apply String.eqb_eq in E; contradiction | reflexivity].
Qed.

(** X6: [_state_delete_rule] never raises.  A tracked rule with a
    local-only identifier is forgotten; any other rule ends as [del],
    tracked before or not; the other rules of the ruleset keep their
    status, the ruleset keeps its [modified], which is [false] when the
    entry had to be created, and other rulesets are not touched. *)
Theorem state_delete_rule_marks (rs r : string) (st : state_doc) :
exists st',
  commits (_state_delete_rule self rs r) st st' /\
  tracked_rule o rs r st' =
    match tracked_rule o rs r st with
    | Some _ => if endswith r (_postfix self) then None else Some st_del
    | None => Some st_del
    end /\
  (forall r', r' <> r -> tracked_rule o rs r' st' = tracked_rule o rs r' st) /\
  (forall rs', rs' <> rs -> tracked_ruleset o rs' st' = tracked_ruleset o rs' st) /\
  (forall o' rs', o' <> o -> tracked_ruleset o' rs' st' = tracked_ruleset o' rs' st) /\
  option_map modified (tracked_ruleset o rs st') =
    Some (match tracked_ruleset o rs st with Some e => modified e | None => rs_false end).
Proof.
  exact (state_delete_rule_commits rs r st).
Qed.

End RulePrimitives.

Section AddRuleFacts.
Variable self : State.

Let o : string := org_id self.

(** Every successful [_state_add_rule] wrote one status of one ruleset,
    whose entry it created with [modified = false] when it was missing. *)
Lemma state_add_rule_body_shape depth rs r endpoint st st' :
state_add_rule_body self (S (S depth)) rs r endpoint st = Done st' ->
exists m md ids,
  (Dict.get o (organizations st) = Some m \/ (Dict.get o (organizations st) = None /\ m = [])) /\
  st' = set_org o (Dict.set rs (mk_entry md ids) m) st /\
  md = match tracked_ruleset o rs st with Some e => modified e | None => rs_false end /\
  forall r', r' <> r -> Dict.get r' ids = tracked_rule o rs r' st.
Proof.
  intros H.
  destruct (Dict.get o (organizations st)) as [m|] eqn:Hm.
  - assert (Htrs : tracked_ruleset o rs st = Dict.get rs m).
    { unfold tracked_ruleset. now rewrite Hm. }
    assert (Htr : forall r', tracked_rule o rs r' st =
                 match Dict.get rs m with Some e => Dict.get r' (ruleIds e) | None => None end).
    { intros r'. now rewrite tracked_rule_of_ruleset, Htrs. }
    destruct (Dict.get rs m) as [e|] eqn:He.
    + rewrite (state_add_rule_body_tracked self _ rs r endpoint st m e Hm He) in H.
      destruct (Dict.get r (ruleIds e)) as [s|] eqn:Hr.
      * destruct (add_rule_status endpoint s) as [s'|]; [|discriminate].
        injection H as <-. exists m, (modified e), (Dict.set r s' (ruleIds e)).
        split; [now left|]. split; [reflexivity|]. split; [now rewrite Htrs|].
        intros r' N. rewrite Htr. now apply get_set_other.
      * injection H as <-. exists m, (modified e), (Dict.set r endpoint (ruleIds e)).
        split; [now left|]. split; [reflexivity|]. split; [now rewrite Htrs|].
        intros r' N. rewrite Htr. now apply get_set_other.
    + cbn [state_add_rule_body] in H. fold o in H. rewrite Hm, He in H.
      unfold state_add_ruleset_body in H. fold o in H. rewrite Hm, He in H.
      unfold set_org at 1 2 in H. cbn [organizations] in H.
      rewrite !get_set_same in H. cbn [ruleIds Dict.get modified] in H.
      injection H as <-. exists m, rs_false, (Dict.set r endpoint []).
      split; [now left|]. split.
      * unfold set_org. cbn [organizations workspace]. now rewrite !set_twice.
      * split; [now rewrite Htrs|]. intros r' N. rewrite Htr. simpl.
        destruct (String.eqb r' r) eqn:E; [apply String.eqb_eq in E; contradiction|reflexivity].
  - assert (Htrs : tracked_ruleset o rs st = None).
    { unfold tracked_ruleset. now rewrite Hm. }
    assert (Htr : forall r', tracked_rule o rs r' st = None).
    { intros r'. now rewrite tracked_rule_of_ruleset, Htrs. }
    cbn [state_add_rule_body] in H. fold o in H. rewrite Hm in H.
    unfold state_add_organization_body, Dict.mem in H. fold o in H. rewrite Hm in H.
    cbn [negb] in H.
    unfold state_add_ruleset_body, set_org in H. fold o in H. cbn [organizations] in H.
    rewrite !get_set_same in H.
    cbn [Dict.get Dict.set organizations ruleIds modified workspace] in H.
    rewrite !get_set_same in H. cbn [Dict.get ruleIds modified] in H.
    rewrite !String.eqb_refl in H. cbn [Dict.get ruleIds modified] in H.
    injection H as <-. exists [], rs_false, (Dict.set r endpoint []).
    split; [right; auto|]. split.
    + unfold set_org. cbn [organizations workspace Dict.set].
      rewrite !String.eqb_refl. now rewrite !set_twice.
    + split; [now rewrite Htrs|]. intros r' N. rewrite Htr. simpl.
      destruct (String.eqb r' r) eqn:E; [apply String.eqb_eq in E; contradiction|reflexivity].
Qed.

Lemma commits_body body st st' :
commits (fun state => with_state state body) st st' -> body st = Done st'.
Proof.
  intros [H _]. specialize (H (mk_world (Dir []) None [] [])).
  rewrite with_state_batch in H. destruct (body st); [now injection H as ->|discriminate].
Qed.

(** X7: [_state_add_rule] touches the status of its rule and nothing
    else: every other rule of every ruleset of every organization keeps
    its status, and every ruleset that was tracked stays tracked with the
    [modified] it had. *)
Theorem state_add_rule_frame (rs r : string) (endpoint : RuleStatus) (st st' : state_doc) :
commits (_state_add_rule self rs r endpoint) st st' ->
(forall r', r' <> r -> tracked_rule o rs r' st' = tracked_rule o rs r' st) /\
(forall rs', rs' <> rs -> tracked_ruleset o rs' st' = tracked_ruleset o rs' st) /\
(forall o' rs', o' <> o -> tracked_ruleset o' rs' st' = tracked_ruleset o' rs' st) /\
(forall e, tracked_ruleset o rs st = Some e ->
   option_map modified (tracked_ruleset o rs st') = Some (modified e)).
Proof.
  intros Hc. apply commits_body in Hc. unfold recursion_limit in Hc.
  change 1000 with (S (S 998)) in Hc.
  destruct (state_add_rule_body_shape _ _ _ _ _ _ Hc) as [m [md [ids [Hm [-> [Hmd Hids]]]]]].
  split; [|split; [|split]].
  - intros r' N.
    destruct (tracked_rule_written self rs r' md ids m st Hm) as [H1 _].
    fold o in H1. rewrite H1. now apply Hids.
  - apply (tracked_rule_written self rs r md ids m st Hm).
  - apply (tracked_rule_written self rs r md ids m st Hm).
  - intros e He.
    destruct (tracked_rule_written self rs r md ids m st Hm) as [_ [_ [_ H4]]].
    fold o in H4. rewrite H4, Hmd, He. reflexivity.
Qed.

(** X8: the calls of [_state_add_rule] to itself nest at most two deep:
    from depth two on the result is the same at every bound on the
    depth, and it is never the failure of the bound. *)
Theorem state_add_rule_nesting (depth : nat) (rs r : string) (endpoint : RuleStatus)
  (st : state_doc) :
state_add_rule_body self (S (S depth)) rs r endpoint st
  = state_add_rule_body self 2 rs r endpoint st /\
state_add_rule_body self (S (S depth)) rs r endpoint st <> Raise RecursionError.
Proof.
  destruct (tracked_ruleset o rs st) as [e|] eqn:Ht.
  - unfold tracked_ruleset in Ht. fold o in Ht.
    destruct (Dict.get o (organizations st)) as [m|] eqn:Hm; [|discriminate].
    rewrite !(state_add_rule_body_tracked self _ rs r endpoint st m e Hm Ht).
    split; [reflexivity|].
    destruct (Dict.get r (ruleIds e)) as [s|]; [|discriminate].
    destruct (add_rule_status endpoint s); discriminate.
  - assert (Hgen : forall d,
      state_add_rule_body self (S (S d)) rs r endpoint st =
      Done (set_org o (Dict.set rs (mk_entry rs_false [(r, endpoint)])
                         (match Dict.get o (organizations st) with Some m => m | None => [] end))
              st)).
    { intros d. destruct (state_add_rule_body self (S (S d)) rs r endpoint st) as [st'|x] eqn:E.
      - destruct (state_add_rule_body_shape _ _ _ _ _ _ E)
          as [m [md [ids [Hm [-> [Hmd Hids]]]]]].
        destruct (state_add_rule_body_untracked self d rs r endpoint st Ht) as [st2 [E2 T2]].
        rewrite E in E2. injection E2 as <-.
        destruct (tracked_ruleset_written o rs (mk_entry md ids) m st Hm) as [H1 _].
        fold o in T2. rewrite H1 in T2. injection T2 as -> ->.
        destruct Hm as [Hm | [Hm ->]]; rewrite Hm; reflexivity.
      - destruct (state_add_rule_body_untracked self d rs r endpoint st Ht) as [st2 [E2 _]].
        rewrite E in E2. discriminate. }
    rewrite (Hgen depth), (Hgen 0). split; [reflexivity | discriminate].
Qed.

(** X9: a rule that was deleted stays deleted.  After
    [_state_delete_rule] on a rule that does not bear the local-only
    suffix, or that was not tracked, [_state_add_rule] on it raises
    [ValueError] for every endpoint other than [del]. *)
Theorem deleted_rule_stays_deleted (rs r : string) (endpoint : RuleStatus) (st : state_doc) :
endswith r (_postfix self) = false \/ tracked_rule o rs r st = None ->
endpoint <> st_del ->
exists st',
  commits (_state_delete_rule self rs r) st st' /\
  tracked_rule o rs r st' = Some st_del /\
  rejects (_state_add_rule self rs r endpoint) st' ValueError.
Proof.
  intros Hr Hend.
  destruct (state_delete_rule_commits self rs r st) as [st' [Hc [Ht _]]]. fold o in Ht.
  assert (Hdel : tracked_rule o rs r st' = Some st_del).
  { rewrite Ht. destruct Hr as [Hr | Hr]; rewrite Hr; [|reflexivity].
    destruct (tracked_rule o rs r st); reflexivity. }
  exists st'. split; [exact Hc|]. split; [exact Hdel|].
  apply rejects_intro. unfold recursion_limit. change 1000 with (S 999).
  unfold tracked_rule, tracked_ruleset in Hdel. fold o in Hdel.
  destruct (Dict.get o (organizations st')) as [m|] eqn:Hm; [|discriminate].
  destruct (Dict.get rs m) as [e|] eqn:He; [|discriminate].
  rewrite (state_add_rule_body_tracked self _ rs r endpoint st' m e Hm He), Hdel.
  now rewrite (add_rule_status_del endpoint Hend).
Qed.

End AddRuleFacts.

(** ** What the reconcilers leave alone *)

Lemma keeps_status_of R (R_refl : forall w, R w w) rs r m : keeps R (status_of rs r m).
Proof.
  intros w. unfold status_of, bind, entry_of.
  destruct (Dict.get rs m) as [e|]; simpl; [|apply R_refl].
  destruct (Dict.get r (ruleIds e)); apply R_refl.
Qed.

Lemma keeps_set_status R (R_refl : forall w, R w w) rs r s m : keeps R (set_status rs r s m).
Proof.
  intros w. unfold set_status, bind, entry_of.
  destruct (Dict.get rs m) as [e|]; simpl; apply R_refl.
Qed.

Lemma keeps_pop_status R (R_refl : forall w, R w w) rs r m : keeps R (pop_status rs r m).
Proof.
  intros w. unfold pop_status, bind, entry_of.
  destruct (Dict.get rs m) as [e|]; simpl; [|apply R_refl].
  destruct (Dict.get r (ruleIds e)); apply R_refl.
Qed.

Lemma keeps_set_modified R (R_refl : forall w, R w w) rs a m : keeps R (set_modified rs a m).
Proof.
  intros w. unfold set_modified, bind, entry_of.
  destruct (Dict.get rs m) as [e|]; simpl; apply R_refl.
Qed.

Lemma keeps_id_of R (R_refl : forall w, R w w) r : keeps R (id_of r).
Proof. intros w. destruct r; apply R_refl. Qed.

Lemma keeps_read_state R (R_refl : forall w, R w w) : keeps R read_state.
Proof. intros w. unfold read_state. destruct (statefile w); apply R_refl. Qed.

Ltac keeps_core refl trans :=
  lazymatch goal with
  | |- keeps _ (ret _) => apply keeps_ret; apply refl
  | |- keeps _ (raise _) => apply keeps_raise; apply refl
  | |- keeps _ (lift _) => apply keeps_lift; apply refl
  | |- keeps _ get_disk => apply keeps_get_disk; apply refl
  | |- keeps _ read_state => apply keeps_read_state; apply refl
  | |- keeps _ (read_json _ _) => apply keeps_read_json; apply refl
  | |- keeps _ (read_ruleset_json _) => unfold read_ruleset_json
  | |- keeps _ (read_rule_json _) => unfold read_rule_json
  | |- keeps _ (read_tags_json _) => unfold read_tags_json
  | |- keeps _ (os_listdir _) => apply keeps_os_listdir; apply refl
  | |- keeps _ (os_path_isdir _) => apply keeps_os_path_isdir; apply refl
  | |- keeps _ (entry_of _ _) => apply keeps_entry_of; apply refl
  | |- keeps _ (status_of _ _ _) => apply keeps_status_of; apply refl
  | |- keeps _ (set_status _ _ _ _) => apply keeps_set_status; apply refl
  | |- keeps _ (pop_status _ _ _) => apply keeps_pop_status; apply refl
  | |- keeps _ (set_modified _ _ _) => apply keeps_set_modified; apply refl
  | |- keeps _ (id_of _) => apply keeps_id_of; apply refl
  | |- keeps _ (bind _ _) => apply keeps_bind; [apply trans | | intros ?]
  | |- keeps _ (try_except _ _ _) => apply keeps_try; [apply trans | | ]
  | |- keeps _ (for_each _ _) => apply keeps_for_each; [apply refl | apply trans | intros ?]
  | |- keeps _ (for_fold _ _ _) => apply keeps_for_fold; [apply refl | apply trans | intros ? ?]
  | |- keeps _ (any_of _ _) => apply keeps_any_of; [apply refl | apply trans | intros ?]
  | |- keeps _ (shutil_move _ _ _ _) => apply keeps_shutil_move; [apply refl | apply trans | | | ]
  | |- keeps _ (write_json _ _ _) => apply keeps_write_json; [apply refl | ]
  | |- keeps _ (os_mkdir _ _) => apply keeps_os_mkdir; [apply refl | ]
  | |- keeps _ (os_rmdir _ _) => apply keeps_os_rmdir; [apply refl | ]
  | |- keeps _ (shutil_rmtree _ _) => apply keeps_shutil_rmtree; [apply refl | ]
  | |- keeps _ (match ?x with _ => _ end) => destruct x
  end.

Ltac leaf_trace tr :=
  lazymatch goal with
  | |- keeps _ (logging _) => apply keeps_logging; apply tr
  | |- keeps _ (request _ _) => apply keeps_request; apply tr
  end.

(** For relations that do not look at the trace. *)
Ltac keeps_go refl trans tr := repeat first [keeps_core refl trans | leaf_trace tr].

(** *** The three relations *)

Lemma other_orgs_refl o w : other_orgs o w w.
Proof. intros o' q N. reflexivity. Qed.

Lemma other_orgs_trans o w1 w2 w3 : other_orgs o w1 w2 -> other_orgs o w2 w3 -> other_orgs o w1 w3.
Proof. intros H1 H2 o' q N. rewrite (H2 o' q N). now apply H1. Qed.

Lemma other_orgs_trace o w t : other_orgs o w (mk_world (disk w) (statefile w) (uuids w) t).
Proof. intros o' q N. reflexivity. Qed.

Lemma other_orgs_allows o p : allows (other_orgs o) (o :: p).
Proof.
  intros f w d' H o' q N. simpl.
  apply (modify_beside [] o o' p q f (disk w) d'); [congruence | exact H].
Qed.

Lemma beside_org_refl o w : beside_org o w w.
Proof. intros H. split; [exact H | intros o' q N; reflexivity]. Qed.

Lemma beside_org_trans o w1 w2 w3 : beside_org o w1 w2 -> beside_org o w2 w3 -> beside_org o w1 w3.
Proof.
  intros H1 H2 Hd. destruct (H1 Hd) as [Hd2 F1]. destruct (H2 Hd2) as [Hd3 F2].
  split; [exact Hd3|]. intros o' q N. rewrite (F2 o' q N). now apply F1.
Qed.

Lemma beside_org_trace o w t : beside_org o w (mk_world (disk w) (statefile w) (uuids w) t).
Proof. intros H. split; [exact H | intros o' q N; reflexivity]. Qed.

Lemma beside_org_allows o p : allows (beside_org o) (o :: p).
Proof.
  intros f w d' H Hd. split.
  - unfold with_disk. cbn [disk]. destruct p as [|x p].
    + destruct (modify_here [o] f _ _ H) as [kids [_ H2]]. now rewrite H2.
    + destruct (modify_above [o] x p f _ _ H) as [kids [c [c' [_ [_ [_ H4]]]]]].
      now rewrite H4.
  - apply (other_orgs_allows o p f w d' H).
Qed.

(** Moving something of organization [o] into the directory of [o]. *)
Lemma beside_org_move_in o p x : keeps (beside_org o) (shutil_move (o :: p) x [] o).
Proof.
  intros w. unfold shutil_move, bind at 1, get_disk.
  change ([] ++ [o]) with [o].
  destruct (Fs.lookup [o] (disk w)) as [[c|kids]|] eqn:Hl.
  - intros Hd. rewrite Hl in Hd. discriminate.
  - destruct (list_eq_dec string_dec ((o :: p) ++ [x]) [o]).
    + destruct (Fs.lookup ((o :: p) ++ [x]) (disk w)); apply beside_org_refl.
    + destruct (Dict.mem x kids); [apply beside_org_refl|].
      apply (keeps_rename (beside_org o) (beside_org_refl o) (beside_org_trans o)
               (o :: p) x [o] x (beside_org_allows o p) (beside_org_allows o []) w).
  - intros Hd. rewrite Hl in Hd. discriminate.
Qed.

Section Appended.
Variable P : event -> Prop.

Lemma appended_refl w : appended P w w.
Proof. exists []. split; [now rewrite app_nil_r | constructor]. Qed.

Lemma appended_trans w1 w2 w3 : appended P w1 w2 -> appended P w2 w3 -> appended P w1 w3.
Proof.
  intros [e1 [H1 F1]] [e2 [H2 F2]]. exists (e1 ++ e2). split.
  - now rewrite H2, H1, app_assoc.
  - apply Forall_app. auto.
Qed.

Lemma appended_allows dir : allows (appended P) dir.
Proof.
  intros f w d' _. exists []. split; [simpl; now rewrite app_nil_r | constructor].
Qed.

Lemma appended_logging m : P (Log m) -> keeps (appended P) (logging m).
Proof. intros H w. exists [Log m]. split; [reflexivity | now constructor]. Qed.

Lemma appended_request api c : (forall r, P (Api c r)) -> keeps (appended P) (request api c).
Proof.
  intros H w. exists [Api c (api (trace w) c)]. split.
  - unfold request. destruct (api (trace w) c); reflexivity.
  - constructor; [apply H | constructor].
Qed.

Lemma appended_write_state st : keeps (appended P) (write_state st).
Proof. intros w. exists []. split; [simpl; now rewrite app_nil_r | constructor]. Qed.

End Appended.

Ltac leaf_events :=
  lazymatch goal with
  | |- keeps _ (logging _) => apply appended_logging; exact I
  | |- keeps _ (request _ _) =>
      apply appended_request; intros ?; first [exact I | reflexivity]
  | |- keeps _ (write_state _) => apply appended_write_state
  end.

(** For the relation [appended P]. *)
Ltac keeps_events P :=
  repeat first [keeps_core (appended_refl P) (appended_trans P) | leaf_events].

Lemma keeps_write_state R (H : forall w st, R w (mk_world (disk w) (Some st) (uuids w) (trace w)))
  st : keeps R (write_state st).
Proof. intros w. apply H. Qed.

Lemma other_orgs_state o w st : other_orgs o w (mk_world (disk w) (Some st) (uuids w) (trace w)).
Proof. intros o' q N. reflexivity. Qed.

Lemma beside_org_state o w st : beside_org o w (mk_world (disk w) (Some st) (uuids w) (trace w)).
Proof. intros H. split; [exact H | intros o' q N; reflexivity]. Qed.

Lemma bind_cases {A B} (m : M A) (f : A -> M B) w :
(exists e w1, m w = Exc e w1 /\ bind m f w = Exc e w1) \/
(exists a w1, m w = Ok a w1 /\ bind m f w = f a w1).
Proof.
  unfold bind. destruct (m w) as [a w1|e w1]; [right | left]; eauto.
Qed.

Section PushFrames.
Variable api : list event -> call -> response.
Variable self : State.

Let o : string := org_id self.

Lemma push_ruleset_keeps_statefile rs m : keeps same_statefile (push_ruleset api self rs m).
Proof.
  unfold push_ruleset, push_localonly_ruleset, push_existing_ruleset, push_localonly_rule,
    push_tracked_rule.
  keeps_go same_statefile_refl same_statefile_trans same_statefile_trace.
  all: apply same_statefile_allows.
Qed.

(** X10: [push] for an organization that the state file does not track
    does nothing: no call, no record, no write, and the state file is
    not rewritten. *)
Theorem push_untracked_is_noop (w : world) (st : state_doc) :
statefile w = Some st ->
Dict.get o (organizations st) = None ->
push api self w = Ok tt w.
Proof.
  intros Hw Ho. unfold push, bind, read_state. fold o. rewrite Hw. now rewrite Ho.
Qed.

(** X11: [push] writes the state file once, at its end.  A run that
    raises leaves the state file as it was; a run that completes changes
    nothing in it but the entry of its own organization, which it never
    leaves empty. *)
Theorem push_statefile_frame (w : world) (st : state_doc) :
statefile w = Some st ->
match push api self w with
| Exc _ w' => statefile w' = Some st
| Ok _ w' =>
    exists st',
      statefile w' = Some st' /\
      workspace st' = workspace st /\
      (forall o', o' <> o -> Dict.get o' (organizations st') = Dict.get o' (organizations st)) /\
      Dict.get o (organizations st') <> Some []
end.
Proof.
  intros Hw. unfold push, bind at 1, read_state. rewrite Hw. fold o.
  destruct (Dict.get o (organizations st)) as [m|] eqn:Hm.
  - unfold bind.
    pose proof (keeps_for_fold same_statefile same_statefile_refl same_statefile_trans
                  (Dict.keys m) (push_ruleset api self) push_ruleset_keeps_statefile m w) as Hk.
    destruct (for_fold (Dict.keys m) (push_ruleset api self) m w) as [m' w1|e w1];
      simpl in Hk; unfold same_statefile in Hk.
    + unfold write_state. eexists. split; [reflexivity|].
      destruct (Dict.is_empty m') eqn:Hemp.
      * unfold pop_org. cbn [workspace organizations]. split; [reflexivity|]. split.
        -- intros o' N. now apply get_pop_other.
        -- rewrite get_pop_same. discriminate.
      * unfold set_org. cbn [workspace organizations]. split; [reflexivity|]. split.
        -- intros o' N. now apply get_set_other.
        -- rewrite get_set_same. intros H. injection H as ->. discriminate.
    + congruence.
  - exists st. unfold ret. split; [exact Hw|]. split; [reflexivity|].
    split; [reflexivity | rewrite Hm; discriminate].
Qed.

Lemma push_keeps_other_orgs : keeps (other_orgs o) (push api self).
Proof.
  unfold push, push_ruleset, push_localonly_ruleset, push_existing_ruleset,
    push_localonly_rule, push_tracked_rule, organization_dir. cbn [app]. fold o.
  repeat first
    [ keeps_core (other_orgs_refl o) (other_orgs_trans o)
    | leaf_trace (other_orgs_trace o)
    | apply keeps_write_state; intros; apply other_orgs_state ].
  all: apply other_orgs_allows.
Qed.


(** X13: [push] never reads from the platform: every call it makes is a
    POST, a PUT or a DELETE. *)
Theorem push_never_reads (w : world) :
appended writes_only w (final_world (push api self w)).
Proof.
  revert w. change (keeps (appended writes_only) (push api self)).
  unfold push, push_ruleset, push_localonly_ruleset, push_existing_ruleset,
    push_localonly_rule, push_tracked_rule.
  keeps_events writes_only.
  all: apply appended_allows.
Qed.

End PushFrames.

Section RefreshFrames.
Variable api : list event -> call -> response.
Variable self : State.

Let o : string := org_id self.

Lemma state_delete_organization_keeps R
  (R_refl : forall w, R w w) (R_trans : forall w1 w2 w3, R w1 w2 -> R w2 w3 -> R w1 w3)
  (R_state : forall w st, R w (mk_world (disk w) (Some st) (uuids w) (trace w)))
  org state :
keeps R (_state_delete_organization self org state).
Proof.
  unfold _state_delete_organization, with_state.
  destruct state;
    repeat first [keeps_core R_refl R_trans | apply keeps_write_state; exact R_state].
Qed.

(** X14: [refresh] stays inside the directory of its organization,
    when there is one and when the identifier of the organization and
    those the platform answers with are names of entries: the
    directories of all other organizations are as they were, however
    the run ends. *)
Theorem refresh_other_organizations (w : world) :
plain o = true ->
plain_api api ->
Fs.is_dir (Fs.lookup [o] (disk w)) = true ->
forall o' q, o' <> o ->
  Fs.lookup (o' :: q) (disk (final_world (refresh api self w))) = Fs.lookup (o' :: q) (disk w).
Proof.
  intros _ _ Hd.
  assert (H : keeps (beside_org o) (refresh api self)).
  { unfold refresh, refresh_stage, refresh_fetch, refresh_ruleset, refresh_restore,
      refresh_commit, organization_dir. cbn [app]. fold o.
    repeat first
      [ apply beside_org_move_in
      | apply state_delete_organization_keeps;
          [apply beside_org_refl | apply beside_org_trans | apply beside_org_state]
      | keeps_core (beside_org_refl o) (beside_org_trans o)
      | leaf_trace (beside_org_trace o) ].
    all: apply beside_org_allows. }
  apply (H w Hd).
Qed.

(** X15: [refresh] never writes to the platform: every call it makes is
    one of the three GET calls. *)
Theorem refresh_never_writes (w : world) :
appended reads_only w (final_world (refresh api self w)).
Proof.
  revert w. change (keeps (appended reads_only) (refresh api self)).
  unfold refresh, refresh_stage, refresh_fetch, refresh_ruleset, refresh_restore,
    refresh_commit, _state_delete_organization, with_state.
  keeps_events reads_only.
  all: apply appended_allows.
Qed.

Lemma refresh_commit_statefile (w : world) (st : state_doc) :
statefile w = Some st ->
match refresh_commit self w with
| Exc _ w' => statefile w' = Some st
| Ok _ w' =>
    exists st',
      statefile w' = Some st' /\
      commits (_state_delete_organization self (Some o)) st st'
end.
Proof.
  intros Hw. unfold refresh_commit.
  set (prefix := (names <- os_listdir (organization_dir self ++ [".remote"]) ;;
                  for_each names (fun ruleset =>
                    shutil_move (organization_dir self ++ [".remote"]) ruleset
                      (organization_dir self) ruleset) ;;;
                  shutil_rmtree (organization_dir self) ".backup" ;;;
                  shutil_rmtree (organization_dir self) ".remote")%py).
  assert (Hk : keeps same_statefile prefix).
  { unfold prefix.
    keeps_go same_statefile_refl same_statefile_trans same_statefile_trace.
    all: apply same_statefile_allows. }
  assert (Heq : forall w0,
    (names <- os_listdir (organization_dir self ++ [".remote"]) ;;
     for_each names (fun ruleset =>
       shutil_move (organization_dir self ++ [".remote"]) ruleset
         (organization_dir self) ruleset) ;;;
     shutil_rmtree (organization_dir self) ".backup" ;;;
     shutil_rmtree (organization_dir self) ".remote" ;;;
     _ <- _state_delete_organization self (Some (org_id self)) None ;;
     ret tt)%py w0
    = (prefix ;;; _ <- _state_delete_organization self (Some (org_id self)) None ;; ret tt)%py w0).
  { intros w0. unfold prefix, bind.
    destruct (os_listdir _ w0) as [names w1|e w1]; [|reflexivity].
    destruct (for_each _ _ w1) as [[] w2|e w2]; [|reflexivity].
    destruct (shutil_rmtree _ ".backup" w2) as [[] w3|e w3]; [|reflexivity].
    destruct (shutil_rmtree _ ".remote" w3) as [[] w4|e w4]; reflexivity. }
  rewrite Heq. unfold bind at 1. specialize (Hk w).
  destruct (prefix w) as [[] w1|e w1]; simpl in Hk; unfold same_statefile in Hk;
    [|congruence].
  assert (Hw1 : statefile w1 = Some st) by congruence.
  destruct (state_delete_organization_commits self (Some (org_id self)) st)
    as [st' [Hc _]].
  unfold bind. destruct Hc as [Hb Hcommit]. rewrite (Hcommit w1 Hw1).
  exists st'. split; [reflexivity|]. split; assumption.
Qed.

(** The state file across a [refresh]. *)
Lemma refresh_keeps_statefile (w : world) (st : state_doc) :
statefile w = Some st ->
statefile (final_world (refresh api self w)) = Some st \/
exists w' st',
  refresh api self w = Ok tt w' /\
  statefile w' = Some st' /\
  Dict.get o (organizations st') = None /\
  (forall o', o' <> o -> Dict.get o' (organizations st') = Dict.get o' (organizations st)) /\
  workspace st' = workspace st.
Proof.
  intros Hw. unfold refresh.
  assert (Hstage : keeps same_statefile (refresh_stage self)).
  { unfold refresh_stage.
    keeps_go same_statefile_refl same_statefile_trans same_statefile_trace.
    all: apply same_statefile_allows. }
  assert (Htry : keeps same_statefile
            (try_except (b <- refresh_fetch api self ;; ret (Some b))
               is_URLError_or_KeyboardInterrupt (refresh_restore self ;;; ret None))).
  { unfold refresh_fetch, refresh_ruleset, refresh_restore.
    keeps_go same_statefile_refl same_statefile_trans same_statefile_trace.
    all: apply same_statefile_allows. }
  specialize (Hstage w).
  destruct (refresh_stage self w) as [[] w1|e w1] eqn:E1; simpl in Hstage;
    unfold same_statefile in Hstage.
  2: { left. unfold bind. rewrite E1. simpl. congruence. }
  specialize (Htry w1).
  destruct (try_except (b <- refresh_fetch api self ;; ret (Some b))
              is_URLError_or_KeyboardInterrupt (refresh_restore self ;;; ret None) w1)
    as [r w2|e w2] eqn:E2; simpl in Htry; unfold same_statefile in Htry.
  2: { left. unfold bind at 1. rewrite E1. unfold bind at 1. rewrite E2. simpl. congruence. }
  assert (Hw2 : statefile w2 = Some st) by congruence.
  assert (Hrun : (refresh_stage self ;;;
                  r <- try_except (b <- refresh_fetch api self ;; ret (Some b))
                         is_URLError_or_KeyboardInterrupt (refresh_restore self ;;; ret None) ;;
                  match r with
                  | Some true => refresh_commit self
                  | Some false => ret tt
                  | None => ret tt
                  end)%py w
                 = match r with
                   | Some true => refresh_commit self w2
                   | _ => Ok tt w2
                   end).
  { unfold bind at 1. rewrite E1. unfold bind at 1. rewrite E2.
    destruct r as [[|]|]; reflexivity. }
  rewrite Hrun.
  destruct r as [[|]|]; try (left; simpl; exact Hw2).
  pose proof (refresh_commit_statefile w2 st Hw2) as Hc.
  destruct (refresh_commit self w2) as [[] w3|e w3]; [|left; exact Hc].
  destruct Hc as [st' [Hst' Hcommits]].
  right. exists w3, st'. split; [reflexivity|]. split; [exact Hst'|].
  destruct (state_delete_organization_commits self (Some (org_id self)) st)
    as [st2 [Hc2 [Hnone [Hother Hws]]]].
  assert (st2 = st').
  { destruct Hc2 as [Hb2 _]. destruct Hcommits as [Hb _].
    specialize (Hb w). specialize (Hb2 w). fold o in Hb2. rewrite Hb2 in Hb.
    now injection Hb. }
  subst st2. fold o in Hnone, Hother.
  assert (Ht : (if String.eqb o "" then o else o) = o) by (destruct (String.eqb o ""); reflexivity).
  rewrite Ht in Hnone, Hother. auto.
Qed.


End RefreshFrames.

(** ** [refresh], from the staging to the commit *)

Lemma lookup_child o x kids d :
Fs.lookup [o] d = Some (Dir kids) -> Fs.lookup [o; x] d = Dict.get x kids.
Proof.
  intros H. change [o; x] with ([o] ++ [x]). rewrite lookup_app, H. simpl.
  destruct (Dict.get x kids); reflexivity.
Qed.

Lemma lookup_grandchild o x y kids sub d :
Fs.lookup [o] d = Some (Dir kids) -> Dict.get x kids = Some (Dir sub) ->
Fs.lookup [o; x; y] d = Dict.get y sub.
Proof.
  intros H Hx. change [o; x; y] with ([o] ++ [x; y]). rewrite lookup_app, H. simpl.
  rewrite Hx. destruct (Dict.get y sub); reflexivity.
Qed.

Lemma staging_false x : staging x = false -> x <> ".backup" /\ x <> ".remote".
Proof.
  unfold staging. intros H. apply orb_false_elim in H. destruct H as [H1 H2].
  apply String.eqb_neq in H1. apply String.eqb_neq in H2. auto.
Qed.

Lemma staging_true x : staging x = true -> x = ".backup" \/ x = ".remote".
Proof.
  unfold staging. intros H. apply orb_true_elim in H.
  destruct H as [H|H]; apply String.eqb_eq in H; auto.
Qed.

Section RefreshStage.
Variable self : State.

Let o : string := org_id self.



End RefreshStage.

Section MoveOut.
Variable o : string.
Variable src : string.

(** The loops of [refresh] that move every entry of a staging directory
    up into the directory of the organization: each entry arrives under
    its name, and the staging directory loses it. *)
Lemma move_out_loop (l : list string) : forall w kids rem,
NoDup l ->
Fs.lookup [o] (disk w) = Some (Dir kids) ->
Dict.get src kids = Some (Dir rem) ->
(forall x, In x l -> x <> src /\ Dict.get x kids = None /\ Dict.get x rem <> None) ->
exists w' kids' rem',
  for_each l (fun x => shutil_move [o; src] x [o] x) w = Ok tt w' /\
  statefile w' = statefile w /\ trace w' = trace w /\
  Fs.lookup [o] (disk w') = Some (Dir kids') /\
  Dict.get src kids' = Some (Dir rem') /\
  (forall x, In x l -> Dict.get x kids' = Dict.get x rem /\ Dict.get x rem' = None) /\
  (forall x, ~ In x l -> Dict.get x rem' = Dict.get x rem) /\
  (forall x, ~ In x l -> x <> src -> Dict.get x kids' = Dict.get x kids) /\
  (forall o' q, o' <> o -> Fs.lookup (o' :: q) (disk w') = Fs.lookup (o' :: q) (disk w)).
Proof.
  induction l as [|x l IH]; intros w kids rem Hnd Hk Hs Hl.
  - exists w, kids, rem. simpl.
    split; [reflexivity|]. split; [reflexivity|]. split; [reflexivity|].
    split; [exact Hk|]. split; [exact Hs|].
    split; [intros ? []|]. split; [reflexivity|]. split; reflexivity.
  - inversion Hnd as [|? ? Hnotin Hnd']; subst.
    destruct (Hl x (or_introl eq_refl)) as [Nsrc [Hnone Hsome]].
    destruct (Dict.get x rem) as [node|] eqn:Hx; [|congruence]. clear Hsome.
    assert (Hrem : Fs.lookup [o; src] (disk w) = Some (Dir rem)).
    { rewrite (lookup_child o src kids _ Hk). exact Hs. }
    destruct (modify_total [o; src] (Dict.pop x) _ _ Hrem) as [d1 Hd1].
    destruct (modify_above [o] src [] _ _ _ Hd1) as [ks [c [c' [A1 [A2 [A3 A4]]]]]].
    rewrite Hk in A1. injection A1 as <-. rewrite Hs in A2. injection A2 as <-.
    simpl in A3. injection A3 as <-.
    destruct (modify_total [o] (Dict.set x node) _ _ A4) as [d2 Hd2].
    destruct (modify_here [o] _ _ _ Hd2) as [ks [B1 B2]].
    rewrite A4 in B1. injection B1 as <-.
    assert (Hmove : shutil_move [o; src] x [o] x w = Ok tt (with_disk w d2)).
    { apply shutil_move_run with (src := node) (d1 := d1).
      - change ([o; src] ++ [x]) with ([o] ++ [src; x]). rewrite lookup_app, Hk. simpl.
        now rewrite Hs, Hx.
      - change ([o] ++ [x]) with [o; x]. rewrite (lookup_child o x kids _ Hk). exact Hnone.
      - exact Hd1.
      - exact Hd2. }
    destruct (IH (with_disk w d2) _ (Dict.pop x rem) Hnd' B2) as
      [w' [kids' [rem' [I1 [I2 [I3 [I4 [I5 [I6 [I7 [I8 I9]]]]]]]]]]].
    + rewrite get_set_other by congruence. apply get_set_same.
    + intros y Hy. destruct (Hl y (or_intror Hy)) as [N1 [N2 N3]].
      assert (y <> x) by (intros ->; contradiction).
      split; [exact N1|]. split.
      * rewrite get_set_other by assumption. rewrite get_set_other by assumption. exact N2.
      * rewrite get_pop_other by assumption. exact N3.
    + exists w', kids', rem'. split.
      { simpl. unfold bind. rewrite Hmove. exact I1. }
      split; [exact I2|]. split; [exact I3|]. split; [exact I4|]. split; [exact I5|].
      split; [|split; [|split]].
      * intros y [<- | Hy].
        -- split.
           ++ rewrite (I8 x Hnotin Nsrc). rewrite get_set_same. now rewrite Hx.
           ++ rewrite (I7 x Hnotin). apply get_pop_same.
        -- assert (y <> x) by (intros ->; contradiction).
           destruct (I6 y Hy) as [J1 J2]. split; [|exact J2].
           rewrite J1. now apply get_pop_other.
      * intros y Hy. assert (y <> x) by (intros ->; apply Hy; now left).
        rewrite I7 by (intros Hin; apply Hy; now right). now apply get_pop_other.
      * intros y Hy Ny. assert (y <> x) by (intros ->; apply Hy; now left).
        rewrite I8 by (try assumption; intros Hin; apply Hy; now right).
        rewrite get_set_other by assumption. now apply get_set_other.
      * intros o' q N. rewrite (I9 o' q N). cbn [disk with_disk].
        transitivity (Fs.lookup (o' :: q) d1).
        -- exact (modify_beside [] o o' [] q _ d1 d2 (not_eq_sym N) Hd2).
        -- exact (modify_beside [] o o' [src] q _ (disk w) d1 (not_eq_sym N) Hd1).
Qed.

End MoveOut.

Section RefreshSuccess.
Variable api : list event -> call -> response.
Variable self : State.

Let o : string := org_id self.



End RefreshSuccess.

(** ** [refresh], from the staging to the restoring *)

Lemma os_mkdir_run dir name w kids :
Fs.lookup dir (disk w) = Some (Dir kids) ->
Dict.get name kids = None ->
exists d', Fs.modify dir (Dict.set name (Dir [])) (disk w) = Some d' /\
           os_mkdir dir name w = Ok tt (with_disk w d').
Proof.
  intros Hd Hn. destruct (modify_total dir (Dict.set name (Dir [])) _ _ Hd) as [d' Hm].
  exists d'. split; [exact Hm|].
  unfold os_mkdir, bind, get_disk. rewrite Hd. unfold Dict.mem. rewrite Hn.
  now apply modify_dir_run.
Qed.

Lemma os_rmdir_run dir name w kids :
Fs.lookup dir (disk w) = Some (Dir kids) ->
Dict.get name kids = Some (Dir []) ->
exists d', Fs.modify dir (Dict.pop name) (disk w) = Some d' /\
           os_rmdir dir name w = Ok tt (with_disk w d').
Proof.
  intros Hd Hn. destruct (modify_total dir (Dict.pop name) _ _ Hd) as [d' Hm].
  exists d'. split; [exact Hm|].
  unfold os_rmdir, bind, get_disk. rewrite lookup_app, Hd. simpl. rewrite Hn.
  now apply modify_dir_run.
Qed.

Section MoveIn.
Variable o : string.

(** The loop of [refresh] that moves the mirror into [.backup/], run
    forward: every entry but the staging directories arrives there under
    its name. *)
Lemma move_in_loop (l : list string) : forall w kids bk,
NoDup l ->
Fs.lookup [o] (disk w) = Some (Dir kids) ->
Dict.get ".backup" kids = Some (Dir bk) ->
NoDup (Dict.keys bk) ->
(forall x, In x l -> staging x = false -> Dict.get x kids <> None /\ Dict.get x bk = None) ->
exists w' kids' bk',
  for_each l (fun ruleset =>
    if negb (String.eqb ruleset ".backup") && negb (String.eqb ruleset ".remote")
    then shutil_move [o] ruleset [o; ".backup"] ruleset
    else ret tt) w = Ok tt w' /\
  statefile w' = statefile w /\ trace w' = trace w /\
  Fs.lookup [o] (disk w') = Some (Dir kids') /\
  Dict.get ".backup" kids' = Some (Dir bk') /\
  NoDup (Dict.keys bk') /\
  (forall x, In x l -> staging x = false ->
     Dict.get x kids' = None /\ Dict.get x bk' = Dict.get x kids) /\
  (forall x, ~ In x l \/ staging x = true -> x <> ".backup" ->
     Dict.get x kids' = Dict.get x kids) /\
  (forall x, ~ In x l \/ staging x = true -> Dict.get x bk' = Dict.get x bk).
Proof.
  induction l as [|x l IH]; intros w kids bk Hnd Hk Hb Hndb Hl.
  - exists w, kids, bk. simpl.
    split; [reflexivity|]. split; [reflexivity|]. split; [reflexivity|].
    split; [exact Hk|]. split; [exact Hb|]. split; [exact Hndb|].
    split; [intros ? []|]. split; reflexivity.
  - inversion Hnd as [|? ? Hnotin Hnd']; subst.
    destruct (staging x) eqn:Hsx.
    + (* a staging directory: skipped *)
      assert (Hskip : (negb (String.eqb x ".backup") && negb (String.eqb x ".remote")) = false).
      { unfold staging in Hsx. destruct (String.eqb x ".backup"); [reflexivity|].
        simpl in Hsx. now rewrite Hsx. }
      destruct (IH w kids bk Hnd' Hk Hb Hndb) as
        [w' [kids' [bk' [I1 [I2 [I3 [I4 [I5 [I6 [I7 [I8 I9]]]]]]]]]]].
      { intros y Hy. apply Hl. now right. }
      exists w', kids', bk'. split.
      { simpl. rewrite Hskip. unfold bind, ret. exact I1. }
      split; [exact I2|]. split; [exact I3|]. split; [exact I4|]. split; [exact I5|].
      split; [exact I6|]. split; [|split].
      * intros y [<- | Hy] Hs; [congruence | now apply I7].
      * intros y Hy N. apply I8; [|exact N].
        destruct Hy as [Hy|Hy]; [left; intros Hin; apply Hy; now right | now right].
      * intros y Hy. apply I9.
        destruct Hy as [Hy|Hy]; [left; intros Hin; apply Hy; now right | now right].
    + destruct (staging_false x Hsx) as [Nb Nr].
      assert (Hgo : (negb (String.eqb x ".backup") && negb (String.eqb x ".remote")) = true).
      { apply String.eqb_neq in Nb, Nr. now rewrite Nb, Nr. }
      destruct (Hl x (or_introl eq_refl) Hsx) as [Hsome Hnone].
      destruct (Dict.get x kids) as [node|] eqn:Hx; [|congruence]. clear Hsome.
      destruct (modify_total [o] (Dict.pop x) _ _ Hk) as [d1 Hd1].
      destruct (modify_here [o] _ _ _ Hd1) as [ks [A1 A2]].
      rewrite Hk in A1. injection A1 as <-.
      assert (Hb1 : Dict.get ".backup" (Dict.pop x kids) = Some (Dir bk)).
      { rewrite get_pop_other by congruence. exact Hb. }
      assert (Hbk1 : Fs.lookup [o; ".backup"] d1 = Some (Dir bk)).
      { rewrite (lookup_child o ".backup" _ _ A2). exact Hb1. }
      destruct (modify_total [o; ".backup"] (Dict.set x node) _ _ Hbk1) as [d2 Hd2].
      destruct (modify_above [o] ".backup" [] _ _ _ Hd2) as [ks [c [c' [B1 [B2 [B3 B4]]]]]].
      rewrite A2 in B1. injection B1 as <-. rewrite Hb1 in B2. injection B2 as <-.
      simpl in B3. injection B3 as <-.
      assert (Hmove : shutil_move [o] x [o; ".backup"] x w = Ok tt (with_disk w d2)).
      { apply shutil_move_run with (src := node) (d1 := d1).
        - change ([o] ++ [x]) with [o; x]. rewrite (lookup_child o x kids _ Hk). exact Hx.
        - change ([o; ".backup"] ++ [x]) with [o; ".backup"; x].
          rewrite (lookup_grandchild o ".backup" x kids bk _ Hk Hb). exact Hnone.
        - exact Hd1.
        - exact Hd2. }
      destruct (IH (with_disk w d2) _ (Dict.set x node bk) Hnd' B4) as
        [w' [kids' [bk' [I1 [I2 [I3 [I4 [I5 [I6 [I7 [I8 I9]]]]]]]]]]].
      * apply get_set_same.
      * now apply nodup_keys_set.
      * intros y Hy Hsy. destruct (Hl y (or_intror Hy) Hsy) as [N1 N2].
        assert (y <> x) by (intros ->; contradiction).
        destruct (staging_false y Hsy) as [Nyb _].
        split.
        -- rewrite get_set_other by assumption. now rewrite get_pop_other by assumption.
        -- now rewrite get_set_other by assumption.
      * exists w', kids', bk'. split.
        { simpl. rewrite Hgo. unfold bind. rewrite Hmove. exact I1. }
        split; [exact I2|]. split; [exact I3|]. split; [exact I4|]. split; [exact I5|].
        split; [exact I6|]. split; [|split].
        -- intros y [<- | Hy] Hsy.
           ++ split.
              ** rewrite (I8 x (or_introl Hnotin) Nb).
                 rewrite get_set_other by assumption. apply get_pop_same.
              ** rewrite (I9 x (or_introl Hnotin)). rewrite get_set_same. now rewrite Hx.
           ++ assert (y <> x) by (intros ->; contradiction).
              destruct (staging_false y Hsy) as [Nyb _].
              destruct (I7 y Hy Hsy) as [J1 J2]. split; [exact J1|].
              rewrite J2. rewrite get_set_other by assumption. now apply get_pop_other.
        -- intros y Hy N.
           assert (y <> x).
           { intros ->. destruct Hy as [Hy|Hy]; [apply Hy; now left | congruence]. }
           rewrite I8; [|destruct Hy as [Hy|Hy];
                          [left; intros Hin; apply Hy; now right | now right] | exact N].
           rewrite get_set_other by assumption. now apply get_pop_other.
        -- intros y Hy.
           assert (y <> x).
           { intros ->. destruct Hy as [Hy|Hy]; [apply Hy; now left | congruence]. }
           rewrite I9 by (destruct Hy as [Hy|Hy];
                          [left; intros Hin; apply Hy; now right | now right]).
           now apply get_set_other.
Qed.

End MoveIn.

Section RefreshRestore.
Variable api : list event -> call -> response.
Variable self : State.

Let o : string := org_id self.

(** The staging on a mirror without leftovers of a former run. *)
Lemma refresh_stage_run w kids0 :
Fs.lookup [o] (disk w) = Some (Dir kids0) ->
NoDup (Dict.keys kids0) ->
Dict.get ".backup" kids0 = None ->
Dict.get ".remote" kids0 = None ->
exists w1 kids1 bk1,
  refresh_stage self w = Ok tt w1 /\
  statefile w1 = statefile w /\ trace w1 = trace w /\
  Fs.lookup [o] (disk w1) = Some (Dir kids1) /\
  Dict.get ".backup" kids1 = Some (Dir bk1) /\
  Dict.get ".remote" kids1 = Some (Dir []) /\
  NoDup (Dict.keys bk1) /\
  (forall x, Dict.get x bk1 = Dict.get x kids0) /\
  (forall x, staging x = false -> Dict.get x kids1 = None).
Proof.
  intros Hk Hnd Hnb Hnr.
  destruct (os_mkdir_run [o] ".backup" w kids0 Hk Hnb) as [da [Ma Ra]].
  destruct (modify_here [o] _ _ _ Ma) as [ks [A1 A2]].
  rewrite Hk in A1. injection A1 as <-.
  set (kidsA := Dict.set ".backup" (Dir []) kids0) in *.
  assert (HnrA : Dict.get ".remote" kidsA = None).
  { unfold kidsA. rewrite get_set_other by discriminate. exact Hnr. }
  destruct (os_mkdir_run [o] ".remote" (with_disk w da) kidsA A2 HnrA) as [db [Mb Rb]].
  destruct (modify_here [o] _ _ _ Mb) as [ks [B1 B2]].
  simpl disk in B1. rewrite A2 in B1. injection B1 as <-.
  set (kidsB := Dict.set ".remote" (Dir []) kidsA) in *.
  set (wb := with_disk (with_disk w da) db) in *.
  assert (HkeysB : Dict.keys kidsB = Dict.keys kids0 ++ [".backup"; ".remote"]).
  { unfold kidsB, kidsA. rewrite keys_set_absent by exact HnrA.
    rewrite keys_set_absent by exact Hnb. now rewrite <- app_assoc. }
  assert (HndB : NoDup (Dict.keys kidsB)).
  { unfold kidsB, kidsA. apply nodup_keys_set. now apply nodup_keys_set. }
  assert (HbB : Dict.get ".backup" kidsB = Some (Dir [])).
  { unfold kidsB, kidsA. rewrite get_set_other by discriminate. apply get_set_same. }
  destruct (move_in_loop o (Dict.keys kidsB) wb kidsB [] HndB B2 HbB (NoDup_nil _))
    as [w1 [kids1 [bk1 [I1 [I2 [I3 [I4 [I5 [I6 [I7 [I8 I9]]]]]]]]]]].
  { intros x Hx Hs. split; [now apply get_in_keys | reflexivity]. }
  exists w1, kids1, bk1. split.
  { unfold refresh_stage, organization_dir. cbn [app]. fold o.
    unfold bind at 1. rewrite os_path_isdir_run.
    rewrite (lookup_child o ".remote" kids0 _ Hk), Hnr. cbn [Fs.is_dir].
    unfold bind at 1. unfold ret at 1.
    unfold bind at 1. rewrite os_path_isdir_run.
    rewrite (lookup_child o ".backup" kids0 _ Hk), Hnb. cbn [Fs.is_dir].
    unfold bind at 1. unfold ret at 1.
    unfold bind at 1. rewrite Ra.
    unfold bind at 1. rewrite Rb. fold wb.
    unfold bind at 1. rewrite (os_listdir_run [o] wb kidsB B2). exact I1. }
  split; [exact I2|]. split; [exact I3|]. split; [exact I4|]. split; [exact I5|].
  assert (Hkids0 : forall x, staging x = false -> Dict.get x kidsB = Dict.get x kids0).
  { intros x Hs. destruct (staging_false x Hs) as [N1 N2]. unfold kidsB, kidsA.
    now rewrite !get_set_other by assumption. }
  split; [|split; [exact I6 | split]].
  - rewrite (I8 ".remote" (or_intror eq_refl)) by discriminate. apply get_set_same.
  - intros x. destruct (staging x) eqn:Hs.
    + rewrite (I9 x (or_intror Hs)). simpl.
      destruct (staging_true x Hs) as [-> | ->]; congruence.
    + destruct (in_dec string_dec x (Dict.keys kidsB)) as [Hin|Hnin].
      * destruct (I7 x Hin Hs) as [_ J]. rewrite J. now apply Hkids0.
      * rewrite (I9 x (or_introl Hnin)). simpl. rewrite <- (Hkids0 x Hs).
        symmetry. now apply get_none_not_in.
  - intros x Hs. destruct (in_dec string_dec x (Dict.keys kidsB)) as [Hin|Hnin].
    + now destruct (I7 x Hin Hs).
    + destruct (staging_false x Hs) as [N1 N2].
      rewrite (I8 x (or_introl Hnin) N1). now apply get_none_not_in.
Qed.

(** X18: when the fetching of a [refresh] stops on [URLError] or on
    [KeyboardInterrupt], the mirror comes back, provided that the
    identifier of the organization and those the platform answers with
    are names of entries.  On a directory without leftovers of a former
    run the [refresh] completes, every entry of the organization's
    directory is what it was before, both staging directories are gone,
    the state file is as it was, and the last record of the log tells
    of the failure. *)
Theorem refresh_restores (w w2 : world) (kids0 : list (string * node)) (e : exn) :
plain o = true ->
plain_api api ->
Fs.lookup [o] (disk w) = Some (Dir kids0) ->
NoDup (Dict.keys kids0) ->
Dict.get ".backup" kids0 = None ->
Dict.get ".remote" kids0 = None ->
(refresh_stage self ;;; refresh_fetch api self)%py w = Exc e w2 ->
is_URLError_or_KeyboardInterrupt e = true ->
exists w',
  refresh api self w = Ok tt w' /\
  (forall x, Fs.lookup [o; x] (disk w') = Fs.lookup [o; x] (disk w)) /\
  statefile w' = statefile w /\
  trace w' = trace w2 ++ [Log (Could_not_refresh o)].
Proof.
  intros _ _ Hk Hnd Hnb Hnr Hrun He.
  destruct (refresh_stage_run w kids0 Hk Hnd Hnb Hnr)
    as [w1 [kids1 [bk1 [S1 [S2 [S3 [S4 [S5 [S6 [S7 [S8 S9]]]]]]]]]]].
  unfold bind in Hrun. rewrite S1 in Hrun.
  pose proof (refresh_fetch_keeps api self w1) as Hur. rewrite Hrun in Hur.
  destruct Hur as [Hs2 Hur]. simpl in Hs2.
  destruct (Hur kids1 [] S4 S6 (NoDup_nil _)) as [kids2 [r2 [U1 [U2 [U3 U4]]]]].
  simpl in U1.
  (* the except clause *)
  set (wl := mk_world (disk w2) (statefile w2) (uuids w2)
               (trace w2 ++ [Log (Could_not_refresh o)])).
  assert (Ul : Fs.lookup [o] (disk wl) = Some (Dir kids2)) by exact U1.
  destruct (shutil_rmtree_run [o] ".remote" wl kids2 r2 Ul U2) as [d3 [M3 R3]].
  destruct (modify_here [o] _ _ _ M3) as [ks [A1 A2]].
  rewrite Ul in A1. injection A1 as <-.
  set (kids3 := Dict.pop ".remote" kids2) in *.
  assert (Hb3 : Dict.get ".backup" kids3 = Some (Dir bk1)).
  { unfold kids3. rewrite get_pop_other by discriminate. rewrite U4 by discriminate.
    exact S5. }
  assert (Hnb1 : Dict.get ".backup" bk1 = None) by (rewrite S8; exact Hnb).
  assert (Hnr1 : Dict.get ".remote" bk1 = None) by (rewrite S8; exact Hnr).
  assert (Hcond : forall x, In x (Dict.keys bk1) ->
            x <> ".backup" /\ Dict.get x kids3 = None /\ Dict.get x bk1 <> None).
  { intros x Hx. apply get_in_keys in Hx.
    assert (N1 : x <> ".backup") by (intros ->; contradiction).
    assert (N2 : x <> ".remote") by (intros ->; contradiction).
    split; [exact N1|]. split; [|exact Hx].
    unfold kids3. rewrite get_pop_other by assumption. rewrite U4 by assumption.
    apply S9. unfold staging. apply String.eqb_neq in N1, N2. now rewrite N1, N2. }
  destruct (move_out_loop o ".backup" (Dict.keys bk1) (with_disk wl d3) kids3 bk1
              S7 A2 Hb3 Hcond)
    as [w4 [kids4 [rem4 [L1 [L2 [L3 [L4 [L5 [L6 [L7 [L8 L9]]]]]]]]]]].
  assert (rem4 = []).
  { apply all_none_empty. intros k.
    destruct (in_dec string_dec k (Dict.keys bk1)) as [Hin|Hnin].
    - now destruct (L6 k Hin).
    - rewrite (L7 k Hnin). now apply get_none_not_in. }
  subst rem4.
  destruct (os_rmdir_run [o] ".backup" w4 kids4 L4 L5) as [d5 [M5 R5]].
  destruct (modify_here [o] _ _ _ M5) as [ks [B1 B2]].
  rewrite L4 in B1. injection B1 as <-.
  exists (with_disk w4 d5). split.
  { unfold refresh. unfold bind at 1. rewrite S1.
    unfold bind at 1. unfold try_except. unfold bind at 1. rewrite Hrun. rewrite He.
    unfold refresh_restore, organization_dir. cbn [app]. fold o.
    unfold bind at 1. unfold bind at 1. unfold logging, emit. fold wl.
    unfold bind at 1. rewrite R3.
    unfold bind at 1.
    rewrite (os_listdir_run [o; ".backup"] (with_disk wl d3) bk1)
      by (simpl disk; rewrite (lookup_child o ".backup" kids3 _ A2); exact Hb3).
    unfold bind at 1. rewrite L1. rewrite R5. reflexivity. }
  split.
  { intros x. simpl disk. rewrite (lookup_child o x _ _ B2).
    rewrite (lookup_child o x kids0 _ Hk).
    destruct (string_dec x ".backup") as [->|N1]; [rewrite get_pop_same; now rewrite Hnb|].
    rewrite get_pop_other by assumption.
    destruct (in_dec string_dec x (Dict.keys bk1)) as [Hin|Hnin].
    - destruct (L6 x Hin) as [J _]. rewrite J. apply S8.
    - rewrite (L8 x Hnin N1). rewrite <- S8.
      replace (Dict.get x bk1) with (@None node) by (symmetry; now apply get_none_not_in).
      unfold kids3. destruct (string_dec x ".remote") as [->|N2]; [apply get_pop_same|].
      rewrite get_pop_other by assumption. rewrite U4 by assumption.
      apply S9. unfold staging. apply String.eqb_neq in N1, N2. now rewrite N1, N2. }
  split.
  { simpl. rewrite L2. simpl. congruence. }
  simpl. rewrite L3. reflexivity.
Qed.

End RefreshRestore.

(** ** The operations of the engine *)

Lemma returns_bind {A B} (Q : B -> Prop) (m : M A) (f : A -> M B) :
(forall a, returns Q (f a)) -> returns Q (bind m f).
Proof.
  intros H w b w' Hrun. apply bind_ok in Hrun. destruct Hrun as [a [w1 [_ H2]]].
  exact (H a w1 b w' H2).
Qed.

Lemma returns_ret {A} (Q : A -> Prop) (a : A) : Q a -> returns Q (ret a).
Proof. intros H w a' w' E. unfold ret in E. now injection E as <- _. Qed.

Lemma returns_raise {A} (Q : A -> Prop) (e : exn) : returns Q (@raise A e).
Proof. intros w a w' E. discriminate E. Qed.

Ltac returns_go :=
  repeat lazymatch goal with
  | |- returns _ (bind _ _) => apply returns_bind; intros ?
  | |- returns _ (ret _) => apply returns_ret; try exact I; try reflexivity
  | |- returns _ (raise _) => apply returns_raise
  | |- returns _ (match ?x with _ => _ end) => destruct x
  end.

Lemma locate_rule_returns (self : State) (rule_id : string) :
returns (rule_path self rule_id) (_locate_rule self rule_id).
Proof.
  unfold _locate_rule, organization_dir. apply returns_bind. intros names.
  induction names as [|ruleset l IH].
  - apply returns_ret. exact I.
  - apply returns_bind. intros rules. destruct (in_list rule_id rules).
    + apply returns_ret. simpl. eauto.
    + exact IH.
Qed.

Lemma locate_ruleset_returns (self : State) (ruleset_id : string) :
returns (fun located => match located with
                        | Some p => p = [org_id self; ruleset_id]
                        | None => True
                        end) (_locate_ruleset self ruleset_id).
Proof.
  unfold _locate_ruleset, organization_dir. apply returns_bind. intros names.
  destruct (in_list ruleset_id names); apply returns_ret; [reflexivity | exact I].
Qed.

Section EngineKeeps.
Variable R : world -> world -> Prop.
Hypothesis R_refl : forall w, R w w.
Hypothesis R_trans : forall w1 w2 w3, R w1 w2 -> R w2 w3 -> R w1 w3.
Hypothesis R_log : forall m, keeps R (logging m).
Hypothesis R_state : forall w st, R w (mk_world (disk w) (Some st) (uuids w) (trace w)).
Hypothesis R_uuids : forall w us, R w (mk_world (disk w) (statefile w) us (trace w)).

Variable api : list event -> call -> response.
Variable lazy_eval : bool.
Variable files : string -> option content.
Variable self : State.

Let o : string := org_id self.

Hypothesis R_disk : forall p, allows R (o :: p).
Hypothesis R_lazy : forall f : State -> M retval,
  keeps R (f self) -> returns (ret_self self) (f self) -> keeps R (lazy api lazy_eval f self).

Lemma keeps_bind_post {A B} (Q : A -> Prop) (m : M A) (f : A -> M B) :
returns Q m -> keeps R m -> (forall a, Q a -> keeps R (f a)) -> keeps R (bind m f).
Proof.
  intros Hq Hm Hf w. unfold bind. specialize (Hm w). specialize (Hq w).
  destruct (m w) as [a w1|e w1]; simpl in *; [|exact Hm].
  eapply R_trans; [exact Hm | apply Hf; now apply (Hq a w1)].
Qed.

Lemma keeps_with_state state body : keeps R (with_state state body).
Proof.
  unfold with_state.
  destruct state;
    repeat first [keeps_core R_refl R_trans | apply keeps_write_state; exact R_state].
Qed.

Lemma keeps_generate_id postfix taken : keeps R (generate_id postfix taken).
Proof.
  intros w. unfold generate_id.
  destruct (generate postfix taken (uuids w)) as [[id us]|]; apply R_uuids.
Qed.

Lemma keeps_uniquify bound occurs postfix :
(forall x, keeps R (occurs x)) -> forall name, keeps R (uniquify bound occurs postfix name).
Proof.
  intros H. induction bound as [|b IH]; intros name; simpl;
    (apply keeps_bind; [exact R_trans | apply H | intros [|]]).
  - apply keeps_raise. exact R_refl.
  - apply keeps_ret. exact R_refl.
  - apply IH.
  - apply keeps_ret. exact R_refl.
Qed.

Ltac step :=
  first [ keeps_core R_refl R_trans
        | apply R_log
        | apply keeps_with_state
        | apply keeps_generate_id
        | apply R_disk ].

Lemma keeps_locate_rule rule_id : keeps R (_locate_rule self rule_id).
Proof.
  unfold _locate_rule. apply keeps_bind; [exact R_trans | step | intros names].
  induction names as [|ruleset l IH]; [step|].
  apply keeps_bind; [exact R_trans | step | intros rules].
  destruct (in_list rule_id rules); [step | exact IH].
Qed.

Lemma keeps_locate_ruleset ruleset_id : keeps R (_locate_ruleset self ruleset_id).
Proof. unfold _locate_ruleset. repeat step. Qed.

Lemma keeps_rule_name_occurs name : keeps R (rule_name_occurs self name).
Proof. unfold rule_name_occurs. repeat step. Qed.

Lemma keeps_ruleset_name_occurs name : keeps R (ruleset_name_occurs self name).
Proof. unfold ruleset_name_occurs. repeat step. Qed.

Lemma keeps_count_rules : keeps R (count_rules self).
Proof. unfold count_rules. repeat step. Qed.

Lemma keeps_data_of {D} (as_dict : content -> option D) x : keeps R (data_of files as_dict x).
Proof. unfold data_of, read_json_arg. repeat step. Qed.

Lemma keeps_subscript {D} (x : pyobj D) : keeps R (subscript x).
Proof. unfold subscript. repeat step. Qed.

Lemma keeps_tags_payload x : keeps R (tags_payload x).
Proof. unfold tags_payload. repeat step. Qed.

Lemma keeps_as_id r : keeps R (as_id r).
Proof. unfold as_id. repeat step. Qed.

Lemma keeps_create_ruleset_inner d : keeps R (_create_ruleset self d).
Proof.
  unfold _create_ruleset, _state_add_ruleset, organization_dir. cbn [app]. fold o.
  repeat step.
Qed.

Lemma keeps_delete_ruleset_inner id : keeps R (_delete_ruleset self id).
Proof.
  unfold _delete_ruleset, _state_delete_ruleset, organization_dir. cbn [app]. fold o.
  repeat step.
Qed.

Lemma keeps_create_rule_inner rs d t : keeps R (_create_rule self rs d t).
Proof.
  unfold _create_rule, _state_add_rule, organization_dir. cbn [app]. fold o.
  repeat step.
Qed.

Lemma keeps_delete_rule_inner id : keeps R (_delete_rule self id).
Proof.
  unfold _delete_rule.
  apply (keeps_bind_post (rule_path self id));
    [apply locate_rule_returns | apply keeps_locate_rule | intros [p|] Hp].
  - destruct Hp as [rs ->]. unfold _state_delete_rule, organization_dir, second_to_last.
    cbn [app rev]. fold o. repeat step.
  - repeat step.
Qed.

Ltac op_step :=
  first [ step
        | apply keeps_locate_ruleset
        | apply keeps_count_rules
        | apply keeps_data_of
        | apply keeps_subscript
        | apply keeps_tags_payload
        | apply keeps_as_id
        | apply keeps_create_ruleset_inner
        | apply keeps_delete_ruleset_inner
        | apply keeps_create_rule_inner
        | apply keeps_delete_rule_inner
        | apply keeps_uniquify; intros ?;
            first [apply keeps_rule_name_occurs | apply keeps_ruleset_name_occurs] ].

Ltac located_rule id :=
  apply (keeps_bind_post (rule_path self id));
    [apply locate_rule_returns | apply keeps_locate_rule | intros [?p|] ?Hp];
    [ match goal with H : rule_path _ _ (Some _) |- _ => destruct H as [?rs ->] end;
      unfold organization_dir, second_to_last; cbn [app rev]; fold o
    | ].

Lemma keeps_create_ruleset_body d p : keeps R (create_ruleset_body files self d p).
Proof. unfold create_ruleset_body. repeat op_step. Qed.

Lemma keeps_create_rule_body rs d t p : keeps R (create_rule_body files self rs d t p).
Proof. unfold create_rule_body. repeat op_step. Qed.

Lemma keeps_create_tags_body id t : keeps R (create_tags_body self id t).
Proof.
  unfold create_tags_body, _state_add_rule. located_rule id; repeat op_step.
Qed.

Lemma keeps_copy_rule_body id rs p : keeps R (copy_rule_body self id rs p).
Proof.
  unfold copy_rule_body. located_rule id; repeat op_step.
Qed.

Lemma keeps_update_rule_body id d : keeps R (update_rule_body self id d).
Proof.
  unfold update_rule_body, _state_add_rule. located_rule id; repeat op_step.
Qed.

Lemma keeps_update_ruleset_body id d : keeps R (update_ruleset_body self id d).
Proof.
  unfold update_ruleset_body, _state_add_ruleset.
  apply (keeps_bind_post _ _ _ (locate_ruleset_returns self id));
    [apply keeps_locate_ruleset | intros [p|] Hp]; [subst p; fold o|]; repeat op_step.
Qed.

Lemma keeps_delete_rule_body id : keeps R (delete_rule_body self id).
Proof. unfold delete_rule_body. repeat op_step. Qed.

Lemma keeps_delete_ruleset_body id : keeps R (delete_ruleset_body self id).
Proof. unfold delete_ruleset_body. repeat op_step. Qed.

(** The wrapped methods. *)

Lemma keeps_create_ruleset d p : keeps R (create_ruleset api lazy_eval files self d p).
Proof.
  unfold create_ruleset. apply R_lazy; cbv beta;
    [apply keeps_create_ruleset_body | unfold create_ruleset_body; returns_go].
Qed.

Lemma keeps_create_rule rs d t p : keeps R (create_rule api lazy_eval files self rs d t p).
Proof.
  unfold create_rule. apply R_lazy; cbv beta;
    [apply keeps_create_rule_body | unfold create_rule_body; returns_go].
Qed.

Lemma keeps_create_tags id t : keeps R (create_tags api lazy_eval self id t).
Proof.
  unfold create_tags. apply R_lazy; cbv beta;
    [apply keeps_create_tags_body | unfold create_tags_body; returns_go].
Qed.

Lemma keeps_copy_rule id rs p : keeps R (copy_rule api lazy_eval self id rs p).
Proof.
  unfold copy_rule. apply R_lazy; cbv beta;
    [apply keeps_copy_rule_body | unfold copy_rule_body; returns_go].
Qed.

Lemma keeps_update_rule id d : keeps R (update_rule api lazy_eval self id d).
Proof.
  unfold update_rule. apply R_lazy; cbv beta;
    [apply keeps_update_rule_body | unfold update_rule_body; returns_go].
Qed.

Lemma keeps_update_ruleset id d : keeps R (update_ruleset api lazy_eval self id d).
Proof.
  unfold update_ruleset. apply R_lazy; cbv beta;
    [apply keeps_update_ruleset_body | unfold update_ruleset_body; returns_go].
Qed.

Lemma keeps_delete_rule id : keeps R (delete_rule_op api lazy_eval self id).
Proof.
  unfold delete_rule_op. apply R_lazy; cbv beta;
    [apply keeps_delete_rule_body | unfold delete_rule_body; returns_go].
Qed.

Lemma keeps_delete_ruleset id : keeps R (delete_ruleset_op api lazy_eval self id).
Proof.
  unfold delete_ruleset_op. apply R_lazy; cbv beta;
    [apply keeps_delete_ruleset_body | unfold delete_ruleset_body; returns_go].
Qed.

Lemma keeps_copy_rules dir id : keeps R (copy_rules api lazy_eval files self dir id).
Proof.
  unfold copy_rules.
  repeat first [apply keeps_create_rule | apply keeps_create_tags | op_step].
Qed.

Lemma keeps_copy_into id p dir : keeps R (copy_into api lazy_eval files self self id p dir).
Proof.
  unfold copy_into, organization_dir. cbn [app]. fold o.
  repeat first [apply keeps_create_ruleset | apply keeps_copy_rules | op_step].
Qed.

Lemma keeps_copy_ruleset id p : keeps R (copy_ruleset api lazy_eval files self id p).
Proof.
  unfold copy_ruleset. apply R_lazy; cbv beta.
  - repeat first [apply keeps_copy_into | op_step].
  - unfold copy_into. returns_go.
Qed.

End EngineKeeps.

Section EngineFrames.
Variable api : list event -> call -> response.
Variable files : string -> option content.
Variable self : State.

Lemma offline_lazy (f : State -> M retval) :
keeps (appended offline) (f self) -> returns (ret_self self) (f self) ->
keeps (appended offline) (lazy api true f self).
Proof. intros H _. now rewrite lazy_when_lazy. Qed.

Lemma offline_logging m : keeps (appended offline) (logging m).
Proof. apply appended_logging. reflexivity. Qed.

Lemma offline_state w st :
appended offline w (mk_world (disk w) (Some st) (uuids w) (trace w)).
Proof. exists []. split; [simpl; now rewrite app_nil_r | constructor]. Qed.

Lemma offline_uuids w us :
appended offline w (mk_world (disk w) (statefile w) us (trace w)).
Proof. exists []. split; [simpl; now rewrite app_nil_r | constructor]. Qed.

Lemma other_orgs_uuids o w us :
other_orgs o w (mk_world (disk w) (statefile w) us (trace w)).
Proof. intros o' q N. reflexivity. Qed.

Lemma other_orgs_lazy lazy_eval (f : State -> M retval) :
keeps (other_orgs (org_id self)) (f self) -> returns (ret_self self) (f self) ->
keeps (other_orgs (org_id self)) (lazy api lazy_eval f self).
Proof.
  intros Hk Hr. destruct lazy_eval; [now rewrite lazy_when_lazy|].
  intros w. rewrite lazy_when_eager.
  set (w0 := final_world (logging Pushing_changes w)).
  assert (H0 : other_orgs (org_id self) w w0) by apply other_orgs_trace.
  pose proof (Hk w0) as H1. pose proof (Hr w0) as H2.
  destruct (f self w0) as [[| r |s] w1|e w1]; simpl in H1 |- *;
    try (eapply other_orgs_trans; [exact H0 | exact H1]).
  specialize (H2 _ _ eq_refl). simpl in H2. subst s.
  pose proof (push_keeps_other_orgs api self w1) as H3.
  destruct (push api self w1) as [[] w2|e w2]; simpl in H3 |- *;
    (eapply other_orgs_trans; [exact H0 | eapply other_orgs_trans; [exact H1 | exact H3]]).
Qed.

(** X19: in lazy mode the operations on the rules and rulesets of an
    organization make no call of the platform: whatever their arguments
    and however they end, the trace grows by log records only. *)
Theorem lazy_operations_are_offline
  (ruleset_id rule_id : string) (postfix : option string)
  (ruleset_doc : pyobj ruleset_data) (rule_doc : pyobj rule_data) (tags_doc : pyobj string)
  (ruleset : ruleset_data) (rule : rule_data) (tags : tags_data) :
keeps (appended offline) (create_ruleset api true files self ruleset_doc postfix) /\
keeps (appended offline) (create_rule api true files self ruleset_id rule_doc tags_doc postfix) /\
keeps (appended offline) (create_tags api true self rule_id tags) /\
keeps (appended offline) (copy_rule api true self rule_id ruleset_id postfix) /\
keeps (appended offline) (copy_ruleset api true files self ruleset_id postfix) /\
keeps (appended offline) (update_rule api true self rule_id rule) /\
keeps (appended offline) (update_ruleset api true self ruleset_id ruleset) /\
keeps (appended offline) (delete_rule_op api true self rule_id) /\
keeps (appended offline) (delete_ruleset_op api true self ruleset_id).
Proof.
  pose proof (appended_refl offline) as Hr.
  pose proof (appended_trans offline) as Ht.
  pose proof (fun p => appended_allows offline (org_id self :: p)) as Hd.
  repeat split.
  - apply keeps_create_ruleset; auto using offline_logging, offline_state, offline_uuids, offline_lazy.
  - apply keeps_create_rule; auto using offline_logging, offline_state, offline_uuids, offline_lazy.
  - apply keeps_create_tags; auto using offline_logging, offline_state, offline_uuids, offline_lazy.
  - apply keeps_copy_rule; auto using offline_logging, offline_state, offline_uuids, offline_lazy.
  - apply keeps_copy_ruleset; auto using offline_logging, offline_state, offline_uuids, offline_lazy.
  - apply keeps_update_rule; auto using offline_logging, offline_state, offline_uuids, offline_lazy.
  - apply keeps_update_ruleset; auto using offline_logging, offline_state, offline_uuids, offline_lazy.
  - apply keeps_delete_rule; auto using offline_logging, offline_state, offline_uuids, offline_lazy.
  - apply keeps_delete_ruleset; auto using offline_logging, offline_state, offline_uuids, offline_lazy.
Qed.

(** X20: in lazy mode the same operations stay inside the directory of
    their organization, as long as the identifiers they build their
    paths from are names of entries: the one of the organization, the
    ruleset identifier the caller gives, and those that [uuid4] and the
    postfix make.  The directories of all other organizations are then
    as they were, whatever the other arguments and however the call
    ends. *)
Theorem operations_other_organizations (w : world)
  (ruleset_id rule_id : string) (postfix : option string)
  (ruleset_doc : pyobj ruleset_data) (rule_doc : pyobj rule_data) (tags_doc : pyobj string)
  (ruleset : ruleset_data) (rule : rule_data) (tags : tags_data) :
plain (org_id self) = true ->
plain ruleset_id = true ->
plain_supply (_postfix self) w ->
let stays {A} (m : M A) := other_orgs (org_id self) w (final_world (m w)) in
stays (create_ruleset api true files self ruleset_doc postfix) /\
stays (create_rule api true files self ruleset_id rule_doc tags_doc postfix) /\
stays (create_tags api true self rule_id tags) /\
stays (copy_rule api true self rule_id ruleset_id postfix) /\
stays (copy_ruleset api true files self ruleset_id postfix) /\
stays (update_rule api true self rule_id rule) /\
stays (update_ruleset api true self ruleset_id ruleset) /\
stays (delete_rule_op api true self rule_id) /\
stays (delete_ruleset_op api true self ruleset_id).
Proof.
  intros _ _ _ stays. subst stays. cbv beta.
  pose proof (other_orgs_refl (org_id self)) as Hr.
  pose proof (other_orgs_trans (org_id self)) as Ht.
  pose proof (other_orgs_allows (org_id self)) as Hd.
  assert (Hl : forall m, keeps (other_orgs (org_id self)) (logging m)).
  { intros m. apply keeps_logging. apply other_orgs_trace. }
  repeat split.
  - refine ((_ : keeps (other_orgs (org_id self)) _) w).
    apply keeps_create_ruleset; auto using other_orgs_state, other_orgs_uuids, other_orgs_lazy.
  - refine ((_ : keeps (other_orgs (org_id self)) _) w).
    apply keeps_create_rule; auto using other_orgs_state, other_orgs_uuids, other_orgs_lazy.
  - refine ((_ : keeps (other_orgs (org_id self)) _) w).
    apply keeps_create_tags; auto using other_orgs_state, other_orgs_uuids, other_orgs_lazy.
  - refine ((_ : keeps (other_orgs (org_id self)) _) w).
    apply keeps_copy_rule; auto using other_orgs_state, other_orgs_uuids, other_orgs_lazy.
  - refine ((_ : keeps (other_orgs (org_id self)) _) w).
    apply keeps_copy_ruleset; auto using other_orgs_state, other_orgs_uuids, other_orgs_lazy.
  - refine ((_ : keeps (other_orgs (org_id self)) _) w).
    apply keeps_update_rule; auto using other_orgs_state, other_orgs_uuids, other_orgs_lazy.
  - refine ((_ : keeps (other_orgs (org_id self)) _) w).
    apply keeps_update_ruleset; auto using other_orgs_state, other_orgs_uuids, other_orgs_lazy.
  - refine ((_ : keeps (other_orgs (org_id self)) _) w).
    apply keeps_delete_rule; auto using other_orgs_state, other_orgs_uuids, other_orgs_lazy.
  - refine ((_ : keeps (other_orgs (org_id self)) _) w).
    apply keeps_delete_ruleset; auto using other_orgs_state, other_orgs_uuids, other_orgs_lazy.
Qed.

End EngineFrames.

(** ** The identifiers of [uuid4] *)

Lemma length_append (s t : string) :
String.length (String.append s t) = (String.length s + String.length t)%nat.
Proof. induction s as [|a s IH]; simpl; [reflexivity | now rewrite IH]. Qed.

Lemma substring_all (s : string) : substring 0 (String.length s) s = s.
Proof. induction s as [|a s IH]; simpl; [reflexivity | now rewrite IH]. Qed.

Lemma substring_append (s t : string) :
substring (String.length s) (String.length t) (String.append s t) = t.
Proof. induction s as [|a s IH]; simpl; [apply substring_all | exact IH]. Qed.

Lemma endswith_append (s t : string) : endswith (String.append s t) t = true.
Proof.
  unfold endswith. rewrite length_append.
  replace (String.length s + String.length t - String.length t)%nat with (String.length s)
    by lia.
  rewrite substring_append, String.eqb_refl.
  replace (String.length t <=? String.length s + String.length t)%nat with true;
    [reflexivity|].
  symmetry. apply Nat.leb_le. lia.
Qed.

Lemma generate_some postfix taken : forall us,
(exists u, In u us /\ in_list (String.append u postfix) taken = false) ->
exists skipped u rest,
  generate postfix taken us = Some (String.append u postfix, rest) /\
  us = skipped ++ u :: rest /\
  in_list (String.append u postfix) taken = false /\
  (forall v, In v skipped -> in_list (String.append v postfix) taken = true).
Proof.
  induction us as [|u0 us IH]; intros [u [Hin Hfree]]; [destruct Hin|].
  simpl. destruct (in_list (String.append u0 postfix) taken) eqn:E.
  - destruct Hin as [->|Hin]; [congruence|].
    destruct (IH (ex_intro _ u (conj Hin Hfree))) as [sk [u1 [rest [H1 [H2 [H3 H4]]]]]].
    exists (u0 :: sk), u1, rest. split; [exact H1|]. split; [now rewrite H2|].
    split; [exact H3|]. intros v [<-|Hv]; [exact E | now apply H4].
  - exists [], u0, us. split; [reflexivity|]. split; [reflexivity|].
    split; [exact E|]. intros v [].
Qed.

(** X21: the loop that draws a local identifier ends as soon as [uuid4]
    gives one that is free.  The identifier is then the first free one of
    the supply with the suffix of the organization appended, so it bears
    the local-only suffix and is not among the names taken; nothing but
    the supply of identifiers has changed. *)
Theorem generate_id_fresh (postfix : string) (taken : list string) (w : world) :
(exists u, In u (uuids w) /\ in_list (String.append u postfix) taken = false) ->
exists skipped u rest,
  generate_id postfix taken w
    = Ok (String.append u postfix) (mk_world (disk w) (statefile w) rest (trace w)) /\
  uuids w = skipped ++ u :: rest /\
  in_list (String.append u postfix) taken = false /\
  endswith (String.append u postfix) postfix = true /\
  (forall v, In v skipped -> in_list (String.append v postfix) taken = true).
Proof.
  intros H. destruct (generate_some postfix taken (uuids w) H)
    as [sk [u [rest [H1 [H2 [H3 H4]]]]]].
  exists sk, u, rest. unfold generate_id. rewrite H1.
  split; [reflexivity|]. split; [exact H2|]. split; [exact H3|].
  split; [apply endswith_append | exact H4].
Qed.

(** ** The loops that make a name unique *)

Lemma unchanged_refl w : unchanged w w.
Proof. reflexivity. Qed.

Lemma unchanged_trans w1 w2 w3 : unchanged w1 w2 -> unchanged w2 w3 -> unchanged w1 w3.
Proof. unfold unchanged. congruence. Qed.

Lemma any_of_true (test : string -> M bool) (w : world) :
(forall x, keeps unchanged (test x)) ->
forall l w', any_of l test w = Ok true w' -> exists x, In x l /\ test x w = Ok true w.
Proof.
  intros Hp. induction l as [|x l IH]; intros w' H; simpl in H; [discriminate|].
  unfold bind in H. pose proof (Hp x w) as Hx.
  destruct (test x w) as [[|] w1|e w1] eqn:E; simpl in Hx; unfold unchanged in Hx; subst;
    try discriminate.
  - exists x. split; [now left | exact E].
  - destruct (IH _ H) as [y [Hy Hrun]]. exists y. split; [now right | exact Hrun].
Qed.

Section Uniquify.
Variable occurs : string -> M bool.
Variable pool : list string.
Variable postfix : string.
Variable w : world.
Hypothesis occurs_pure : forall x, keeps unchanged (occurs x).
Hypothesis occurs_pool : forall x, occurs x w = Ok true w -> In x pool.
Hypothesis postfix_nonempty : postfix <> "".

Lemma uniquify_ends : forall bound seen name,
NoDup seen -> incl seen pool ->
(forall s, In s seen -> (String.length s < String.length name)%nat) ->
(length pool <= length seen + bound)%nat ->
exists k, (k <= bound)%nat /\
  (forall j, (j < k)%nat -> occurs (lengthen j postfix name) w = Ok true w) /\
  ((uniquify bound occurs postfix name w = Ok (lengthen k postfix name) w /\
    occurs (lengthen k postfix name) w = Ok false w) \/
   (exists e, uniquify bound occurs postfix name w = Exc e w /\
              occurs (lengthen k postfix name) w = Exc e w)).
Proof.
  induction bound as [|b IH]; intros seen name Hnd Hincl Hlen Hsize.
  - simpl. unfold bind. pose proof (occurs_pure name w) as Hp.
    destruct (occurs name w) as [[|] w1|e w1] eqn:E; simpl in Hp; unfold unchanged in Hp;
      subst w1.
    + exfalso. assert (Hin : In name pool) by now apply occurs_pool.
      assert (Hnd' : NoDup (name :: seen)).
      { constructor; [|exact Hnd]. intros Hs. apply Hlen in Hs. lia. }
      assert (Hincl' : incl (name :: seen) pool).
      { intros x [<-|Hx]; [exact Hin | now apply Hincl]. }
      pose proof (NoDup_incl_length Hnd' Hincl') as Hl. simpl in Hl. lia.
    + exists 0%nat. split; [lia|]. split; [intros j Hj; lia|]. left. simpl. auto.
    + exists 0%nat. split; [lia|]. split; [intros j Hj; lia|]. right. exists e. simpl. auto.
  - simpl. unfold bind. pose proof (occurs_pure name w) as Hp.
    destruct (occurs name w) as [[|] w1|e w1] eqn:E; simpl in Hp; unfold unchanged in Hp;
      subst w1.
    + assert (Hin : In name pool) by now apply occurs_pool.
      assert (Hnd' : NoDup (name :: seen)).
      { constructor; [|exact Hnd]. intros Hs. apply Hlen in Hs. lia. }
      assert (Hincl' : incl (name :: seen) pool).
      { intros x [<-|Hx]; [exact Hin | now apply Hincl]. }
      assert (Hgrow : (String.length name < String.length (String.append name postfix))%nat).
      { rewrite length_append. destruct postfix; [contradiction|]. simpl. lia. }
      destruct (IH (name :: seen) (String.append name postfix) Hnd' Hincl') as [k [Hk [Hj Hend]]].
      * intros s [<-|Hs]; [exact Hgrow | apply Hlen in Hs; lia].
      * simpl. lia.
      * exists (S k). split; [lia|]. split.
        -- intros [|j] Hlt; [exact E | apply Hj; lia].
        -- exact Hend.
    + exists 0%nat. split; [lia|]. split; [intros j Hj; lia|]. left. simpl. auto.
    + exists 0%nat. split; [lia|]. split; [intros j Hj; lia|]. right. exists e. simpl. auto.
Qed.

End Uniquify.

Section NameLoops.
Variable self : State.

Let o : string := org_id self.

Lemma ruleset_name_occurs_pure x : keeps unchanged (ruleset_name_occurs self x).
Proof. apply keeps_ruleset_name_occurs; [exact unchanged_refl | exact unchanged_trans]. Qed.

Lemma ruleset_name_occurs_pool w kids x :
Fs.lookup [o] (disk w) = Some (Dir kids) ->
ruleset_name_occurs self x w = Ok true w -> In x (ruleset_names kids).
Proof.
  intros Hk H. unfold ruleset_name_occurs, organization_dir in H. fold o in H.
  rewrite (bind_run _ _ _ _ _ (os_listdir_run [o] w kids Hk)) in H.
  apply any_of_true in H.
  - destruct H as [ruleset [Hin H]]. apply bind_ok in H.
    destruct H as [d [w1 [H1 H2]]]. unfold ret in H2. injection H2 as H2 _.
    unfold read_ruleset_json in H1. apply bind_ok in H1.
    destruct H1 as [c [w2 [H1 H3]]]. apply read_json_ok in H1. destruct H1 as [H1 ->].
    destruct c as [d0| |]; try discriminate. unfold ret in H3. injection H3 as -> _.
    cbn [app] in H1. simpl in H1.
    unfold ruleset_names. apply in_flat_map. exists ruleset. split; [exact Hin|].
    destruct (disk w) as [c|top]; [discriminate|].
    simpl in Hk. destruct (Dict.get o top) as [n|]; [|discriminate].
    injection Hk as ->.
    destruct (Dict.get ruleset kids) as [[c|entries]|]; try discriminate.
    destruct (Dict.get "ruleset.json" entries) as [[[d1| |]|]|]; try discriminate.
    injection H1 as ->. left. symmetry. now apply String.eqb_eq.
  - intros y. unfold read_ruleset_json.
    keeps_go unchanged_refl unchanged_trans unchanged_refl.
Qed.

(** X22: the loop of [create_ruleset] that appends the postfix to a name
    until no ruleset of the organization bears it comes to an end: with
    a postfix that is not empty it makes as many rounds as there are
    entries in the organization's directory at most.  It ends on the
    first name of the sequence that does not occur, having changed
    nothing, or on whatever the reading of a [ruleset.json] raises. *)
Theorem ruleset_name_loop_ends (w : world) (kids : list (string * node))
  (postfix name : string) :
Fs.lookup [o] (disk w) = Some (Dir kids) ->
postfix <> "" ->
exists k, (k <= length (Dict.keys kids))%nat /\
  (forall j, (j < k)%nat ->
     ruleset_name_occurs self (lengthen j postfix name) w = Ok true w) /\
  ((uniquify (length (Dict.keys kids)) (ruleset_name_occurs self) postfix name w
      = Ok (lengthen k postfix name) w /\
    ruleset_name_occurs self (lengthen k postfix name) w = Ok false w) \/
   (exists e,
      uniquify (length (Dict.keys kids)) (ruleset_name_occurs self) postfix name w = Exc e w /\
      ruleset_name_occurs self (lengthen k postfix name) w = Exc e w)).
Proof.
  intros Hk Hp.
  apply (uniquify_ends (ruleset_name_occurs self) (ruleset_names kids) postfix w
           ruleset_name_occurs_pure (fun x => ruleset_name_occurs_pool w kids x Hk) Hp
           (length (Dict.keys kids)) [] name).
  - constructor.
  - intros x [].
  - intros s [].
  - simpl. unfold ruleset_names. generalize (Dict.keys kids) as l.
    induction l as [|x l IH]; simpl; [lia|]. rewrite length_app.
    destruct (Dict.get x kids) as [[c|entries]|]; simpl; try lia.
    destruct (Dict.get "ruleset.json" entries) as [[[d1| |]|]|]; simpl; lia.
Qed.

End NameLoops.

Lemma flat_map_short {A B} (f : A -> list B) (l : list A) :
(forall x, (length (f x) <= 1)%nat) -> (length (flat_map f l) <= length l)%nat.
Proof.
  intros H. induction l as [|x l IH]; simpl; [lia|].
  rewrite length_app. specialize (H x). lia.
Qed.

Lemma get_of_nodup {V} (d : Dict.t V) :
NoDup (Dict.keys d) -> forall k v, In (k, v) d -> Dict.get k d = Some v.
Proof.
  induction d as [|[k0 v0] d IH]; intros Hnd k v Hin; [destruct Hin|].
  simpl in Hnd. inversion Hnd as [|? ? Hnot Hnd']; subst.
  simpl. destruct Hin as [E|Hin].
  - injection E as -> ->. now rewrite String.eqb_refl.
  - destruct (String.eqb k k0) eqn:E.
    + apply String.eqb_eq in E. subst k0. exfalso. apply Hnot.
      change k with (fst (k, v)). now apply in_map.
    + now apply IH.
Qed.

Lemma rule_names_count (kids : list (string * node)) :
NoDup (Dict.keys kids) -> (length (rule_names kids) <= rule_count kids)%nat.
Proof.
  intros Hnd. unfold rule_names, rule_count, Dict.keys.
  assert (H : forall l, incl l kids ->
    (length (flat_map (fun ruleset =>
       match Dict.get ruleset kids with
       | Some (Dir rules) =>
           flat_map (fun rule =>
             if contains "ruleset.json" rule then []
             else match Dict.get rule rules with
                  | Some (Dir entries) =>
                      match Dict.get "rule.json" entries with
                      | Some (File (JRule d)) => [r_name d]
                      | _ => []
                      end
                  | _ => []
                  end) (Dict.keys rules)
       | _ => []
       end) (map fst l))
     <= fold_right (fun kv n => match snd kv with
                                | Dir rules => (length rules + n)%nat
                                | File _ => n
                                end) O l)%nat).
  { induction l as [|[k v] l IH]; intros Hl; simpl; [lia|].
    rewrite length_app.
    assert (Hl' : incl l kids) by (intros x Hx; apply Hl; now right).
    specialize (IH Hl').
    rewrite (get_of_nodup kids Hnd k v) by (apply Hl; now left).
    destruct v as [c|rules]; simpl; [lia|].
    assert (Hs : (length (flat_map (fun rule =>
             if contains "ruleset.json" rule then []
             else match Dict.get rule rules with
                  | Some (Dir entries) =>
                      match Dict.get "rule.json" entries with
                      | Some (File (JRule d)) => [r_name d]
                      | _ => []
                      end
                  | _ => []
                  end) (Dict.keys rules)) <= length (Dict.keys rules))%nat).
    { apply flat_map_short. intros x. destruct (contains "ruleset.json" x); simpl; [lia|].
      destruct (Dict.get x rules) as [[c|entries]|]; simpl; try lia.
      destruct (Dict.get "rule.json" entries) as [[[d1|d1|d1]|]|]; simpl; lia. }
    unfold Dict.keys in Hs at 2. rewrite length_map in Hs. lia. }
  apply H. apply incl_refl.
Qed.

Section RuleNameLoop.
Variable self : State.

Let o : string := org_id self.

Lemma rule_name_occurs_pure x : keeps unchanged (rule_name_occurs self x).
Proof. apply keeps_rule_name_occurs; [exact unchanged_refl | exact unchanged_trans]. Qed.

Lemma rule_name_occurs_pool w kids x :
Fs.lookup [o] (disk w) = Some (Dir kids) ->
rule_name_occurs self x w = Ok true w -> In x (rule_names kids).
Proof.
  intros Hk H. unfold rule_name_occurs, organization_dir in H. fold o in H.
  rewrite (bind_run _ _ _ _ _ (os_listdir_run [o] w kids Hk)) in H.
  apply any_of_true in H.
  - destruct H as [ruleset [Hin H]]. apply bind_ok in H.
    destruct H as [rules [w1 [H1 H2]]]. apply os_listdir_ok in H1.
    destruct H1 as [sub [Hsub [-> ->]]]. cbn [app] in Hsub.
    rewrite (lookup_child o ruleset kids _ Hk) in Hsub.
    apply any_of_true in H2.
    + destruct H2 as [rule [Hrule H2]].
      unfold rule_names. apply in_flat_map. exists ruleset. split; [exact Hin|].
      rewrite Hsub. apply in_flat_map. exists rule. split; [exact Hrule|].
      destruct (contains "ruleset.json" rule); [discriminate|].
      apply bind_ok in H2. destruct H2 as [d [w2 [H2 H3]]].
      unfold ret in H3. injection H3 as H3 _.
      unfold read_rule_json in H2. apply bind_ok in H2.
      destruct H2 as [c [w3 [H2 H4]]]. apply read_json_ok in H2. destruct H2 as [H2 ->].
      destruct c as [|d0|]; try discriminate. unfold ret in H4. injection H4 as -> _.
      cbn [app] in H2.
      change [o; ruleset; rule; "rule.json"] with ([o; ruleset; rule] ++ ["rule.json"]) in H2.
      rewrite lookup_app, (lookup_grandchild o ruleset rule kids sub _ Hk Hsub) in H2.
      destruct (Dict.get rule sub) as [[c|entries]|]; try discriminate.
      simpl in H2.
      destruct (Dict.get "rule.json" entries) as [[[d1|d1|d1]|]|]; try discriminate.
      injection H2 as ->. left. symmetry. now apply String.eqb_eq.
    + intros y. unfold read_rule_json.
      keeps_go unchanged_refl unchanged_trans unchanged_refl.
  - intros y. unfold read_rule_json.
    keeps_go unchanged_refl unchanged_trans unchanged_refl.
Qed.

(** X23: the loop of [create_rule] that appends the postfix to a name
    until no rule of the organization bears it comes to an end as well:
    with a postfix that is not empty it makes as many rounds as the
    rulesets of the organization have entries at most, and it ends on
    the first name of the sequence that does not occur, having changed
    nothing, or on whatever the reading of the directories raises. *)
Theorem rule_name_loop_ends (w : world) (kids : list (string * node))
  (postfix name : string) :
Fs.lookup [o] (disk w) = Some (Dir kids) ->
NoDup (Dict.keys kids) ->
postfix <> "" ->
count_rules self w = Ok (rule_count kids) w /\
exists k, (k <= rule_count kids)%nat /\
  (forall j, (j < k)%nat ->
     rule_name_occurs self (lengthen j postfix name) w = Ok true w) /\
  ((uniquify (rule_count kids) (rule_name_occurs self) postfix name w
      = Ok (lengthen k postfix name) w /\
    rule_name_occurs self (lengthen k postfix name) w = Ok false w) \/
   (exists e,
      uniquify (rule_count kids) (rule_name_occurs self) postfix name w = Exc e w /\
      rule_name_occurs self (lengthen k postfix name) w = Exc e w)).
Proof.
  intros Hk Hnd Hp. split.
  - unfold count_rules, organization_dir, bind, get_disk. fold o. now rewrite Hk.
  - apply (uniquify_ends (rule_name_occurs self) (rule_names kids) postfix w
             rule_name_occurs_pure (fun x => rule_name_occurs_pool w kids x Hk) Hp
             (rule_count kids) [] name).
    + constructor.
    + intros x [].
    + intros s [].
    + simpl. now apply rule_names_count.
Qed.

End RuleNameLoop.

(** ** Operations on identifiers that are not on disk *)

Lemma in_list_false x l : in_list x l = false <-> ~ In x l.
Proof.
  unfold in_list. induction l as [|y l IH]; simpl; [tauto|].
  destruct (String.eqb x y) eqn:E; simpl.
  - apply String.eqb_eq in E. subst. split; [discriminate | intros H; exfalso; auto].
  - apply String.eqb_neq in E. rewrite IH. split; [intros H [G|G]; auto | tauto].
Qed.

Section NotFound.
Variable api : list event -> call -> response.
Variable files : string -> option content.
Variable self : State.

Let o : string := org_id self.

Lemma locate_rule_none (w : world) (kids : list (string * node)) (rule_id : string) :
Fs.lookup [o] (disk w) = Some (Dir kids) ->
(forall ruleset, In ruleset (Dict.keys kids) ->
   exists rules, Dict.get ruleset kids = Some (Dir rules) /\ Dict.get rule_id rules = None) ->
_locate_rule self rule_id w = Ok None w.
Proof.
  intros Hk Hall. unfold _locate_rule, organization_dir. fold o.
  rewrite (bind_run _ _ _ _ _ (os_listdir_run [o] w kids Hk)).
  revert Hall. generalize (Dict.keys kids) as l.
  induction l as [|ruleset l IH]; intros Hall; [reflexivity|].
  destruct (Hall ruleset (or_introl eq_refl)) as [rules [H1 H2]].
  assert (Hdir : Fs.lookup ([o] ++ [ruleset]) (disk w) = Some (Dir rules)).
  { cbn [app]. now rewrite (lookup_child o ruleset kids _ Hk). }
  rewrite (bind_run _ _ _ _ _ (os_listdir_run _ w rules Hdir)).
  replace (in_list rule_id (Dict.keys rules)) with false.
  - apply IH. intros rs Hrs. apply Hall. now right.
  - symmetry. apply in_list_false. now apply get_none_not_in.
Qed.

(** X24: an operation on a rule that no ruleset of the organization
    holds changes nothing.  In lazy mode [update_rule], [copy_rule],
    [create_tags] and [delete_rule] each report the identifier once, on
    the log or on standard output, which the trace keeps together, and
    touch neither the disk nor the state file; the first two return
    [None], the other two the [State] itself. *)
Theorem unknown_rule_changes_nothing (w : world) (kids : list (string * node))
  (rule_id ruleset_id : string) (postfix : option string) (rule : rule_data)
  (tags : tags_data) :
Fs.lookup [o] (disk w) = Some (Dir kids) ->
(forall ruleset, In ruleset (Dict.keys kids) ->
   exists rules, Dict.get ruleset kids = Some (Dir rules) /\ Dict.get rule_id rules = None) ->
update_rule api true self rule_id rule w = Ok RetNone (logged w (Not_found rule_id)) /\
copy_rule api true self rule_id ruleset_id postfix w
  = Ok RetNone (logged w (Not_found rule_id)) /\
create_tags api true self rule_id tags w
  = Ok (RetState self) (logged w (Not_found rule_id)) /\
delete_rule_op api true self rule_id w
  = Ok (RetState self) (logged w (Not_found rule_id)).
Proof.
  intros Hk Hall. pose proof (locate_rule_none w kids rule_id Hk Hall) as Hl.
  unfold update_rule, copy_rule, create_tags, delete_rule_op. rewrite !lazy_when_lazy.
  unfold update_rule_body, copy_rule_body, create_tags_body, delete_rule_body, _delete_rule.
  repeat split.
  - now rewrite (bind_run _ _ _ _ _ Hl).
  - now rewrite (bind_run _ _ _ _ _ Hl).
  - now rewrite (bind_run _ _ _ _ _ Hl).
  - unfold bind at 1. unfold bind at 1. rewrite Hl. reflexivity.
Qed.

(** X25: an operation on a ruleset that the organization's directory
    does not hold changes nothing either.  In lazy mode
    [update_ruleset] and [copy_ruleset], which look the identifier up in
    the listing of the directory, and [delete_ruleset], which builds a
    path from it, when the identifier is a name an entry can bear, each
    report the identifier once, on the log or on standard output, and
    touch neither the disk nor the state file; the first two return
    [None], the last one the [State] itself. *)
Theorem unknown_ruleset_changes_nothing (w : world) (kids : list (string * node))
  (ruleset_id : string) (postfix : option string) (ruleset : ruleset_data) :
Fs.lookup [o] (disk w) = Some (Dir kids) ->
Dict.get ruleset_id kids = None ->
update_ruleset api true self ruleset_id ruleset w
  = Ok RetNone (logged w (Not_found ruleset_id)) /\
copy_ruleset api true files self ruleset_id postfix w
  = Ok RetNone (logged w (Not_found ruleset_id)) /\
(plain o = true -> plain ruleset_id = true ->
 delete_ruleset_op api true self ruleset_id w
   = Ok (RetState self) (logged w (Not_found ruleset_id))).
Proof.
  intros Hk Hn.
  assert (Hl : _locate_ruleset self ruleset_id w = Ok None w).
  { unfold _locate_ruleset, organization_dir. fold o.
    rewrite (bind_run _ _ _ _ _ (os_listdir_run [o] w kids Hk)).
    replace (in_list ruleset_id (Dict.keys kids)) with false; [reflexivity|].
    symmetry. apply in_list_false. now apply get_none_not_in. }
  unfold update_ruleset, copy_ruleset, delete_ruleset_op. rewrite !lazy_when_lazy.
  unfold update_ruleset_body, delete_ruleset_body, _delete_ruleset.
  repeat split.
  - now rewrite (bind_run _ _ _ _ _ Hl).
  - now rewrite (bind_run _ _ _ _ _ Hl).
  - intros _ _. unfold organization_dir. fold o. cbn [app].
    unfold bind at 1. unfold bind at 1. rewrite os_path_isdir_run.
    rewrite (lookup_child o ruleset_id kids _ Hk), Hn. reflexivity.
Qed.

End NotFound.

(** ** Creating a ruleset and deleting it again *)

Lemma pop_set_absent {V} (k : string) (v : V) (d : Dict.t V) :
Dict.get k d = None -> Dict.pop k (Dict.set k v d) = d.
Proof.
  induction d as [|[k0 v0] d IH]; simpl.
  - now rewrite String.eqb_refl.
  - destruct (String.eqb k k0) eqn:E; [discriminate|]. simpl. rewrite E.
    intros H. now rewrite IH.
Qed.

Lemma set_get_same {V} (k : string) (v : V) (d : Dict.t V) :
Dict.get k d = Some v -> Dict.set k v d = d.
Proof.
  induction d as [|[k0 v0] d IH]; simpl; [discriminate|].
  destruct (String.eqb k k0) eqn:E.
  - apply String.eqb_eq in E. subst k0. now intros [= ->].
  - intros H. now rewrite IH.
Qed.

Lemma disk_top o d kids :
Fs.lookup [o] d = Some (Dir kids) ->
exists top, d = Dir top /\ Dict.get o top = Some (Dir kids).
Proof.
  destruct d as [c|top]; simpl; [discriminate|].
  destruct (Dict.get o top) as [n|] eqn:E; [|discriminate].
  intros [= ->]. exists top. auto.
Qed.

Lemma modify_child o top kids f :
Dict.get o top = Some (Dir kids) ->
Fs.modify [o] f (Dir top) = Some (Dir (Dict.set o (Dir (f kids)) top)).
Proof. intros H. simpl. now rewrite H. Qed.

Lemma modify_grandchild o x top kids sub f :
Dict.get o top = Some (Dir kids) -> Dict.get x kids = Some (Dir sub) ->
Fs.modify [o; x] f (Dir top)
  = Some (Dir (Dict.set o (Dir (Dict.set x (Dir (f sub)) kids)) top)).
Proof. intros H1 H2. simpl. now rewrite H1, H2. Qed.

Lemma write_json_run dir name c w kids :
Fs.lookup dir (disk w) = Some (Dir kids) ->
Fs.is_dir (Dict.get name kids) = false ->
exists d', Fs.modify dir (Dict.set name (File c)) (disk w) = Some d' /\
           write_json dir name c w = Ok tt (with_disk w d').
Proof.
  intros Hd Hn. destruct (modify_total dir (Dict.set name (File c)) _ _ Hd) as [d' Hm].
  exists d'. split; [exact Hm|].
  unfold write_json, bind, get_disk. rewrite Hd.
  destruct (Dict.get name kids) as [[c0|k]|]; try discriminate;
    now apply modify_dir_run.
Qed.

Section RoundTrip.
Variable api : list event -> call -> response.
Variable files : string -> option content.
Variable self : State.

Let o : string := org_id self.

(** The run of [create_ruleset] and of [delete_ruleset] after it. *)
Lemma create_then_delete_ruleset_run (w : world) (st : state_doc)
  (kids : list (string * node)) (d : ruleset_data) (postfix : option string)
  (u : string) (rest : list string) :
let id := String.append u (_postfix self) in
Fs.lookup [o] (disk w) = Some (Dir kids) ->
statefile w = Some st ->
ruleset_name_occurs self (rs_name d) w = Ok false w ->
uuids w = u :: rest ->
Dict.get id kids = None ->
tracked_ruleset o id st = None ->
exists w1 st1,
  create_ruleset api true files self (PyDict d) postfix w = Ok (RetStr id) w1 /\
  endswith id (_postfix self) = true /\
  Fs.lookup [o; id] (disk w1) = Some (Dir [("ruleset.json", File (JRuleset d))]) /\
  (forall x, x <> id -> Fs.lookup [o; x] (disk w1) = Fs.lookup [o; x] (disk w)) /\
  statefile w1 = Some st1 /\
  tracked_ruleset o id st1 = Some (mk_entry rs_true []) /\
  exists w2 st2,
    delete_ruleset_op api true self id w1 = Ok (RetState self) w2 /\
    disk w2 = disk w /\
    statefile w2 = Some st2 /\
    (forall o' rs, tracked_ruleset o' rs st2 = tracked_ruleset o' rs st) /\
    trace w2 = trace w.
Proof.
  intros id Hk Hst Hname Hu Hfree Htr.
  destruct (disk_top o _ kids Hk) as [top [Hd Ho]].
  (* the identifier *)
  set (wa := mk_world (disk w) (statefile w) rest (trace w)).
  assert (Hgen : generate_id (_postfix self) (Dict.keys kids) w = Ok id wa).
  { unfold generate_id. rewrite Hu. simpl. fold id.
    replace (in_list id (Dict.keys kids)) with false; [reflexivity|].
    symmetry. apply in_list_false. now apply get_none_not_in. }
  (* the directory *)
  assert (Hka : Fs.lookup [o] (disk wa) = Some (Dir kids)) by exact Hk.
  destruct (os_mkdir_run [o] id wa kids Hka Hfree) as [d1 [M1 R1]].
  simpl disk in M1. rewrite Hd, (modify_child o top kids _ Ho) in M1. injection M1 as M1.
  set (kids1 := Dict.set id (Dir []) kids) in *.
  set (top1 := Dict.set o (Dir kids1) top) in *.
  assert (Ho1 : Dict.get o top1 = Some (Dir kids1)) by apply get_set_same.
  assert (Hi1 : Dict.get id kids1 = Some (Dir [])) by apply get_set_same.
  assert (Hk1 : Fs.lookup [o; id] (disk (with_disk wa d1)) = Some (Dir [])).
  { simpl disk. rewrite <- M1. simpl. now rewrite Ho1, Hi1. }
  destruct (write_json_run [o; id] "ruleset.json" (JRuleset d) (with_disk wa d1) [] Hk1 eq_refl)
    as [d2 [M2 R2]].
  simpl disk in M2. rewrite <- M1, (modify_grandchild o id top1 kids1 [] _ Ho1 Hi1) in M2.
  injection M2 as M2. simpl Dict.set in M2 at 2.
  unfold top1 in M2. rewrite set_twice in M2. unfold kids1 in M2. rewrite set_twice in M2.
  set (doc := Dir [("ruleset.json", File (JRuleset d))]) in *.
  set (kids2 := Dict.set id doc kids) in *.
  set (wb := with_disk (with_disk wa d1) d2) in *.
  (* the state file *)
  destruct (state_add_ruleset_fresh self id rs_true st Htr) as [st1 [[_ C1] [T1 [T2 T3]]]].
  assert (Hwb : statefile wb = Some st) by exact Hst.
  specialize (C1 wb Hwb).
  set (w1 := with_statefile wb st1) in *.
  assert (Hrun1 : create_ruleset api true files self (PyDict d) postfix w = Ok (RetStr id) w1).
  { unfold create_ruleset. rewrite lazy_when_lazy. unfold create_ruleset_body.
    unfold data_of, is_str, subscript, organization_dir. fold o.
    unfold bind at 1. unfold ret at 1. unfold bind at 1. unfold ret at 1.
    unfold bind at 1. rewrite (os_listdir_run [o] w kids Hk).
    assert (Hun : forall b p, uniquify b (ruleset_name_occurs self) p (rs_name d) w
                              = Ok (rs_name d) w).
    { intros b p. destruct b; simpl; unfold bind; rewrite Hname; reflexivity. }
    unfold bind at 1. rewrite Hun.
    unfold bind at 1. unfold _create_ruleset, organization_dir. fold o. cbn [app].
    unfold bind at 1. rewrite (os_listdir_run [o] w kids Hk).
    unfold bind at 1. rewrite Hgen.
    unfold bind at 1. rewrite R1.
    unfold bind at 1. destruct d as [n ds ids]. cbn [rs_name rs_description rs_ruleIds].
    rewrite R2. fold wb.
    unfold bind at 1. rewrite C1. reflexivity. }
  assert (Hd1 : disk w1 = Dir (Dict.set o (Dir kids2) top)) by (symmetry; exact M2).
  assert (Ho2 : Fs.lookup [o] (disk w1) = Some (Dir kids2)).
  { rewrite Hd1. simpl. now rewrite get_set_same. }
  assert (Hi2 : Dict.get id kids2 = Some doc) by apply get_set_same.
  exists w1, st1. split; [exact Hrun1|]. split; [apply endswith_append|].
  split; [now rewrite (lookup_child o id kids2 _ Ho2)|].
  split.
  { intros x N. rewrite (lookup_child o x kids2 _ Ho2), (lookup_child o x kids _ Hk).
    unfold kids2. now apply get_set_other. }
  split; [reflexivity|]. split; [exact T1|].
  (* the deletion *)
  destruct (shutil_rmtree_run [o] id w1 kids2 [("ruleset.json", File (JRuleset d))] Ho2 Hi2)
    as [d3 [M3 R3]].
  rewrite Hd1 in M3.
  rewrite (modify_child o _ kids2 _ (get_set_same _ _ _)) in M3. injection M3 as M3.
  rewrite set_twice in M3. unfold kids2 in M3.
  rewrite (pop_set_absent id doc kids Hfree) in M3.
  rewrite (set_get_same o (Dir kids) top Ho) in M3.
  pose proof (state_delete_ruleset_commits self id st1) as Hdel.
  cbv zeta in Hdel. rewrite T1 in Hdel.
  unfold id in Hdel at 1. rewrite endswith_append in Hdel. fold id in Hdel.
  destruct Hdel as [st2 [[_ C2] [D1 [_ [D2 D3]]]]].
  assert (Hw3 : statefile (with_disk w1 d3) = Some st1) by reflexivity.
  specialize (C2 (with_disk w1 d3) Hw3).
  exists (with_statefile (with_disk w1 d3) st2), st2.
  split.
  { unfold delete_ruleset_op. rewrite lazy_when_lazy.
    unfold delete_ruleset_body, _delete_ruleset, organization_dir. fold o. cbn [app].
    unfold bind at 1. unfold bind at 1. rewrite os_path_isdir_run.
    rewrite (lookup_child o id kids2 _ Ho2), Hi2. unfold doc. cbn [Fs.is_dir negb].
    unfold bind at 1. rewrite R3.
    unfold bind at 1. rewrite C2. reflexivity. }
  split; [simpl; rewrite <- M3; now rewrite Hd|].
  split; [reflexivity|]. split; [|reflexivity].
  intros o' rs. destruct (string_dec o' (org_id self)) as [->|No].
  - destruct (string_dec rs id) as [->|Nr].
    + rewrite D1. symmetry. exact Htr.
    + rewrite (D2 rs Nr). now apply T2.
  - rewrite (D3 o' rs No). now apply T3.
Qed.

(** X26: creating a ruleset and deleting it again, both in lazy mode.
    When the name of the new ruleset is free and [uuid4] gives an
    identifier that is neither on disk nor tracked, [create_ruleset]
    returns that identifier with the local-only suffix, the directory of
    the ruleset holds the document and nothing else, and the state file
    tracks the ruleset as modified, without rules.  [delete_ruleset] on
    the identifier then gives the disk back as it was, the state file
    tracks what it tracked before, and nothing was logged or called. *)
Theorem create_then_delete_ruleset (w : world) (st : state_doc)
  (kids : list (string * node)) (d : ruleset_data) (postfix : option string)
  (u : string) (rest : list string) :
let id := String.append u (_postfix self) in
Fs.lookup [o] (disk w) = Some (Dir kids) ->
statefile w = Some st ->
ruleset_name_occurs self (rs_name d) w = Ok false w ->
uuids w = u :: rest ->
Dict.get id kids = None ->
tracked_ruleset o id st = None ->
exists w1 st1,
  create_ruleset api true files self (PyDict d) postfix w = Ok (RetStr id) w1 /\
  endswith id (_postfix self) = true /\
  Fs.lookup [o; id] (disk w1) = Some (Dir [("ruleset.json", File (JRuleset d))]) /\
  (forall x, x <> id -> Fs.lookup [o; x] (disk w1) = Fs.lookup [o; x] (disk w)) /\
  statefile w1 = Some st1 /\
  tracked_ruleset o id st1 = Some (mk_entry rs_true []) /\
  exists w2 st2,
    delete_ruleset_op api true self id w1 = Ok (RetState self) w2 /\
    disk w2 = disk w /\
    statefile w2 = Some st2 /\
    (forall o' rs, tracked_ruleset o' rs st2 = tracked_ruleset o' rs st) /\
    trace w2 = trace w.
Proof.
  exact (create_then_delete_ruleset_run w st kids d postfix u rest).
Qed.

End RoundTrip.

(** ** A [refresh] that the platform refuses *)

Section RefreshRefused.
Variable api : list event -> call -> response.
Variable self : State.

Let o : string := org_id self.


End RefreshRefused.

(** ** [tsctl]: the workspace *)

Section Workspace.
Variable api : list event -> call -> response.

(** X28: [workspace] records the switch before anything else.  Whether
    the making of the [State] succeeds or raises, mirror and refresh
    included, the state file ends with the new organization as its
    workspace and with every other organization tracked as before; when
    the call returns, its [State] is the one of the new organization, and
    [plan] then shows that workspace. *)
Theorem workspace_switches (org_id : string) (w : world) (st : state_doc) :
statefile w = Some st ->
let r := tsctl_workspace api org_id w in
(exists st',
   statefile (final_world r) = Some st' /\
   workspace st' = org_id /\
   (forall o', o' <> org_id ->
      Dict.get o' (organizations st') = Dict.get o' (organizations st)) /\
   tsctl_plan (final_world r) = Ok st' (final_world r)) /\
(forall s w', r = Ok s w' -> s = mk_State org_id "-localonly").
Proof.
  intros Hst r. subst r.
  set (st0 := mk_state org_id (organizations st)).
  set (w0 := mk_world (disk w) (Some st0) (uuids w) (trace w)).
  set (s := mk_State org_id "-localonly").
  assert (E0 : tsctl_workspace api org_id w =
               if Fs.is_dir (Fs.lookup [org_id] (disk w0)) then Ok s w0
               else match os_mkdir [] org_id w0 with
                    | Ok _ w1 =>
                        match refresh api s w1 with
                        | Ok _ w2 => Ok s w2
                        | Exc e w2 => Exc e w2
                        end
                    | Exc e w1 => Exc e w1
                    end).
  { unfold tsctl_workspace, bind, read_state, write_state, new_State. rewrite Hst.
    fold st0 w0 s. unfold bind. rewrite os_path_isdir_run.
    destruct (Fs.is_dir (Fs.lookup [org_id] (disk w0))); cbn [negb]; [reflexivity|].
    destruct (os_mkdir [] org_id w0) as [[] w1|e w1]; [|reflexivity].
    destruct (refresh api s w1) as [[] w2|e w2]; reflexivity. }
  rewrite E0. clear E0.
  assert (Hplan : forall w1 st', statefile w1 = Some st' -> tsctl_plan w1 = Ok st' w1).
  { intros w1 st' H. unfold tsctl_plan, read_state. now rewrite H. }
  destruct (Fs.is_dir (Fs.lookup [org_id] (disk w0))).
  - split.
    + exists st0. split; [reflexivity|]. split; [reflexivity|].
      split; [reflexivity | apply Hplan; reflexivity].
    + intros s' w' E. now injection E as <- _.
  - (* the directory is made and refreshed *)
    assert (Hmk : statefile (final_world (os_mkdir [] org_id w0)) = Some st0).
    { apply (keeps_os_mkdir same_statefile same_statefile_refl [] org_id
               (same_statefile_allows []) w0). }
    destruct (os_mkdir [] org_id w0) as [[] w1|e w1]; simpl in Hmk.
    + pose proof (refresh_keeps_statefile api s w1 st0 Hmk) as Hr.
      destruct (refresh api s w1) as [[] w2|e w2] eqn:E; simpl in Hr.
      * split.
        -- destruct Hr as [Hr | [w3 [st3 [E3 [H1 [H2 [H3 H4]]]]]]].
           ++ exists st0. simpl. split; [exact Hr|]. split; [reflexivity|].
              split; [reflexivity | apply Hplan; exact Hr].
           ++ injection E3 as <-. exists st3. simpl. split; [exact H1|].
              split; [exact H4|]. split; [|apply Hplan; exact H1].
              intros o' N. now apply H3.
        -- intros s' w' E'. now injection E' as <- _.
      * split.
        -- destruct Hr as [Hr | [w3 [st3 [E3 _]]]]; [|discriminate].
           exists st0. simpl. split; [exact Hr|]. split; [reflexivity|].
           split; [reflexivity | apply Hplan; exact Hr].
        -- intros s' w' E'. discriminate.
    + split.
      * exists st0. simpl. split; [exact Hmk|]. split; [reflexivity|].
        split; [reflexivity | apply Hplan; exact Hmk].
      * intros s' w' E'. discriminate.
Qed.

End Workspace.

(** ** Creating a rule *)

Lemma lookup_in (p : path) (x : string) d kids :
Fs.lookup p d = Some (Dir kids) -> Fs.lookup (p ++ [x]) d = Dict.get x kids.
Proof.
  intros H. rewrite lookup_app, H. simpl. destruct (Dict.get x kids); reflexivity.
Qed.

Lemma modify_entries (p : path) f d d' kids :
Fs.modify p f d = Some d' -> Fs.lookup p d = Some (Dir kids) ->
Fs.lookup p d' = Some (Dir (f kids)).
Proof.
  intros Hm Hl. destruct (modify_here p f _ _ Hm) as [ks [H1 H2]].
  rewrite Hl in H1. injection H1 as <-. exact H2.
Qed.

Lemma modify_entry (p : path) (x : string) f d d' kids sub :
Fs.modify (p ++ [x]) f d = Some d' ->
Fs.lookup p d = Some (Dir kids) -> Dict.get x kids = Some (Dir sub) ->
Fs.lookup p d' = Some (Dir (Dict.set x (Dir (f sub)) kids)).
Proof.
  intros Hm Hl Hx. destruct (modify_above p x [] f _ _ Hm) as [ks [c [c' [H1 [H2 [H3 H4]]]]]].
  rewrite Hl in H1. injection H1 as <-. rewrite Hx in H2. injection H2 as <-.
  simpl in H3. injection H3 as <-. exact H4.
Qed.

Section StateAddRuleNew.
Variable self : State.

Lemma state_add_rule_new (rs r : string) (endpoint : RuleStatus) (st : state_doc) :
tracked_rule (org_id self) rs r st = None ->
exists st',
  commits (_state_add_rule self rs r endpoint) st st' /\
  tracked_rule (org_id self) rs r st' = Some endpoint.
Proof.
  intros Hn. unfold _state_add_rule, recursion_limit. change 1000 with (S (S 998)).
  destruct (tracked_ruleset (org_id self) rs st) as [e|] eqn:Ht.
  - unfold tracked_rule in Hn. rewrite Ht in Hn. unfold tracked_ruleset in Ht.
    destruct (Dict.get (org_id self) (organizations st)) as [m|] eqn:Hm; [|discriminate].
    eexists. split.
    + apply commits_intro.
      rewrite (state_add_rule_body_tracked self _ rs r endpoint st m e Hm Ht), Hn.
      reflexivity.
    + rewrite (tracked_rule_set_org self rs r _ _ st (get_set_same rs _ m)). simpl.
      apply get_set_same.
  - destruct (state_add_rule_body_untracked self 998 rs r endpoint st Ht) as [st' [Hb Hs]].
    exists st'. split; [now apply commits_intro|].
    unfold tracked_rule. rewrite Hs. simpl. now rewrite String.eqb_refl.
Qed.

End StateAddRuleNew.

Section CreateRule.
Variable api : list event -> call -> response.
Variable files : string -> option content.
Variable self : State.

Let o : string := org_id self.

(** What [create_rule] does before the decorator looks at its result,
    for every kind of tags. *)
Lemma create_rule_run (tags : pyobj string) (w : world) (st : state_doc)
  (kids rules : list (string * node)) (ruleset : ruleset_data) (d : rule_data)
  (ruleset_id : string) (postfix : option string) (u : string) (rest : list string) :
let id := String.append u (_postfix self) in
tags <> PyType_str ->
Fs.lookup [o] (disk w) = Some (Dir kids) ->
Dict.get ruleset_id kids = Some (Dir rules) ->
Dict.get "ruleset.json" rules = Some (File (JRuleset ruleset)) ->
statefile w = Some st ->
rule_name_occurs self (r_name d) w = Ok false w ->
uuids w = u :: rest ->
Dict.get id rules = None ->
tracked_rule o ruleset_id id st = None ->
exists w1 st1,
  create_rule_body files self ruleset_id (PyDict d) tags postfix w = Ok (RetStr id) w1 /\
  endswith id (_postfix self) = true /\
  Fs.lookup [o; ruleset_id; id] (disk w1)
    = Some (Dir [("rule.json", File (JRule d)); ("tags.json", File (JTags (tags_argument tags)))]) /\
  Fs.lookup [o; ruleset_id; "ruleset.json"] (disk w1)
    = Some (File (JRuleset (mk_ruleset (rs_name ruleset) (rs_description ruleset)
                              (rs_ruleIds ruleset ++ [id])))) /\
  (forall x, x <> id -> x <> "ruleset.json" ->
     Fs.lookup [o; ruleset_id; x] (disk w1) = Fs.lookup [o; ruleset_id; x] (disk w)) /\
  (forall x, x <> ruleset_id -> Fs.lookup [o; x] (disk w1) = Fs.lookup [o; x] (disk w)) /\
  statefile w1 = Some st1 /\
  tracked_rule o ruleset_id id st1 = Some st_both /\
  trace w1 = trace w.
Proof.
  intros id Htags Hk Hrs Hdoc Hst Hname Hu Hfree Htr.
  set (rsdir := [o; ruleset_id]).
  assert (Hne : id <> "ruleset.json") by (intros E; rewrite E in Hfree; congruence).
  assert (Hr0 : Fs.lookup rsdir (disk w) = Some (Dir rules)).
  { unfold rsdir. now rewrite (lookup_child o ruleset_id kids _ Hk). }
  (* the identifier *)
  set (wa := mk_world (disk w) (statefile w) rest (trace w)).
  assert (Hgen : generate_id (_postfix self) (Dict.keys rules) w = Ok id wa).
  { unfold generate_id. rewrite Hu. simpl. fold id.
    replace (in_list id (Dict.keys rules)) with false; [reflexivity|].
    symmetry. apply in_list_false. now apply get_none_not_in. }
  (* the directory of the rule *)
  destruct (os_mkdir_run rsdir id wa rules Hr0 Hfree) as [d1 [M1 R1]].
  set (w1 := with_disk wa d1) in *.
  set (rules1 := Dict.set id (Dir []) rules).
  assert (Hr1 : Fs.lookup rsdir (disk w1) = Some (Dir rules1)).
  { exact (modify_entries rsdir _ _ _ rules M1 Hr0). }
  assert (Hi1 : Fs.lookup (rsdir ++ [id]) (disk w1) = Some (Dir [])).
  { rewrite (lookup_in rsdir id _ rules1 Hr1). apply get_set_same. }
  destruct (write_json_run (rsdir ++ [id]) "rule.json" (JRule d) w1 [] Hi1 eq_refl)
    as [d2 [M2 R2]].
  set (w2 := with_disk w1 d2) in *.
  set (rules2 := Dict.set id (Dir [("rule.json", File (JRule d))]) rules1).
  assert (Hr2 : Fs.lookup rsdir (disk w2) = Some (Dir rules2)).
  { exact (modify_entry rsdir id _ _ _ rules1 [] M2 Hr1 (get_set_same _ _ _)). }
  assert (Hi2 : Fs.lookup (rsdir ++ [id]) (disk w2)
                = Some (Dir [("rule.json", File (JRule d))])).
  { rewrite (lookup_in rsdir id _ rules2 Hr2). apply get_set_same. }
  destruct (write_json_run (rsdir ++ [id]) "tags.json" (JTags (tags_argument tags)) w2 _ Hi2 eq_refl)
    as [d3 [M3 R3]].
  set (w3 := with_disk w2 d3) in *.
  set (rule_dir := Dir [("rule.json", File (JRule d));
                        ("tags.json", File (JTags (tags_argument tags)))]).
  set (rules3 := Dict.set id rule_dir rules2).
  assert (Hr3 : Fs.lookup rsdir (disk w3) = Some (Dir rules3)).
  { exact (modify_entry rsdir id _ _ _ rules2 _ M3 Hr2 (get_set_same _ _ _)). }
  assert (Hd3 : Dict.get "ruleset.json" rules3 = Some (File (JRuleset ruleset))).
  { unfold rules3, rules2, rules1.
    rewrite !get_set_other by (intros E; apply Hne; now rewrite E). exact Hdoc. }
  set (doc := JRuleset (mk_ruleset (rs_name ruleset) (rs_description ruleset)
                          (rs_ruleIds ruleset ++ [id]))).
  assert (Hnd : Fs.is_dir (Dict.get "ruleset.json" rules3) = false) by now rewrite Hd3.
  destruct (write_json_run rsdir "ruleset.json" doc w3 rules3 Hr3 Hnd) as [d4 [M4 R4]].
  set (w4 := with_disk w3 d4) in *.
  set (rules4 := Dict.set "ruleset.json" (File doc) rules3).
  assert (Hr4 : Fs.lookup rsdir (disk w4) = Some (Dir rules4)).
  { exact (modify_entries rsdir _ _ _ rules3 M4 Hr3). }
  (* the state file *)
  destruct (state_add_rule_new self ruleset_id id st_both st Htr) as [st1 [[_ C1] T1]].
  assert (Hw4 : statefile w4 = Some st) by exact Hst.
  specialize (C1 w4 Hw4).
  (* the other rulesets *)
  assert (Hside : forall x, x <> ruleset_id ->
            Fs.lookup [o; x] (disk w4) = Fs.lookup [o; x] (disk w)).
  { intros x N.
    assert (N' : ruleset_id <> x) by congruence.
    transitivity (Fs.lookup [o; x] (disk w3)).
    { exact (modify_beside [o] ruleset_id x [] [] _ _ _ N' M4). }
    transitivity (Fs.lookup [o; x] (disk w2)).
    { exact (modify_beside [o] ruleset_id x [id] [] _ _ _ N' M3). }
    transitivity (Fs.lookup [o; x] (disk w1)).
    { exact (modify_beside [o] ruleset_id x [id] [] _ _ _ N' M2). }
    exact (modify_beside [o] ruleset_id x [] [] _ _ _ N' M1). }
  exists (with_statefile w4 st1), st1.
  split.
  { unfold create_rule_body.
    assert (Harg : (match tags with
                    | PyNone => ret (PyDict "")
                    | _ => data_of files as_tags tags
                    end ;;; ret tt)%py w = Ok tt w /\
                   forall k : pyobj string -> M retval,
                     (t <- match tags with
                           | PyNone => ret (PyDict "")
                           | _ => data_of files as_tags tags
                           end ;; k t)%py w
                     = k (match tags with PyNone => PyDict "" | _ => tags end) w).
    { destruct tags; try contradiction; split; try reflexivity; intros k; reflexivity. }
    destruct Harg as [_ Harg].
    assert (Hpay : tags_payload (match tags with PyNone => PyDict "" | _ => tags end) w
                   = Ok (tags_argument tags) w).
    { destruct tags; try contradiction; reflexivity. }
    unfold data_of at 1. unfold is_str at 1. unfold subscript.
    unfold bind at 1. unfold ret at 1. rewrite Harg.
    unfold bind at 1. unfold ret at 1.
    assert (Hcount : count_rules self w = Ok (rule_count kids) w).
    { unfold count_rules, organization_dir, bind, get_disk. fold o. now rewrite Hk. }
    unfold bind at 1. rewrite Hcount.
    assert (Hun : forall b p, uniquify b (rule_name_occurs self) p (r_name d) w
                              = Ok (r_name d) w).
    { intros b p. destruct b; simpl; unfold bind; rewrite Hname; reflexivity. }
    unfold bind at 1. rewrite Hun.
    unfold bind at 1. rewrite Hpay.
    destruct d as [n i b]. cbn [r_name rule_id_field rule_body].
    unfold bind at 1. unfold _create_rule, organization_dir. fold o. cbn [app]. fold rsdir.
    unfold bind at 1. rewrite os_path_isdir_run, Hr0. cbn [Fs.is_dir negb].
    unfold bind at 1. rewrite (os_listdir_run rsdir w rules Hr0).
    unfold bind at 1. rewrite Hgen.
    unfold bind at 1. rewrite R1. fold w1.
    change [o; ruleset_id; id] with (rsdir ++ [id]).
    unfold bind at 1. rewrite R2. fold w2.
    unfold bind at 1. rewrite R3. fold w3.
    assert (Hread : read_ruleset_json rsdir w3 = Ok ruleset w3).
    { unfold read_ruleset_json, read_json, bind, get_disk.
      rewrite (lookup_in rsdir "ruleset.json" _ rules3 Hr3), Hd3. reflexivity. }
    unfold bind at 1. rewrite Hread.
    unfold bind at 1. fold doc. rewrite R4. fold w4.
    unfold bind at 1. rewrite C1. reflexivity. }
  split; [apply endswith_append|].
  split.
  { change [o; ruleset_id; id] with (rsdir ++ [id]).
    change (disk (with_statefile w4 st1)) with (disk w4). rewrite (lookup_in rsdir id _ rules4 Hr4). unfold rules4.
    rewrite get_set_other by congruence. apply get_set_same. }
  split.
  { change [o; ruleset_id; "ruleset.json"] with (rsdir ++ ["ruleset.json"]).
    change (disk (with_statefile w4 st1)) with (disk w4). rewrite (lookup_in rsdir "ruleset.json" _ rules4 Hr4). apply get_set_same. }
  split.
  { intros x N1 N2. change [o; ruleset_id; x] with (rsdir ++ [x]).
    change (disk (with_statefile w4 st1)) with (disk w4). rewrite (lookup_in rsdir x _ rules4 Hr4), (lookup_in rsdir x _ rules Hr0).
    unfold rules4, rules3, rules2, rules1. now rewrite !get_set_other by assumption. }
  split; [exact Hside|].
  split; [reflexivity|]. split; [exact T1 | reflexivity].
Qed.

(** X29: [create_rule] in lazy mode, on a ruleset that is on disk with
    its document.  When the name of the rule is free and [uuid4] gives
    an identifier that is neither in the ruleset's directory nor
    tracked, the call returns that identifier with the local-only
    suffix; the directory of the rule holds the rule and empty tags, the
    ruleset's document lists the identifier last, nothing else in the
    organization's directory has changed, the state file tracks the
    rule as [both], and nothing was logged or called. *)
Theorem create_rule_creates (w : world) (st : state_doc)
  (kids rules : list (string * node)) (ruleset : ruleset_data) (d : rule_data)
  (ruleset_id : string) (postfix : option string) (u : string) (rest : list string) :
let id := String.append u (_postfix self) in
Fs.lookup [o] (disk w) = Some (Dir kids) ->
Dict.get ruleset_id kids = Some (Dir rules) ->
Dict.get "ruleset.json" rules = Some (File (JRuleset ruleset)) ->
statefile w = Some st ->
rule_name_occurs self (r_name d) w = Ok false w ->
uuids w = u :: rest ->
Dict.get id rules = None ->
tracked_rule o ruleset_id id st = None ->
exists w1 st1,
  create_rule api true files self ruleset_id (PyDict d) PyNone postfix w = Ok (RetStr id) w1 /\
  endswith id (_postfix self) = true /\
  Fs.lookup [o; ruleset_id; id] (disk w1)
    = Some (Dir [("rule.json", File (JRule d)); ("tags.json", File (JTags (tags_dict "")))]) /\
  Fs.lookup [o; ruleset_id; "ruleset.json"] (disk w1)
    = Some (File (JRuleset (mk_ruleset (rs_name ruleset) (rs_description ruleset)
                              (rs_ruleIds ruleset ++ [id])))) /\
  (forall x, x <> id -> x <> "ruleset.json" ->
     Fs.lookup [o; ruleset_id; x] (disk w1) = Fs.lookup [o; ruleset_id; x] (disk w)) /\
  (forall x, x <> ruleset_id -> Fs.lookup [o; x] (disk w1) = Fs.lookup [o; x] (disk w)) /\
  statefile w1 = Some st1 /\
  tracked_rule o ruleset_id id st1 = Some st_both /\
  trace w1 = trace w.
Proof.
  intros id Hk Hrs Hdoc Hst Hname Hu Hfree Htr.
  assert (Htags : @PyNone string <> PyType_str) by discriminate.
  destruct (create_rule_run PyNone w st kids rules ruleset d ruleset_id postfix u rest
              Htags Hk Hrs Hdoc Hst Hname Hu Hfree Htr) as [w1 [st1 [H1 H2]]].
  exists w1, st1. split; [|exact H2].
  unfold create_rule. rewrite lazy_when_lazy. exact H1.
Qed.

End CreateRule.

(** ** Strings where documents are expected *)

(** C10: a string passed as [ruleset_data], [rule_data] or [tags_data] is
    not the type object [str], so [x is str] is false, the file of that
    name is never read, whatever it holds, and the string itself is the
    payload: [create_ruleset] and [create_rule] then fail on
    [data['name']], in a world that has not changed, and a string passed
    as [tags_data] next to a rule that is a dictionary is what
    [create_rule] writes to the [tags.json] of the rule it creates,
    whatever the files outside the state directory hold.  A dictionary,
    for its part, is the document that [create_ruleset] writes. *)
Theorem string_argument_is_not_a_path (api : list event -> call -> response)
  (lazy_eval : bool) (files : string -> option content) (self : State)
  (s : string) (w : world) :
is_str (@PyStr ruleset_data s) = false /\
is_str (@PyStr rule_data s) = false /\
is_str (@PyStr string s) = false /\
data_of files as_ruleset (PyStr s) w = Ok (PyStr s) w /\
data_of files as_rule (PyStr s) w = Ok (PyStr s) w /\
data_of files as_tags (PyStr s) w = Ok (PyStr s) w /\
create_ruleset_body files self (PyStr s) None w = Exc TypeError w /\
(forall ruleset_id tags, create_rule_body files self ruleset_id (PyStr s) (PyStr tags) None w
                         = Exc TypeError w) /\
tags_payload (PyStr s) w = Ok (tags_str s) w /\
(forall (st : state_doc) (kids rules : list (string * node)) (ruleset : ruleset_data)
        (d : rule_data) (ruleset_id : string) (postfix : option string)
        (u : string) (rest : list string),
   let id := String.append u (_postfix self) in
   Fs.lookup [org_id self] (disk w) = Some (Dir kids) ->
   Dict.get ruleset_id kids = Some (Dir rules) ->
   Dict.get "ruleset.json" rules = Some (File (JRuleset ruleset)) ->
   statefile w = Some st ->
   rule_name_occurs self (r_name d) w = Ok false w ->
   uuids w = u :: rest ->
   Dict.get id rules = None ->
   tracked_rule (org_id self) ruleset_id id st = None ->
   exists w1,
     create_rule_body files self ruleset_id (PyDict d) (PyStr s) postfix w
       = Ok (RetStr id) w1 /\
     create_rule api true files self ruleset_id (PyDict d) (PyStr s) postfix w
       = Ok (RetStr id) w1 /\
     Fs.lookup [org_id self; ruleset_id; id; "tags.json"] (disk w1)
       = Some (File (JTags (tags_str s))) /\
     trace w1 = trace w) /\
(forall (st : state_doc) (kids : list (string * node)) (d : ruleset_data)
        (postfix : option string) (u : string) (rest : list string),
   let id := String.append u (_postfix self) in
   Fs.lookup [org_id self] (disk w) = Some (Dir kids) ->
   statefile w = Some st ->
   ruleset_name_occurs self (rs_name d) w = Ok false w ->
   uuids w = u :: rest ->
   Dict.get id kids = None ->
   tracked_ruleset (org_id self) id st = None ->
   exists w1,
     create_ruleset api true files self (PyDict d) postfix w = Ok (RetStr id) w1 /\
     Fs.lookup [org_id self; id; "ruleset.json"] (disk w1) = Some (File (JRuleset d))).
Proof.
  do 9 (split; [reflexivity|]).
  split; [|
    intros st kids d postfix u rest id Hk Hst Hname Hu Hfree Htr;
    destruct (create_then_delete_ruleset_run api files self w st kids d postfix u rest
                Hk Hst Hname Hu Hfree Htr) as [w1 [st1 [R1 [_ [R3 _]]]]];
    exists w1; split; [exact R1|];
    change [org_id self; id; "ruleset.json"] with ([org_id self; id] ++ ["ruleset.json"]);
    rewrite lookup_app; fold id in R3; rewrite R3; reflexivity ].
  intros st kids rules ruleset d ruleset_id postfix u rest id Hk Hrs Hdoc Hst Hname Hu Hfree Htr.
  assert (Htags : PyStr s <> @PyType_str string) by discriminate.
  destruct (create_rule_run files self (PyStr s) w st kids rules ruleset d ruleset_id
              postfix u rest Htags Hk Hrs Hdoc Hst Hname Hu Hfree Htr)
    as [w1 [st1 [R1 [_ [R3 [_ [_ [_ [_ [_ R9]]]]]]]]]].
  exists w1. split; [exact R1|]. split.
  { unfold create_rule. rewrite lazy_when_lazy. exact R1. }
  split; [|exact R9].
  change [org_id self; ruleset_id; id; "tags.json"]
    with ([org_id self; ruleset_id; id] ++ ["tags.json"]).
  rewrite lookup_app. fold id in R3. rewrite R3. reflexivity.
Qed.

(** ** Locating a rule *)

Section Locate.
Variable self : State.

Let o : string := org_id self.

Lemma in_list_true x l : In x l -> in_list x l = true.
Proof.
  intros H. destruct (in_list x l) eqn:E; [reflexivity|].
  apply in_list_false in E. contradiction.
Qed.

(** X30: [_locate_rule] answers with the first ruleset, in the order of
    the listing, whose directory has an entry of the rule's name: when
    the entries before it are directories without such an entry, the
    path is the one of the rule under that ruleset, whatever comes after
    it, and [get_tags] returns the tags stored there; neither changes
    anything. *)
Theorem get_tags_reads (w : world) (kids rules entries : list (string * node))
  (before after : list string) (ruleset_id rule_id : string) (tags : tags_data) :
Fs.lookup [o] (disk w) = Some (Dir kids) ->
Dict.keys kids = before ++ ruleset_id :: after ->
(forall x, In x before ->
   exists r, Dict.get x kids = Some (Dir r) /\ Dict.get rule_id r = None) ->
Dict.get ruleset_id kids = Some (Dir rules) ->
Dict.get rule_id rules = Some (Dir entries) ->
Dict.get "tags.json" entries = Some (File (JTags tags)) ->
_locate_rule self rule_id w = Ok (Some [o; ruleset_id; rule_id]) w /\
get_tags self rule_id w = Ok (Some tags) w.
Proof.
  intros Hk Hkeys Hbefore Hrs Hrule Htags.
  assert (Hl : _locate_rule self rule_id w = Ok (Some [o; ruleset_id; rule_id]) w).
  { unfold _locate_rule, organization_dir. fold o.
    rewrite (bind_run _ _ _ _ _ (os_listdir_run [o] w kids Hk)). rewrite Hkeys.
    clear Hkeys. induction before as [|x l IH].
    - simpl.
      assert (Hdir : Fs.lookup [o; ruleset_id] (disk w) = Some (Dir rules)).
      { now rewrite (lookup_child o ruleset_id kids _ Hk). }
      rewrite (bind_run _ _ _ _ _ (os_listdir_run _ w rules Hdir)).
      rewrite in_list_true; [reflexivity|].
      apply get_in_keys. congruence.
    - destruct (Hbefore x (or_introl eq_refl)) as [r [H1 H2]].
      assert (Hdir : Fs.lookup [o; x] (disk w) = Some (Dir r)).
      { now rewrite (lookup_child o x kids _ Hk). }
      simpl. simpl in IH.
      rewrite (bind_run _ _ _ _ _ (os_listdir_run _ w r Hdir)).
      replace (in_list rule_id (Dict.keys r)) with false.
      + apply IH. intros y Hy. apply Hbefore. now right.
      + symmetry. apply in_list_false. now apply get_none_not_in. }
  split; [exact Hl|].
  unfold get_tags. rewrite (bind_run _ _ _ _ _ Hl).
  unfold read_tags_json, read_json, bind, get_disk.
  change ([o; ruleset_id; rule_id] ++ ["tags.json"])
    with ([o] ++ [ruleset_id; rule_id; "tags.json"]).
  rewrite lookup_app, Hk. simpl. rewrite Hrs, Hrule, Htags. reflexivity.
Qed.

End Locate.

(** * Instances on the sample worlds *)


Lemma plain_api_errors : plain_api api_errors.
Proof. intros history c. destruct c; exact I. Qed.

Lemma plain_api_breaks : plain_api api_breaks.
Proof. intros history c. destruct c; simpl; repeat constructor. Qed.

Lemma plain_api_serves : plain_api api_serves.
Proof. intros history c. destruct c; simpl; repeat constructor. Qed.



Lemma state_add_ruleset_transitions_witness :
  tracked_ruleset "org" "rs1" sample_state
    = Some (mk_entry rs_false [("u-localonly", st_both)]) /\
  exists st',
    commits (_state_add_ruleset sample_self "rs1" rs_true) sample_state st' /\
    tracked_ruleset "org" "rs1" st' = Some (mk_entry rs_true [("u-localonly", st_both)]).
Proof.
  assert (H : tracked_ruleset "org" "rs1" sample_state
                = Some (mk_entry rs_false [("u-localonly", st_both)])) by reflexivity.
  split; [exact H|].
  destruct (state_add_ruleset_transitions sample_self "rs1" rs_true sample_state _ H)
    as [st' [Hc [Ht _]]].
  exists st'. split; [exact Hc | exact Ht].
Defined.

Lemma state_add_ruleset_creates_witness :
  exists st',
    commits (_state_add_ruleset sample_self "rs2" rs_del) blank_state st' /\
    tracked_ruleset "org" "rs2" st' = Some (mk_entry rs_del []).
Proof.
  destruct (state_add_ruleset_creates sample_self "rs2" rs_del blank_state eq_refl)
    as [st' [Hc [Ht _]]].
  exists st'. split; [exact Hc | exact Ht].
Defined.

Lemma state_add_rule_frame_witness :
  let st' := mk_state "org" [("org", [("rs1", mk_entry rs_false [("u-localonly", st_both); ("r2", st_rule)])])] in
  commits (_state_add_rule sample_self "rs1" "r2" st_rule) sample_state st' /\
  tracked_rule "org" "rs1" "u-localonly" st' = Some st_both.
Proof.
  intros st'.
  assert (H : commits (_state_add_rule sample_self "rs1" "r2" st_rule) sample_state st').
  { apply commits_intro. vm_compute. reflexivity. }
  split; [exact H|].
  destruct (state_add_rule_frame sample_self "rs1" "r2" st_rule sample_state st' H)
    as [Hr _].
  exact (eq_trans (Hr "u-localonly" ltac:(discriminate)) eq_refl).
Defined.

Lemma deleted_rule_stays_deleted_witness :
  exists st',
    commits (_state_delete_rule sample_self "rs1" "r7") sample_state st' /\
    tracked_rule "org" "rs1" "r7" st' = Some st_del /\
    rejects (_state_add_rule sample_self "rs1" "r7" st_tags) st' ValueError.
Proof.
  apply (deleted_rule_stays_deleted sample_self "rs1" "r7" st_tags sample_state).
  - left. reflexivity.
  - discriminate.
Defined.

Lemma push_untracked_is_noop_witness :
  push api_accepts sample_self empty_world = Ok tt empty_world.
Proof.
  apply (push_untracked_is_noop api_accepts sample_self empty_world blank_state).
  - reflexivity.
  - reflexivity.
Defined.

Lemma push_statefile_frame_witness :
  exists w' st',
    push api_accepts sample_self local_world = Ok tt w' /\
    statefile w' = Some st' /\
    workspace st' = "org" /\
    Dict.get "org" (organizations st') <> Some [].
Proof.
  pose proof (push_statefile_frame api_accepts sample_self local_world local_state eq_refl)
    as H.
  destruct (push api_accepts sample_self local_world) as [[] w'|e w'] eqn:Hrun.
  - destruct H as [st' [H1 [H2 [_ H4]]]]. exists w', st'.
    split; [reflexivity|]. split; [exact H1|]. split; [exact H2 | exact H4].
  - vm_compute in Hrun. discriminate Hrun.
Defined.

Lemma refresh_other_organizations_witness :
  let w := mk_world (Dir [("org", Dir []); ("other", Dir [("rs5", Dir [])])])
             (Some blank_state) [] [] in
  Fs.lookup ["other"; "rs5"] (disk (final_world (refresh api_serves sample_self w)))
    = Some (Dir []).
Proof.
  intros w.
  exact (eq_trans
           (refresh_other_organizations api_serves sample_self w eq_refl plain_api_serves
              eq_refl "other" ["rs5"] ltac:(discriminate))
           eq_refl).
Defined.



Lemma refresh_restores_witness :
  exists w',
    refresh api_breaks sample_self sample_world = Ok tt w' /\
    Fs.lookup ["org"; "rs1"] (disk w') = Fs.lookup ["org"; "rs1"] sample_disk /\
    Fs.lookup ["org"; ".backup"] (disk w') = None /\
    Fs.lookup ["org"; ".remote"] (disk w') = None /\
    statefile w' = Some sample_state.
Proof.
  assert (Hk : exists kids0, Fs.lookup ["org"] sample_disk = Some (Dir kids0) /\
                             Dict.keys kids0 = ["rs1"]).
  { eexists. split; reflexivity. }
  destruct Hk as [kids0 [Hk Hkeys]].
  assert (Hnd : NoDup (Dict.keys kids0)).
  { rewrite Hkeys. constructor; [intros []|constructor]. }
  assert (Hb : Dict.get ".backup" kids0 = None).
  { apply get_none_not_in. rewrite Hkeys. intros [G|[]]. discriminate G. }
  assert (Hr : Dict.get ".remote" kids0 = None).
  { apply get_none_not_in. rewrite Hkeys. intros [G|[]]. discriminate G. }
  assert (Hrun : (refresh_stage sample_self ;;; refresh_fetch api_breaks sample_self)%py
                   sample_world = Exc URLError broken_world) by (vm_compute; reflexivity).
  destruct (refresh_restores api_breaks sample_self sample_world broken_world kids0 URLError
              eq_refl plain_api_breaks Hk Hnd Hb Hr Hrun eq_refl)
    as [w' [H1 [H2 [H3 _]]]].
  exists w'. split; [exact H1|]. split; [apply H2|].
  split; [exact (eq_trans (H2 ".backup") eq_refl)|].
  split; [exact (eq_trans (H2 ".remote") eq_refl) | exact H3].
Defined.

Lemma generate_id_fresh_witness :
  let w := mk_world (Dir []) None ["a"; "b"; "c"] [] in
  exists skipped u rest,
    generate_id "-localonly" ["a-localonly"] w
      = Ok (String.append u "-localonly") (mk_world (disk w) (statefile w) rest (trace w)) /\
    uuids w = skipped ++ u :: rest /\
    in_list (String.append u "-localonly") ["a-localonly"] = false /\
    endswith (String.append u "-localonly") "-localonly" = true /\
    (forall v, In v skipped -> in_list (String.append v "-localonly") ["a-localonly"] = true).
Proof.
  intros w. apply (generate_id_fresh "-localonly" ["a-localonly"] w).
  exists "b". split; [right; left; reflexivity | reflexivity].
Defined.

Lemma ruleset_name_loop_ends_witness :
  exists k, (k <= length (Dict.keys sample_kids))%nat /\
    (forall j, (j < k)%nat ->
       ruleset_name_occurs sample_self (lengthen j " - COPY" "first") sample_world
         = Ok true sample_world) /\
    ((uniquify (length (Dict.keys sample_kids)) (ruleset_name_occurs sample_self)
        " - COPY" "first" sample_world
        = Ok (lengthen k " - COPY" "first") sample_world /\
      ruleset_name_occurs sample_self (lengthen k " - COPY" "first") sample_world
        = Ok false sample_world) \/
     (exists e,
        uniquify (length (Dict.keys sample_kids)) (ruleset_name_occurs sample_self)
          " - COPY" "first" sample_world = Exc e sample_world /\
        ruleset_name_occurs sample_self (lengthen k " - COPY" "first") sample_world
          = Exc e sample_world)).
Proof.
  apply (ruleset_name_loop_ends sample_self sample_world sample_kids " - COPY" "first").
  - reflexivity.
  - discriminate.
Defined.

Lemma rule_name_loop_ends_witness :
  count_rules sample_self sample_world = Ok (rule_count sample_kids) sample_world /\
  exists k, (k <= rule_count sample_kids)%nat /\
    (forall j, (j < k)%nat ->
       rule_name_occurs sample_self (lengthen j " - COPY" "a") sample_world
         = Ok true sample_world) /\
    ((uniquify (rule_count sample_kids) (rule_name_occurs sample_self)
        " - COPY" "a" sample_world
        = Ok (lengthen k " - COPY" "a") sample_world /\
      rule_name_occurs sample_self (lengthen k " - COPY" "a") sample_world
        = Ok false sample_world) \/
     (exists e,
        uniquify (rule_count sample_kids) (rule_name_occurs sample_self)
          " - COPY" "a" sample_world = Exc e sample_world /\
        rule_name_occurs sample_self (lengthen k " - COPY" "a") sample_world
          = Exc e sample_world)).
Proof.
  apply (rule_name_loop_ends sample_self sample_world sample_kids " - COPY" "a").
  - reflexivity.
  - simpl. constructor; [intros [] | constructor].
  - discriminate.
Defined.

Lemma unknown_rule_changes_nothing_witness :
  update_rule api_accepts true sample_self "r404" sample_rule sample_world
    = Ok RetNone (logged sample_world (Not_found "r404")) /\
  copy_rule api_accepts true sample_self "r404" "rs1" None sample_world
    = Ok RetNone (logged sample_world (Not_found "r404")) /\
  create_tags api_accepts true sample_self "r404" (tags_dict "") sample_world
    = Ok (RetState sample_self) (logged sample_world (Not_found "r404")) /\
  delete_rule_op api_accepts true sample_self "r404" sample_world
    = Ok (RetState sample_self) (logged sample_world (Not_found "r404")).
Proof.
  apply (unknown_rule_changes_nothing api_accepts sample_self sample_world sample_kids).
  - reflexivity.
  - intros ruleset [<-|[]]. eexists. split; reflexivity.
Defined.

Lemma unknown_ruleset_changes_nothing_witness :
  update_ruleset api_accepts true sample_self "rs404" (mk_ruleset "n" "" []) sample_world
    = Ok RetNone (logged sample_world (Not_found "rs404")) /\
  copy_ruleset api_accepts true no_files sample_self "rs404" None sample_world
    = Ok RetNone (logged sample_world (Not_found "rs404")) /\
  delete_ruleset_op api_accepts true sample_self "rs404" sample_world
    = Ok (RetState sample_self) (logged sample_world (Not_found "rs404")).
Proof.
  destruct (unknown_ruleset_changes_nothing api_accepts no_files sample_self sample_world
              sample_kids "rs404" None (mk_ruleset "n" "" []) eq_refl eq_refl)
    as [H1 [H2 H3]].
  split; [exact H1|]. split; [exact H2 | exact (H3 eq_refl eq_refl)].
Defined.

Lemma create_then_delete_ruleset_witness :
  exists w1 w2 st2,
    create_ruleset api_accepts true no_files sample_self
      (PyDict (mk_ruleset "mine" "" [])) None empty_world = Ok (RetStr "u1-localonly") w1 /\
    delete_ruleset_op api_accepts true sample_self "u1-localonly" w1
      = Ok (RetState sample_self) w2 /\
    disk w2 = disk empty_world /\
    statefile w2 = Some st2 /\
    (forall o' rs, tracked_ruleset o' rs st2 = tracked_ruleset o' rs blank_state).
Proof.
  destruct (create_then_delete_ruleset api_accepts no_files sample_self empty_world
              blank_state [] (mk_ruleset "mine" "" []) None "u1" []
              eq_refl eq_refl eq_refl eq_refl eq_refl eq_refl)
    as [w1 [st1 [H1 [_ [_ [_ [_ [_ [w2 [st2 [H2 [H3 [H4 [H5 _]]]]]]]]]]]]]].
  exists w1, w2, st2. split; [exact H1|]. split; [exact H2|]. split; [exact H3|].
  split; [exact H4 | exact H5].
Defined.


Lemma workspace_switches_witness :
  let r := tsctl_workspace api_serves "org2" sample_world in
  (exists st',
     statefile (final_world r) = Some st' /\
     workspace st' = "org2" /\
     (forall o', o' <> "org2" ->
        Dict.get o' (organizations st') = Dict.get o' (organizations sample_state)) /\
     tsctl_plan (final_world r) = Ok st' (final_world r)) /\
  (forall s w', r = Ok s w' -> s = mk_State "org2" "-localonly").
Proof.
  exact (workspace_switches api_serves "org2" sample_world sample_state eq_refl).
Defined.

Lemma create_rule_creates_witness :
  let w := mk_world sample_disk (Some sample_state) ["u2"] [] in
  exists w1 st1,
    create_rule api_accepts true no_files sample_self "rs1"
      (PyDict (mk_rule "b" None "Host")) PyNone None w = Ok (RetStr "u2-localonly") w1 /\
    Fs.lookup ["org"; "rs1"; "ruleset.json"] (disk w1)
      = Some (File (JRuleset (mk_ruleset "first" "" ["u-localonly"; "u2-localonly"]))) /\
    statefile w1 = Some st1 /\
    tracked_rule "org" "rs1" "u2-localonly" st1 = Some st_both.
Proof.
  intros w.
  destruct (create_rule_creates api_accepts no_files sample_self w sample_state
              sample_kids _ (mk_ruleset "first" "" ["u-localonly"]) (mk_rule "b" None "Host")
              "rs1" None "u2" [] eq_refl eq_refl eq_refl eq_refl eq_refl eq_refl eq_refl
              eq_refl)
    as [w1 [st1 [H1 [_ [_ [H4 [_ [_ [H7 [H8 _]]]]]]]]]].
  exists w1, st1. split; [exact H1|]. split; [exact H4|]. split; [exact H7 | exact H8].
Defined.

Lemma get_tags_reads_witness :
  _locate_rule sample_self "u-localonly" sample_world
    = Ok (Some ["org"; "rs1"; "u-localonly"]) sample_world /\
  get_tags sample_self "u-localonly" sample_world = Ok (Some (tags_dict "")) sample_world.
Proof.
  eapply (get_tags_reads sample_self sample_world sample_kids _ _ [] [] "rs1" "u-localonly"
            (tags_dict "")).
  - reflexivity.
  - reflexivity.
  - intros x [].
  - reflexivity.
  - reflexivity.
  - reflexivity.
Defined.


Lemma operations_other_organizations_witness :
  let w := mk_world (Dir [("org", Dir [("rs1", Dir [])]); ("other", Dir [("rs5", Dir [])])])
             (Some blank_state) ["u1"] [] in
  Fs.lookup ["other"; "rs5"]
    (disk (final_world (delete_ruleset_op api_accepts true sample_self "rs1" w)))
    = Some (Dir []).
Proof.
  intros w.
  assert (Hs : plain_supply (_postfix sample_self) w) by (repeat constructor).
  destruct (operations_other_organizations api_accepts no_files sample_self w "rs1" "r1" None
              PyNone PyNone PyNone (mk_ruleset "n" "" []) sample_rule tags_null
              eq_refl eq_refl Hs)
    as [_ [_ [_ [_ [_ [_ [_ [_ H]]]]]]]].
  exact (eq_trans (H "other" ["rs5"] ltac:(discriminate)) eq_refl).
Defined.

Lemma string_argument_is_not_a_path_witness :
  let w := mk_world sample_disk (Some sample_state) ["u2"] [] in
  tags_files "tags.json" = Some (JTags (tags_dict "from the file")) /\
  exists w1,
    create_rule_body tags_files sample_self "rs1" (PyDict (mk_rule "b" None "Host"))
      (PyStr "tags.json") None w = Ok (RetStr "u2-localonly") w1 /\
    Fs.lookup ["org"; "rs1"; "u2-localonly"; "tags.json"] (disk w1)
      = Some (File (JTags (tags_str "tags.json"))).
Proof.
  intros w. split; [reflexivity|].
  destruct (string_argument_is_not_a_path api_accepts true tags_files sample_self
              "tags.json" w) as [_ [_ [_ [_ [_ [_ [_ [_ [_ [H _]]]]]]]]]].
  destruct (H sample_state sample_kids _ (mk_ruleset "first" "" ["u-localonly"])
              (mk_rule "b" None "Host") "rs1" None "u2" []
              eq_refl eq_refl eq_refl eq_refl eq_refl eq_refl eq_refl eq_refl)
    as [w1 [H1 [_ [H3 _]]]].
  exists w1. split; [exact H1 | exact H3].
Defined.
